(** * CubieGameJS 1.0.0: a shallow embedding of the simulation core

    Source: [src/cubiegamejs/1.0.0/engine.js].

    JavaScript numbers are IEEE-754 binary64 values and are modelled by
    Rocq's primitive [float], so every arithmetic step below rounds
    exactly as the engine does.  JavaScript function values (hooks,
    listeners, scripts, tween callbacks) are modelled by a natural number
    naming the function object; what a function does when called is given
    by an environment passed to the operation that calls it.  Objects
    that are shared by reference (entities, tween targets) live in a
    store indexed by locations.  Calls to the logger are left out. *)

From Stdlib Require Import Floats ZArith List Bool Lia Sorted.
From stdpp Require Import gmap strings list.
Import ListNotations.

Open Scope float_scope.

(** Decimal literals denote the nearest binary64 value, as in JavaScript. *)
#[local] Set Warnings "-inexact-float".

(** ** JavaScript number semantics used by the engine *)

Module JS.

(** [v !== v] holds only for NaN. *)
Definition isNaN (v : float) : bool := negb (v =? v).

(** ToBoolean on a number: [0], [-0] and [NaN] are falsy. *)
Definition ToBoolean (v : float) : bool := negb ((v =? 0) || isNaN v).

(** [v || d] on numbers. *)
Definition or (v d : float) : float := if ToBoolean v then v else d.

(** [v || d] where [v] may be [undefined] (a missing property). *)
Definition or_undef (v : option float) (d : float) : float :=
  match v with
  | Some a => or a d
  | None => d
  end.

(** [undefined] used as an operand of [+ - * /] converts to NaN, and
    every comparison with it is false. *)
Definition undefined_num : float := nan.

(** [Math.min(a, b)]: NaN if either is NaN, and [-0] below [+0]. *)
Definition Math_min (a b : float) : float :=
  if isNaN a || isNaN b then nan
  else if a <? b then a
  else if b <? a then b
  else if is_zero a && get_sign a then a
  else b.

Definition Math_sqrt (a : float) : float := sqrt a.

(** [Math.max(a, b)]: NaN if either is NaN, and [+0] above [-0]. *)
Definition Math_max (a b : float) : float :=
  if isNaN a || isNaN b then nan
  else if a <? b then b
  else if b <? a then a
  else if is_zero a && get_sign a then b
  else a.

(** [a.indexOf(v)]: [None] stands for [-1]. *)
Fixpoint indexOf {A} `{EqDecision A} (v : A) (a : list A) : option nat :=
  match a with
  | [] => None
  | w :: a' => if decide (w = v) then Some 0%nat else S <$> indexOf v a'
  end.

(** [a.splice(index, 1)]. *)
Definition splice1 {A} (index : nat) (a : list A) : list A :=
  take index a ++ drop (S index) a.

(** [n < x] for an array length [n] and a number [x].  A length is an
    integer below [2^32], which a double holds exactly, so the
    comparison is that of the exact values; a finite double is
    [(-1)^s * m * 2^e]. *)
Definition length_ltb (n : nat) (x : float) : bool :=
  match Prim2SF x with
  | S754_nan => false
  | S754_infinity s => negb s
  | S754_zero _ => false
  | S754_finite s m e =>
      negb s && (if (0 <=? e)%Z then (Z.of_nat n <? Z.pos m * 2 ^ e)%Z
                 else (Z.of_nat n * 2 ^ (- e) <? Z.pos m)%Z)
  end.

(** [n <= x], likewise. *)
Definition length_leb (n : nat) (x : float) : bool :=
  match Prim2SF x with
  | S754_nan => false
  | S754_infinity s => negb s
  | S754_zero _ => (n =? 0)%nat
  | S754_finite s m e =>
      negb s && (if (0 <=? e)%Z then (Z.of_nat n <=? Z.pos m * 2 ^ e)%Z
                 else (Z.of_nat n * 2 ^ (- e) <=? Z.pos m)%Z)
  end.

(** [Number.isInteger(x)] *)
Definition Number_isInteger (x : float) : bool :=
  match Prim2SF x with
  | S754_zero _ => true
  | S754_finite _ m e => (0 <=? e)%Z || (Z.pos m mod 2 ^ (- e) =? 0)%Z
  | _ => false
  end.

(** The largest length of an array. *)
Definition maxArrayLength : Z := 4294967295.

(** The number of array lengths below [x]: the least [n] for which
    [n < x] is false, as far as an array can grow. *)
Definition lengthsBelow (x : float) : nat :=
  Z.to_nat
    (Z.min maxArrayLength
       match Prim2SF x with
       | S754_finite false m e =>
           if (0 <=? e)%Z then Z.pos m * 2 ^ e
           else (Z.pos m + 2 ^ (- e) - 1) / 2 ^ (- e)
       | S754_infinity false => maxArrayLength
       | _ => 0
       end).

End JS.

(** ** [Map] objects iterated in insertion order *)

Module JSMap.

Section Ops.
Context {V : Type}.

Definition t := list (string * V).

Fixpoint get (k : string) (m : list (string * V)) : option V :=
  match m with
  | [] => None
  | (k', v) :: m' => if decide (k' = k) then Some v else get k m'
  end.

Definition has (k : string) (m : list (string * V)) : bool :=
  match get k m with Some _ => true | None => false end.

(** [m.set(k, v)]: an existing key keeps its place in the iteration
    order and gets the new value; a new key is appended. *)
Fixpoint set (k : string) (v : V) (m : list (string * V)) : list (string * V) :=
  match m with
  | [] => [(k, v)]
  | (k', v') :: m' =>
      if decide (k' = k) then (k, v) :: m' else (k', v') :: set k v m'
  end.

Fixpoint delete (k : string) (m : list (string * V)) : list (string * V) :=
  match m with
  | [] => []
  | (k', v') :: m' =>
      if decide (k' = k) then m' else (k', v') :: delete k m'
  end.

Definition keys (m : list (string * V)) : list string := map fst m.
Definition values (m : list (string * V)) : list V := map snd m.

End Ops.

End JSMap.

(** ** Vectors and entities *)

Module Vec3.
Record t := mk { x : float; y : float; z : float }.
Definition zero : t := mk 0 0 0.
End Vec3.

Definition loc := nat.

(** A script object [{ init?, update? }]; the fields name the function
    values, [None] when the property is absent. *)
Module Script.
Record t := mk { init : option nat; update : option nat }.
End Script.

Module Entity.

(** The options object given to [new Entity(name, config, engine)]. *)
Record Config := mkConfig {
  cfg_mesh : option Vec3.t;
  cfg_enabled : option bool;
  cfg_visible : option bool;
  cfg_x : option float;
  cfg_y : option float;
  cfg_layer : option string
}.

Definition emptyConfig : Config := mkConfig None None None None None None.

(** [mesh] is the position of the attached THREE mesh, when there is
    one; [x], [y] are the 2D fields. *)
Record t := mk {
  name : string;
  mesh : option Vec3.t;
  enabled : bool;
  visible : bool;
  scripts : list Script.t;
  x : float;
  y : float
}.

Definition new (name : string) (config : Config) : t :=
  mk name
     (cfg_mesh config)
     (match cfg_enabled config with Some b => b | None => true end)
     (match cfg_visible config with Some b => b | None => true end)
     []
     (JS.or_undef (cfg_x config) 0)
     (JS.or_undef (cfg_y config) 0).

(** [entity.position.get()].  Without a mesh the result is [{x, y}]:
    its [z] is [undefined], which the physics code only uses as an
    arithmetic operand. *)
Definition position_get (e : t) : Vec3.t :=
  match mesh e with
  | Some p => Vec3.mk (Vec3.x p) (Vec3.y p) (Vec3.z p)
  | None => Vec3.mk (x e) (y e) JS.undefined_num
  end.

(** [entity.position.set(pos)]. *)
Definition position_set (pos : Vec3.t) (e : t) : t :=
  match mesh e with
  | Some _ =>
      mk (name e)
         (Some (Vec3.mk (JS.or (Vec3.x pos) 0) (JS.or (Vec3.y pos) 0) (JS.or (Vec3.z pos) 0)))
         (enabled e) (visible e) (scripts e) (x e) (y e)
  | None =>
      mk (name e) None (enabled e) (visible e) (scripts e)
         (JS.or (Vec3.x pos) 0) (JS.or (Vec3.y pos) 0)
  end.

Definition addScript (script : Script.t) (e : t) : t :=
  mk (name e) (mesh e) (enabled e) (visible e) (scripts e ++ [script]) (x e) (y e).

End Entity.

(** The entity objects, by reference. *)
Definition Store := loc -> Entity.t.

Definition store_set (l : loc) (e : Entity.t) (s : Store) : Store :=
  fun l' => if Nat.eqb l' l then e else s l'.

Definition position_get (s : Store) (l : loc) : Vec3.t := Entity.position_get (s l).

Definition position_set (l : loc) (pos : Vec3.t) (s : Store) : Store :=
  store_set l (Entity.position_set pos (s l)) s.

(** ** Physics bodies *)

Module Body.

(** The caller's [bounds] object.  [PhysicsSystem.update] reads [minX],
    [maxX], [minZ] and [maxZ] and nothing else; [minY] and [maxY] are
    for a caller who also declares a vertical range. *)
Record Bounds := mkBounds {
  minX : float;
  maxX : float;
  minY : option float;
  maxY : option float;
  minZ : float;
  maxZ : float
}.

(** [entity] is a reference to the owning entity object; [velocity]
    and [acceleration] are the body's own vector objects. *)
Record t := mk {
  entity : loc;
  velocity : Vec3.t;
  acceleration : Vec3.t;
  mass : float;
  useGravity : bool;
  isStatic : bool;
  restitution : float;
  friction : float;
  drag : float;
  collider : string;
  radius : float;
  bounds : option Bounds
}.

Definition with_motion (velocity acceleration : Vec3.t) (b : t) : t :=
  mk (entity b) velocity acceleration (mass b) (useGravity b) (isStatic b)
     (restitution b) (friction b) (drag b) (collider b) (radius b) (bounds b).

End Body.

(** The data objects handed to listeners of the engine's own events. *)
Inductive Payload :=
| NoData
| EntityData (entity : loc)
| CollisionData (bodyA bodyB : Body.t)
| ResizeData (width height : float).

(** ** EventEmitter *)

Module EventEmitter.

(** A listener is a function value: either one supplied by the caller,
    or the arrow function [wrapper] that [once] creates ([w] names that
    closure). *)
Inductive Listener :=
| Fn (f : nat)
| OnceWrapper (w : nat) (event : string) (callback : Listener).

#[export] Instance Listener_eq_dec : EqDecision Listener.
Proof. solve_decision. Defined.

(** What the body of a caller-supplied function may do to the emitter
    it is registered on. *)
Inductive Action :=
| Off (event : string) (callback : Listener)
| On (event : string) (callback : Listener).

Section Emitter.
Context {Data : Type}.
(** The code of each caller-supplied function. *)
Variable body : nat -> list Action.

(** [events] is the [Map] from event name to its array of listeners;
    [calls] records, in order, each call of a caller-supplied
    function with the data it received; [closures] counts the
    wrappers allocated by [once]. *)
Record t := mk {
  events : gmap string (list Listener);
  calls : list (nat * Data);
  closures : nat
}.

Definition new : t := mk ∅ [] 0.

Definition listeners (event : string) (e : t) : list Listener :=
  default [] (events e !! event).

Definition on (event : string) (callback : Listener) (e : t) : t :=
  let events1 :=
    match events e !! event with
    | None => <[event := []]> (events e)
    | Some _ => events e
    end in
  mk (<[event := default [] (events1 !! event) ++ [callback]]> events1)
     (calls e) (closures e).

Definition off (event : string) (callback : Listener) (e : t) : t :=
  match events e !! event with
  | None => e
  | Some callbacks =>
      match JS.indexOf callback callbacks with
      | Some index => mk (<[event := JS.splice1 index callbacks]> (events e))
                         (calls e) (closures e)
      | None => e
      end
  end.

Definition perform (a : Action) (e : t) : t :=
  match a with
  | Off event callback => off event callback e
  | On event callback => on event callback e
  end.

Definition record (f : nat) (data : Data) (e : t) : t :=
  mk (events e) (calls e ++ [(f, data)]) (closures e).

(** [callback(data)] *)
Fixpoint invoke (callback : Listener) (data : Data) (e : t) : t :=
  match callback with
  | Fn f => fold_left (fun e' a => perform a e') (body f) (record f data e)
  | OnceWrapper w event inner =>
      off event (OnceWrapper w event inner) (invoke inner data e)
  end.

(** [array.forEach(callback => callback(data))] on the listener array
    of [event]: the length is read once, then each index below it is
    visited if the array, as it is at that moment, still has it. *)
Fixpoint forEach (len k : nat) (event : string) (data : Data) (e : t) : t :=
  match len with
  | O => e
  | S len' =>
      let e' :=
        match listeners event e !! k with
        | Some callback => invoke callback data e
        | None => e
        end in
      forEach len' (S k) event data e'
  end.

Definition emit (event : string) (data : Data) (e : t) : t :=
  match events e !! event with
  | None => e
  | Some callbacks => forEach (length callbacks) 0 event data e
  end.

Definition once (event : string) (callback : Listener) (e : t) : t :=
  let wrapper := OnceWrapper (closures e) event callback in
  on event wrapper (mk (events e) (calls e) (S (closures e))).

(** The functions called, in call order. *)
Definition called (e : t) : list nat := map fst (calls e).

End Emitter.

Arguments t : clear implicits.

End EventEmitter.

(** ** PhysicsSystem *)

Module PhysicsSystem.

(** The options object given to [addBody]. *)
Record Config := mkConfig {
  cfg_velocity : option Vec3.t;
  cfg_acceleration : option Vec3.t;
  cfg_mass : option float;
  cfg_useGravity : option bool;
  cfg_isStatic : option bool;
  cfg_restitution : option float;
  cfg_friction : option float;
  cfg_drag : option float;
  cfg_collider : option string;
  cfg_radius : option float;
  cfg_bounds : option Body.Bounds
}.

Record t := mk {
  gravity : float;
  bodies : list Body.t;
  enabled : bool
}.

Definition new : t := mk (-9.8) [] true.

(** The object literal of [addBody], with the two vectors by value:
    [PhysicsRefs.addBody] has them as the references the code stores.
    [config.collider || 'sphere'] replaces the empty string as well. *)
Definition makeBody (entity : loc) (config : Config) : Body.t :=
  Body.mk entity
    (default Vec3.zero (cfg_velocity config))
    (default Vec3.zero (cfg_acceleration config))
    (JS.or_undef (cfg_mass config) 1)
    (default true (cfg_useGravity config))
    (default false (cfg_isStatic config))
    (JS.or_undef (cfg_restitution config) 0.5)
    (JS.or_undef (cfg_friction config) 0.5)
    (JS.or_undef (cfg_drag config) 0.01)
    match cfg_collider config with
    | Some EmptyString | None => "sphere"%string
    | Some collider => collider
    end
    (JS.or_undef (cfg_radius config) 1)
    (cfg_bounds config).

Definition addBody (entity : loc) (config : Config) (p : t) : t :=
  mk (gravity p) (bodies p ++ [makeBody entity config]) (enabled p).

Definition removeBody (entity : loc) (p : t) : t :=
  mk (gravity p)
     (List.filter (fun b => negb (Nat.eqb (Body.entity b) entity)) (bodies p))
     (enabled p).

Definition setGravity (gravity : float) (p : t) : t :=
  mk gravity (bodies p) (enabled p).

(** [applyForce(body, force)] *)
Definition applyForce (body : Body.t) (force : Vec3.t) : Body.t :=
  let a := Body.acceleration body in
  Body.with_motion (Body.velocity body)
    (Vec3.mk (Vec3.x a + Vec3.x force / Body.mass body)
             (Vec3.y a + Vec3.y force / Body.mass body)
             (Vec3.z a + Vec3.z force / Body.mass body))
    body.

(** The blocks of the callback of [this.bodies.forEach] in [update],
    in source order. *)

(** "Apply gravity" *)
Definition applyGravity (gravity : float) (body : Body.t) : Vec3.t :=
  let a := Body.acceleration body in
  if Body.useGravity body then Vec3.mk (Vec3.x a) gravity (Vec3.z a) else a.

(** "Update velocity" *)
Definition updateVelocity (dt : float) (v a : Vec3.t) : Vec3.t :=
  Vec3.mk (Vec3.x v + Vec3.x a * dt) (Vec3.y v + Vec3.y a * dt) (Vec3.z v + Vec3.z a * dt).

(** "Apply drag" *)
Definition applyDrag (drag : float) (v : Vec3.t) : Vec3.t :=
  Vec3.mk (Vec3.x v * (1 - drag)) (Vec3.y v * (1 - drag)) (Vec3.z v * (1 - drag)).

(** "Update position": the new value of the local object [pos]. *)
Definition updatePosition (dt : float) (pos v : Vec3.t) : Vec3.t :=
  Vec3.mk (Vec3.x pos + Vec3.x v * dt) (Vec3.y pos + Vec3.y v * dt) (Vec3.z pos + Vec3.z v * dt).

(** "Ground collision": the local [pos], the velocity and the store. *)
Definition groundCollision (body : Body.t) (pos v : Vec3.t) (s : Store)
  : Vec3.t * Vec3.t * Store :=
  if Vec3.y pos <? 0 then
    let pos' := Vec3.mk (Vec3.x pos) 0 (Vec3.z pos) in
    let v' := Vec3.mk (Vec3.x v * (1 - Body.friction body))
                      (- Vec3.y v * Body.restitution body)
                      (Vec3.z v * (1 - Body.friction body)) in
    (pos', v', position_set (Body.entity body) pos' s)
  else (pos, v, s).

(** One axis of "Bounds collision": the two [if] statements that test a
    coordinate [p] against [lo] and then against [hi]. *)
Definition clampAxis (lo hi restitution : float) (p v : float) : float * float :=
  let '(p1, v1) := if p <? lo then (lo, v * - restitution) else (p, v) in
  if hi <? p1 then (hi, v1 * - restitution) else (p1, v1).

(** "Bounds collision" *)
Definition boundsCollision (body : Body.t) (pos v : Vec3.t) (s : Store)
  : Vec3.t * Vec3.t * Store :=
  match Body.bounds body with
  | Some bd =>
      let '(px, vx) := clampAxis (Body.minX bd) (Body.maxX bd) (Body.restitution body)
                                 (Vec3.x pos) (Vec3.x v) in
      let '(pz, vz) := clampAxis (Body.minZ bd) (Body.maxZ bd) (Body.restitution body)
                                 (Vec3.z pos) (Vec3.z v) in
      let pos' := Vec3.mk px (Vec3.y pos) pz in
      (pos', Vec3.mk vx (Vec3.y v) vz, position_set (Body.entity body) pos' s)
  | None => (pos, v, s)
  end.

(** The whole callback: one body of [this.bodies]. *)
Definition integrate (gravity dt : float) (body : Body.t) (s : Store) : Body.t * Store :=
  if Body.isStatic body then (body, s)
  else
    let a := applyGravity gravity body in
    let v := applyDrag (Body.drag body) (updateVelocity dt (Body.velocity body) a) in
    let pos := updatePosition dt (position_get s (Body.entity body)) v in
    let s1 := position_set (Body.entity body) pos s in
    let '(pos2, v2, s2) := groundCollision body pos v s1 in
    let '(pos3, v3, s3) := boundsCollision body pos2 v2 s2 in
    (Body.with_motion v3 Vec3.zero body, s3).

Fixpoint integrateAll (gravity dt : float) (bodies : list Body.t) (s : Store)
  : list Body.t * Store :=
  match bodies with
  | [] => ([], s)
  | body :: rest =>
      let '(body', s1) := integrate gravity dt body s in
      let '(rest', s2) := integrateAll gravity dt rest s1 in
      (body' :: rest', s2)
  end.

Section Collisions.
Variable body : nat -> list EventEmitter.Action.

(** The condition [distance < minDist && distance > 0]. *)
Definition colliding (distance minDist : float) : bool :=
  (distance <? minDist) && (0 <? distance).

Definition checkCollision (bodyA bodyB : Body.t)
  (st : Store * EventEmitter.t Payload) : Store * EventEmitter.t Payload :=
  let '(s, ev) := st in
  let posA := position_get s (Body.entity bodyA) in
  let posB := position_get s (Body.entity bodyB) in
  let dx := Vec3.x posB - Vec3.x posA in
  let dy := Vec3.y posB - Vec3.y posA in
  let dz := Vec3.z posB - Vec3.z posA in
  let distance := JS.Math_sqrt (dx * dx + dy * dy + dz * dz) in
  let minDist := Body.radius bodyA + Body.radius bodyB in
  if colliding distance minDist then
    let nx := dx / distance in
    let ny := dy / distance in
    let nz := dz / distance in
    let overlap := minDist - distance in
    let s1 :=
      if Body.isStatic bodyA then s
      else position_set (Body.entity bodyA)
             (Vec3.mk (Vec3.x posA - nx * overlap * 0.5)
                      (Vec3.y posA - ny * overlap * 0.5)
                      (Vec3.z posA - nz * overlap * 0.5)) s in
    let s2 :=
      if Body.isStatic bodyB then s1
      else position_set (Body.entity bodyB)
             (Vec3.mk (Vec3.x posB + nx * overlap * 0.5)
                      (Vec3.y posB + ny * overlap * 0.5)
                      (Vec3.z posB + nz * overlap * 0.5)) s1 in
    (s2, EventEmitter.emit body "collision" (CollisionData bodyA bodyB) ev)
  else (s, ev).

(** The double loop [for i ... for j = i + 1 ...] over [this.bodies]. *)
Fixpoint detectCollisions (bodies : list Body.t)
  (st : Store * EventEmitter.t Payload) : Store * EventEmitter.t Payload :=
  match bodies with
  | [] => st
  | bodyA :: rest =>
      detectCollisions rest
        (fold_left (fun st' bodyB => checkCollision bodyA bodyB st') rest st)
  end.

Definition update (dt : float) (p : t) (st : Store * EventEmitter.t Payload)
  : t * (Store * EventEmitter.t Payload) :=
  if negb (enabled p) then (p, st)
  else
    let '(bodies', s1) := integrateAll (gravity p) dt (bodies p) (fst st) in
    (mk (gravity p) bodies' (enabled p), detectCollisions bodies' (s1, snd st)).

End Collisions.

End PhysicsSystem.

(** ** Physics bodies with their vectors held by reference

    [addBody] stores [config.velocity] and [config.acceleration] as they
    are given: a body holds references to two vector objects, and
    another body, or the other field of the same body, may hold the same
    object.  This module has [applyForce] and the callback of [update]
    on such references, assignment by assignment.  [PhysicsSystem] above
    is the case in which every body owns its two vectors. *)

Module PhysicsRefs.

(** The vector objects [{ x, y, z }], by reference. *)
Definition Vectors := loc -> Vec3.t.

(** [o.x = v], [o.y = v] and [o.z = v] on the object at [l]. *)
Definition setX (l : loc) (v : float) (vs : Vectors) : Vectors :=
  fun l' => if Nat.eqb l' l then Vec3.mk v (Vec3.y (vs l')) (Vec3.z (vs l')) else vs l'.

Definition setY (l : loc) (v : float) (vs : Vectors) : Vectors :=
  fun l' => if Nat.eqb l' l then Vec3.mk (Vec3.x (vs l')) v (Vec3.z (vs l')) else vs l'.

Definition setZ (l : loc) (v : float) (vs : Vectors) : Vectors :=
  fun l' => if Nat.eqb l' l then Vec3.mk (Vec3.x (vs l')) (Vec3.y (vs l')) v else vs l'.

(** [velocity] and [acceleration] name the two vector objects; [body]
    holds the other properties (its own two vectors are not used). *)
Record t := mk {
  velocity : loc;
  acceleration : loc;
  body : Body.t
}.

(** The vector objects and the next unused reference. *)
Record Heap := mkHeap {
  vectors : Vectors;
  next : loc
}.

(** The literal [{ x: 0, y: 0, z: 0 }]: a new object. *)
Definition alloc (h : Heap) : loc * Heap :=
  (next h,
   mkHeap (fun l => if Nat.eqb l (next h) then Vec3.zero else vectors h l) (S (next h))).

(** The body that [addBody(entity, config)] builds: [config.velocity]
    and [config.acceleration], when they are objects, are stored as
    they are; a missing one is a new zero vector. *)
Definition addBody (entity : loc) (velocity acceleration : option loc)
  (config : PhysicsSystem.Config) (h : Heap) : t * Heap :=
  let '(vel, h) := match velocity with Some l => (l, h) | None => alloc h end in
  let '(acc, h) := match acceleration with Some l => (l, h) | None => alloc h end in
  (mk vel acc (PhysicsSystem.makeBody entity config), h).

(** The body as [PhysicsSystem] has it, with the vectors as they are in
    [vs]. *)
Definition load (b : t) (vs : Vectors) : Body.t :=
  Body.with_motion (vs (velocity b)) (vs (acceleration b)) (body b).

(** [applyForce(body, force)] *)
Definition applyForce (b : t) (force : Vec3.t) (vs : Vectors) : Vectors :=
  let acc := acceleration b in
  let m := Body.mass (body b) in
  let vs := setX acc (Vec3.x (vs acc) + Vec3.x force / m) vs in
  let vs := setY acc (Vec3.y (vs acc) + Vec3.y force / m) vs in
  setZ acc (Vec3.z (vs acc) + Vec3.z force / m) vs.

(** The blocks of the callback of [this.bodies.forEach] in [update],
    in source order. *)

(** "Apply gravity" *)
Definition applyGravity (gravity : float) (b : t) (vs : Vectors) : Vectors :=
  if Body.useGravity (body b) then setY (acceleration b) gravity vs else vs.

(** "Update velocity" *)
Definition updateVelocity (dt : float) (b : t) (vs : Vectors) : Vectors :=
  let vel := velocity b in
  let acc := acceleration b in
  let vs := setX vel (Vec3.x (vs vel) + Vec3.x (vs acc) * dt) vs in
  let vs := setY vel (Vec3.y (vs vel) + Vec3.y (vs acc) * dt) vs in
  setZ vel (Vec3.z (vs vel) + Vec3.z (vs acc) * dt) vs.

(** "Apply drag" *)
Definition applyDrag (b : t) (vs : Vectors) : Vectors :=
  let vel := velocity b in
  let drag := Body.drag (body b) in
  let vs := setX vel (Vec3.x (vs vel) * (1 - drag)) vs in
  let vs := setY vel (Vec3.y (vs vel) * (1 - drag)) vs in
  setZ vel (Vec3.z (vs vel) * (1 - drag)) vs.

(** "Ground collision": the local [pos], the vectors and the store. *)
Definition groundCollision (b : t) (pos : Vec3.t) (vs : Vectors) (s : Store)
  : Vec3.t * Vectors * Store :=
  let vel := velocity b in
  if Vec3.y pos <? 0 then
    let pos := Vec3.mk (Vec3.x pos) 0 (Vec3.z pos) in
    let vs := setY vel (- Vec3.y (vs vel) * Body.restitution (body b)) vs in
    let vs := setX vel (Vec3.x (vs vel) * (1 - Body.friction (body b))) vs in
    let vs := setZ vel (Vec3.z (vs vel) * (1 - Body.friction (body b))) vs in
    (pos, vs, position_set (Body.entity (body b)) pos s)
  else (pos, vs, s).

(** "Bounds collision": its four [if] statements, then the [set]. *)
Definition boundsCollision (b : t) (pos : Vec3.t) (vs : Vectors) (s : Store)
  : Vec3.t * Vectors * Store :=
  let vel := velocity b in
  let r := Body.restitution (body b) in
  match Body.bounds (body b) with
  | Some bd =>
      let '(pos, vs) :=
        if Vec3.x pos <? Body.minX bd
        then (Vec3.mk (Body.minX bd) (Vec3.y pos) (Vec3.z pos),
              setX vel (Vec3.x (vs vel) * - r) vs)
        else (pos, vs) in
      let '(pos, vs) :=
        if Body.maxX bd <? Vec3.x pos
        then (Vec3.mk (Body.maxX bd) (Vec3.y pos) (Vec3.z pos),
              setX vel (Vec3.x (vs vel) * - r) vs)
        else (pos, vs) in
      let '(pos, vs) :=
        if Vec3.z pos <? Body.minZ bd
        then (Vec3.mk (Vec3.x pos) (Vec3.y pos) (Body.minZ bd),
              setZ vel (Vec3.z (vs vel) * - r) vs)
        else (pos, vs) in
      let '(pos, vs) :=
        if Body.maxZ bd <? Vec3.z pos
        then (Vec3.mk (Vec3.x pos) (Vec3.y pos) (Body.maxZ bd),
              setZ vel (Vec3.z (vs vel) * - r) vs)
        else (pos, vs) in
      (pos, vs, position_set (Body.entity (body b)) pos s)
  | None => (pos, vs, s)
  end.

(** "Reset acceleration" *)
Definition resetAcceleration (b : t) (vs : Vectors) : Vectors :=
  let acc := acceleration b in
  setZ acc 0 (setY acc 0 (setX acc 0 vs)).

(** The whole callback: one body of [this.bodies]. *)
Definition integrate (gravity dt : float) (b : t) (st : Vectors * Store) : Vectors * Store :=
  if Body.isStatic (body b) then st
  else
    let '(vs, s) := st in
    let vs := applyDrag b (updateVelocity dt b (applyGravity gravity b vs)) in
    let pos :=
      PhysicsSystem.updatePosition dt (position_get s (Body.entity (body b)))
        (vs (velocity b)) in
    let s := position_set (Body.entity (body b)) pos s in
    let '(pos, vs, s) := groundCollision b pos vs s in
    let '(pos, vs, s) := boundsCollision b pos vs s in
    (resetAcceleration b vs, s).

End PhysicsRefs.

(** ** ParticleSystem *)

Inductive Mode := Mode2D | Mode3D.

Module Particle.
Record t := mk {
  position : Vec3.t;
  velocity : Vec3.t;
  life : float;
  maxLife : float
}.
End Particle.

Module ParticleSystem.

(** The options object given to [createEmitter]. *)
Record Options := mkOptions {
  opt_position : option Vec3.t;
  opt_rate : option float;
  opt_lifetime : option float;
  opt_velocity : option Vec3.t;
  opt_velocityVariance : option Vec3.t;
  opt_color : option float;
  opt_size : option float;
  opt_sizeEnd : option float;
  opt_alpha : option float;
  opt_alphaEnd : option float;
  opt_maxParticles : option float
}.

(** [maxParticles] is whatever number the options gave, or 1000;
    [system] is the position attribute of the THREE.Points object
    (present for emitters created in 3D mode), as the list of numbers it
    is built from. *)
Record Emitter := mkEmitter {
  position : Vec3.t;
  rate : float;
  lifetime : float;
  velocity : Vec3.t;
  velocityVariance : Vec3.t;
  color : float;
  size : float;
  sizeEnd : float;
  alpha : float;
  alphaEnd : float;
  particles : list Particle.t;
  timer : float;
  maxParticles : float;
  enabled : bool;
  system : option (list float)
}.

Definition with_particles (ps : list Particle.t) (timer : float) (e : Emitter) : Emitter :=
  mkEmitter (position e) (rate e) (lifetime e) (velocity e) (velocityVariance e)
    (color e) (size e) (sizeEnd e) (alpha e) (alphaEnd e) ps timer
    (maxParticles e) (enabled e) (system e).

Definition with_system (buffer : option (list float)) (e : Emitter) : Emitter :=
  mkEmitter (position e) (rate e) (lifetime e) (velocity e) (velocityVariance e)
    (color e) (size e) (sizeEnd e) (alpha e) (alphaEnd e) (particles e) (timer e)
    (maxParticles e) (enabled e) buffer.

Definition createEmitter (mode : Mode) (options : Options) : Emitter :=
  mkEmitter
    (default Vec3.zero (opt_position options))
    (JS.or_undef (opt_rate options) 10)
    (JS.or_undef (opt_lifetime options) 2)
    (default (Vec3.mk 0 1 0) (opt_velocity options))
    (default (Vec3.mk 0.5 0.5 0.5) (opt_velocityVariance options))
    (JS.or_undef (opt_color options) 16777215)
    (JS.or_undef (opt_size options) 0.1)
    (JS.or_undef (opt_sizeEnd options) 0)
    (JS.or_undef (opt_alpha options) 1)
    (JS.or_undef (opt_alphaEnd options) 0)
    []
    0
    (JS.or_undef (opt_maxParticles options) 1000)
    true
    (match mode with Mode3D => Some [] | Mode2D => None end).

Section Update.
(** [Math.random()]: the [k]-th value drawn since the start. *)
Variable random : nat -> float.
Variable mode : Mode.

(** The particle pushed by one round of the spawn loop; [k] counts the
    random draws made so far. *)
Definition newParticle (k : nat) (e : Emitter) : Particle.t :=
  Particle.mk
    (Vec3.mk (Vec3.x (position e)) (Vec3.y (position e)) (Vec3.z (position e)))
    (Vec3.mk
       (Vec3.x (velocity e) + (random k - 0.5) * Vec3.x (velocityVariance e) * 2)
       (Vec3.y (velocity e) + (random (k + 1) - 0.5) * Vec3.y (velocityVariance e) * 2)
       (Vec3.z (velocity e) + (random (k + 2) - 0.5) * Vec3.z (velocityVariance e) * 2))
    (lifetime e)
    (lifetime e).

(** The condition of the [while] loop. *)
Definition spawning (e : Emitter) : bool :=
  (1 / rate e <? timer e) && JS.length_ltb (length (particles e)) (maxParticles e).

(** The [while] loop, run for at most [fuel] rounds. *)
Fixpoint spawnLoop (fuel : nat) (k : nat) (e : Emitter) : Emitter * nat :=
  match fuel with
  | O => (e, k)
  | S fuel' =>
      if spawning e then
        spawnLoop fuel' (k + 3)
          (with_particles (particles e ++ [newParticle k e]) (timer e - 1 / rate e) e)
      else (e, k)
  end.

(** Every round adds a particle, and the loop stops once
    [particles.length < maxParticles] is false: it makes at most this
    many rounds.  (The pool is an array: where [maxParticles] lets it grow
    beyond the largest array length, the [push] of the code throws a
    [RangeError]; the model stops there.) *)
Definition spawnFuel (e : Emitter) : nat :=
  JS.lengthsBelow (maxParticles e) - length (particles e).

Definition spawn (k : nat) (e : Emitter) : Emitter * nat := spawnLoop (spawnFuel e) k e.

(** The callback of [emitter.particles.filter]: [None] when it returns
    false, else the particle as it has been updated in place. *)
Definition age (dt : float) (particle : Particle.t) : option Particle.t :=
  let life := Particle.life particle - dt in
  if life <=? 0 then None
  else
    let p := Particle.position particle in
    let v := Particle.velocity particle in
    Some (Particle.mk
            (Vec3.mk (Vec3.x p + Vec3.x v * dt) (Vec3.y p + Vec3.y v * dt) (Vec3.z p + Vec3.z v * dt))
            v life (Particle.maxLife particle)).

Definition particleSize (e : Emitter) (particle : Particle.t) : float :=
  let t := 1 - Particle.life particle / Particle.maxLife particle in
  size e + (sizeEnd e - size e) * t.

Definition positions (ps : list Particle.t) : list float :=
  flat_map (fun p => [Vec3.x (Particle.position p); Vec3.y (Particle.position p);
                      Vec3.z (Particle.position p)]) ps.

Definition sizes (e : Emitter) (ps : list Particle.t) : list float :=
  map (particleSize e) ps.

(** The callback of [this.emitters.forEach]. *)
Definition updateEmitter (dt : float) (k : nat) (e : Emitter) : Emitter * nat :=
  if negb (enabled e) then (e, k)
  else
    let '(e1, k1) := spawn k (with_particles (particles e) (timer e + dt) e) in
    let alive := omap (age dt) (particles e1) in
    let e2 := with_particles alive (timer e1) e1 in
    let e3 :=
      match mode, system e2 with
      | Mode3D, Some _ => with_system (Some (positions alive)) e2
      | _, _ => e2
      end in
    (e3, k1).

Fixpoint update (dt : float) (k : nat) (emitters : list Emitter) : list Emitter * nat :=
  match emitters with
  | [] => ([], k)
  | e :: rest =>
      let '(e', k1) := updateEmitter dt k e in
      let '(rest', k2) := update dt k1 rest in
      (e' :: rest', k2)
  end.

End Update.

End ParticleSystem.

(** ** TweenSystem *)

Module TweenSystem.

(** The target objects, by reference: each is a bag of numeric
    properties.  Reading a property the object lacks gives [undefined],
    which the tween code only uses as an arithmetic operand. *)
Definition Targets := loc -> gmap string float.

Definition prop (o : gmap string float) (key : string) : float :=
  default JS.undefined_num (o !! key).

Definition target_set (l : loc) (key : string) (v : float) (ts : Targets) : Targets :=
  fun l' => if Nat.eqb l' l then <[key := v]> (ts l') else ts l'.

(** Easing functions *)
Definition easeLinear (t : float) : float := t.
Definition easeInQuad (t : float) : float := t * t.
Definition easeOutQuad (t : float) : float := t * (2 - t).
Definition easeInOutQuad (t : float) : float :=
  if t <? 0.5 then 2 * t * t else -1 + (4 - 2 * t) * t.
Definition easeInCubic (t : float) : float := t * t * t.
Definition easeOutCubic (t : float) : float :=
  let t' := t - 1 in t' * t' * t' + 1.
Definition easeInOutCubic (t : float) : float :=
  if t <? 0.5 then 4 * t * t * t else (t - 1) * (2 * t - 2) * (2 * t - 2) + 1.

(** The options object given to [to]. *)
Record Options := mkOptions {
  opt_easing : option (float -> float);
  opt_onUpdate : option nat;
  opt_onComplete : option nat;
  opt_delay : option float
}.

Definition noOptions : Options := mkOptions None None None None.

(** [endValues] lists the properties of [props] in [Object.keys]
    order. *)
Record Tween := mkTween {
  target : loc;
  startValues : gmap string float;
  endValues : list (string * float);
  duration : float;
  elapsed : float;
  easing : float -> float;
  onUpdate : option nat;
  onComplete : option nat;
  delay : float;
  active : bool
}.

Definition with_time (elapsed delay : float) (tw : Tween) : Tween :=
  mkTween (target tw) (startValues tw) (endValues tw) (duration tw) elapsed
    (easing tw) (onUpdate tw) (onComplete tw) delay (active tw).

(** A call of a tween callback, with the arguments it received. *)
Inductive Call :=
| OnUpdate (f : nat) (target : loc) (easedT : float)
| OnComplete (f : nat) (target : loc).

(** [tweens] is [this.tweens]; [calls] records the callback calls in
    order. *)
Record t := mk {
  tweens : list Tween;
  targets : Targets;
  calls : list Call
}.

Definition makeTween (ts : Targets) (target : loc) (props : list (string * float))
  (duration : float) (options : Options) : Tween :=
  mkTween target
    (fold_left (fun m kv => <[fst kv := prop (ts target) (fst kv)]> m) props ∅)
    props
    duration
    0
    (default easeLinear (opt_easing options))
    (opt_onUpdate options)
    (opt_onComplete options)
    (JS.or_undef (opt_delay options) 0)
    true.

Definition to (target : loc) (props : list (string * float)) (duration : float)
  (options : Options) (s : t) : t :=
  mk (tweens s ++ [makeTween (targets s) target props duration options]) (targets s) (calls s).

(** The [Object.keys(tween.endValues).forEach] loop. *)
Definition applyValues (tw : Tween) (easedT : float) (ts : Targets) : Targets :=
  fold_left
    (fun ts' kv =>
       let start := prop (startValues tw) (fst kv) in
       let end_ := snd kv in
       target_set (target tw) (fst kv) (start + (end_ - start) * easedT) ts')
    (endValues tw) ts.

Definition call_opt (f : option nat) (c : nat -> Call) (calls : list Call) : list Call :=
  match f with
  | Some g => calls ++ [c g]
  | None => calls
  end.

(** The callback of [this.tweens.filter]: [None] when it returns false,
    else the tween as it has been updated in place. *)
Definition step (dt : float) (tw : Tween) (st : Targets * list Call)
  : option Tween * (Targets * list Call) :=
  if negb (active tw) then (None, st)
  else if 0 <? delay tw then (Some (with_time (elapsed tw) (delay tw - dt) tw), st)
  else
    let elapsed' := elapsed tw + dt in
    let t := JS.Math_min (elapsed' / duration tw) 1 in
    let easedT := easing tw t in
    let ts := applyValues tw easedT (fst st) in
    let calls1 := call_opt (onUpdate tw) (fun f => OnUpdate f (target tw) easedT) (snd st) in
    let tw' := with_time elapsed' (delay tw) tw in
    if 1 <=? t then
      (None, (ts, call_opt (onComplete tw) (fun f => OnComplete f (target tw)) calls1))
    else (Some tw', (ts, calls1)).

Fixpoint filterStep (dt : float) (tws : list Tween) (st : Targets * list Call)
  : list Tween * (Targets * list Call) :=
  match tws with
  | [] => ([], st)
  | tw :: rest =>
      let '(kept, st1) := step dt tw st in
      let '(rest', st2) := filterStep dt rest st1 in
      (match kept with Some tw' => tw' :: rest' | None => rest' end, st2)
  end.

Definition update (dt : float) (s : t) : t :=
  let '(tws, (ts, cs)) := filterStep dt (tweens s) (targets s, calls s) in
  mk tws ts cs.

(** The completion calls among [cs]. *)
Definition completions (cs : list Call) : list (nat * loc) :=
  omap (fun c => match c with OnComplete f l => Some (f, l) | _ => None end) cs.

End TweenSystem.

(** ** The engine: entity registry, systems, hooks and the frame loop *)

(** A user system object [{ enabled?, init?, update?, destroy? }];
    [enabled] is absent until [system.add] sets its default. *)
Module System.
Record t := mk {
  enabled : option bool;
  init : option nat;
  update : option nat;
  destroy : option nat
}.
End System.

Module Cubie.

Record Hooks := mkHooks {
  preUpdate : list nat;
  postUpdate : list nat;
  preRender : list nat;
  postRender : list nat
}.

(** [entities] and [systems] are the two [Map]s; [store] holds the
    entity objects and [next] is the next fresh reference; [scene] lists
    the entities whose mesh is a child of the THREE scene; [layers] are
    the 2D layers. *)
Record t := mk {
  mode : Mode;
  isRunning : bool;
  isPaused : bool;
  time : float;
  deltaTime : float;
  frameCount : nat;
  entities : list (string * loc);
  systems : list (string * System.t);
  layers : gmap string (list loc);
  scene : list loc;
  hooks : Hooks;
  store : Store;
  next : loc;
  events : EventEmitter.t Payload
}.

Definition with_clock (time deltaTime : float) (frameCount : nat) (c : t) : t :=
  mk (mode c) (isRunning c) (isPaused c) time deltaTime frameCount (entities c)
     (systems c) (layers c) (scene c) (hooks c) (store c) (next c) (events c).

Definition with_registry (entities : list (string * loc)) (layers : gmap string (list loc))
  (scene : list loc) (store : Store) (next : loc) (events : EventEmitter.t Payload)
  (c : t) : t :=
  mk (mode c) (isRunning c) (isPaused c) (time c) (deltaTime c) (frameCount c) entities
     (systems c) layers scene (hooks c) store next events.

Definition with_systems (systems : list (string * System.t)) (c : t) : t :=
  mk (mode c) (isRunning c) (isPaused c) (time c) (deltaTime c) (frameCount c) (entities c)
     systems (layers c) (scene c) (hooks c) (store c) (next c) (events c).

Definition with_hooks (hooks : Hooks) (c : t) : t :=
  mk (mode c) (isRunning c) (isPaused c) (time c) (deltaTime c) (frameCount c) (entities c)
     (systems c) (layers c) (scene c) hooks (store c) (next c) (events c).

(** The engine as its constructor leaves it: nothing registered, the
    four 2D layers present in 2D mode. *)
Definition new (mode : Mode) : t :=
  mk mode false false 0 0 0%nat [] []
     (match mode with
      | Mode3D => ∅
      | Mode2D =>
          <["ui"%string := []]>
            (<["foreground"%string := []]>
               (<["main"%string := []]> (<["background"%string := []]> ∅)))
      end)
     []
     (mkHooks [] [] [] [])
     (fun _ => Entity.new EmptyString Entity.emptyConfig)
     0%nat
     EventEmitter.new.

(** How a call ends: by returning a value or by throwing. *)
Inductive Completion (A : Type) :=
| Returned (value : A)
| Thrown (error : string).
Arguments Returned {A} value.
Arguments Thrown {A} error.

(** *** [cubie.entity] *)
Module entity.

Section Registry.
Variable body : nat -> list EventEmitter.Action.

(** [config.layer || 'main'] *)
Definition layerOf (config : Entity.Config) : string :=
  match Entity.cfg_layer config with
  | Some EmptyString => "main"%string
  | Some layer => layer
  | None => "main"%string
  end.

Definition create (name : string) (config : Entity.Config) (c : t)
  : Completion loc * t :=
  let l := next c in
  let entity := Entity.new name config in
  let store1 := store_set l entity (store c) in
  let entities1 := JSMap.set name l (entities c) in
  let '(scene1, layers1) :=
    match mode c, Entity.mesh entity with
    | Mode3D, Some _ => (scene c ++ [l], layers c)
    | Mode3D, None => (scene c, layers c)
    | Mode2D, _ =>
        let layer := layerOf config in
        let layers0 :=
          match layers c !! layer with
          | None => <[layer := []]> (layers c)
          | Some _ => layers c
          end in
        (scene c, <[layer := default [] (layers0 !! layer) ++ [l]]> layers0)
    end in
  let events1 := EventEmitter.emit body "entity:create" (EntityData l) (events c) in
  (Returned l, with_registry entities1 layers1 scene1 store1 (S l) events1 c).

Definition get (name : string) (c : t) : option loc := JSMap.get name (entities c).

Definition removeFirst (l : loc) (a : list loc) : list loc :=
  match JS.indexOf l a with
  | Some index => JS.splice1 index a
  | None => a
  end.

Definition remove (name : string) (c : t) : t :=
  match JSMap.get name (entities c) with
  | None => c
  | Some l =>
      let '(scene1, layers1) :=
        match mode c, Entity.mesh (store c l) with
        | Mode3D, Some _ => (removeFirst l (scene c), layers c)
        | Mode3D, None => (scene c, layers c)
        | Mode2D, _ => (scene c, removeFirst l <$> layers c)
        end in
      let entities1 := JSMap.delete name (entities c) in
      let events1 := EventEmitter.emit body "entity:remove" (EntityData l) (events c) in
      with_registry entities1 layers1 scene1 (store c) (next c) events1 c
  end.

End Registry.

End entity.

(** *** [cubie.hook] *)
Module hook.

Definition preUpdate (fn : nat) (c : t) : t :=
  let h := hooks c in
  with_hooks (mkHooks (Cubie.preUpdate h ++ [fn]) (Cubie.postUpdate h)
                      (Cubie.preRender h) (Cubie.postRender h)) c.

Definition postUpdate (fn : nat) (c : t) : t :=
  let h := hooks c in
  with_hooks (mkHooks (Cubie.preUpdate h) (Cubie.postUpdate h ++ [fn])
                      (Cubie.preRender h) (Cubie.postRender h)) c.

Definition preRender (fn : nat) (c : t) : t :=
  let h := hooks c in
  with_hooks (mkHooks (Cubie.preUpdate h) (Cubie.postUpdate h)
                      (Cubie.preRender h ++ [fn]) (Cubie.postRender h)) c.

Definition postRender (fn : nat) (c : t) : t :=
  let h := hooks c in
  with_hooks (mkHooks (Cubie.preUpdate h) (Cubie.postUpdate h)
                      (Cubie.preRender h) (Cubie.postRender h ++ [fn])) c.

End hook.

(** *** [cubie.system]: [get], [enable], [disable] *)
Module system.

Definition get (name : string) (c : t) : option System.t :=
  JSMap.get name (systems c).

(** [system.enabled = b] on the object stored under [name]. *)
Definition setEnabled (b : bool) (name : string) (c : t) : t :=
  match JSMap.get name (systems c) with
  | Some system =>
      with_systems
        (JSMap.set name
           (System.mk (Some b) (System.init system) (System.update system)
              (System.destroy system))
           (systems c)) c
  | None => c
  end.

Definition enable (name : string) (c : t) : t := setEnabled true name c.
Definition disable (name : string) (c : t) : t := setEnabled false name c.

End system.

(** *** [stop], [pause], [resume]

    Each one sets its flag and emits its event; the line it writes to
    the logger is left out. *)

Definition with_running (isRunning isPaused : bool) (events : EventEmitter.t Payload)
  (c : t) : t :=
  mk (mode c) isRunning isPaused (time c) (deltaTime c) (frameCount c) (entities c)
     (systems c) (layers c) (scene c) (hooks c) (store c) (next c) events.

Section Lifecycle.
Variable body : nat -> list EventEmitter.Action.




End Lifecycle.

(** *** [cubie.utils] *)
Module utils.

Definition lerp (a b t : float) : float := a + (b - a) * t.

Definition clamp (value min max : float) : float :=
  JS.Math_max min (JS.Math_min max value).

Definition map (value inMin inMax outMin outMax : float) : float :=
  (value - inMin) * (outMax - outMin) / (inMax - inMin) + outMin.

End utils.

(** *** The frame *)

(** The calls the frame loop and [system.add] make, with their
    arguments.  A function value is named by its number; [SystemUpdate]
    also carries the key of the system in the [Map], [ScriptUpdate] the
    entity passed to the script.  [LoggerDebug] is
    [this.logger.debug(message)], which runs every [onLog] callback. *)
Inductive Call :=
| LoggerDebug (message : string)
| RequestAnimationFrame
| PreUpdateHook (fn : nat) (dt : float)
| InputUpdate (dt : float)
| PhysicsUpdate (dt : float)
| ParticlesUpdate (dt : float)
| TweensUpdate (dt : float)
| SystemInit (name : string) (fn : nat)
| SystemUpdate (name : string) (fn : nat) (dt : float)
| ScriptUpdate (fn : nat) (dt : float) (entity : loc)
| PostUpdateHook (fn : nat) (dt : float)
| PreRenderHook (fn : nat)
| Render
| PostRenderHook (fn : nat)
| PerformanceUpdate.

Section Frame.
(** The frame of called code that acts on the world only: the
    subsystems' own state and the state of the game.  Such code does
    not register or remove hooks, systems, entities or scripts while the
    frame runs, and does not throw; [Live] below is the frame without
    these restrictions, and [LiveAgreement.loop_agrees] relates the
    two. *)
Variable World : Type.
Variable effect : Call -> World -> World.

Record Frame := mkFrame {
  engine : t;
  world : World;
  trace : list Call
}.

Definition perform (call : Call) (fr : Frame) : Frame :=
  mkFrame (engine fr) (effect call (world fr)) (trace fr ++ [call]).

Definition forEach {A} (f : A -> Frame -> Frame) (a : list A) (fr : Frame) : Frame :=
  fold_left (fun fr' v => f v fr') a fr.

(** [Entity.update(dt)] on the entity at [l] *)
Definition Entity_update (dt : float) (l : loc) (fr : Frame) : Frame :=
  forEach
    (fun script fr' =>
       match Script.update script with
       | Some fn => perform (ScriptUpdate fn dt l) fr'
       | None => fr'
       end)
    (Entity.scripts (store (engine fr) l)) fr.

(** [Cubie.update(dt)] *)
Definition update (dt : float) (fr : Frame) : Frame :=
  let fr := perform (InputUpdate dt) fr in
  let fr := perform (PhysicsUpdate dt) fr in
  let fr := perform (ParticlesUpdate dt) fr in
  let fr := perform (TweensUpdate dt) fr in
  let fr :=
    forEach
      (fun (entry : string * System.t) fr' =>
         match System.enabled (snd entry), System.update (snd entry) with
         | Some true, Some fn => perform (SystemUpdate (fst entry) fn dt) fr'
         | _, _ => fr'
         end)
      (systems (engine fr)) fr in
  forEach
    (fun (entry : string * loc) fr' =>
       if Entity.enabled (store (engine fr') (snd entry))
       then Entity_update dt (snd entry) fr'
       else fr')
    (entities (engine fr)) fr.

(** [Cubie.loop()]; [delta] is the value [this.clock.getDelta()]
    returns in this frame. *)
Definition loop (delta : float) (fr : Frame) : Frame :=
  if negb (isRunning (engine fr)) then fr
  else
    let fr := perform RequestAnimationFrame fr in
    if isPaused (engine fr) then fr
    else
      let c := engine fr in
      let fr := mkFrame (with_clock (time c + delta) delta (S (frameCount c)) c)
                        (world fr) (trace fr) in
      let dt := deltaTime (engine fr) in
      let fr := forEach (fun fn => perform (PreUpdateHook fn dt)) (preUpdate (hooks (engine fr))) fr in
      let fr := update dt fr in
      let fr := forEach (fun fn => perform (PostUpdateHook fn dt)) (postUpdate (hooks (engine fr))) fr in
      let fr := forEach (fun fn => perform (PreRenderHook fn)) (preRender (hooks (engine fr))) fr in
      let fr := perform Render fr in
      let fr := forEach (fun fn => perform (PostRenderHook fn)) (postRender (hooks (engine fr))) fr in
      perform PerformanceUpdate fr.

End Frame.

(** [Cubie.start()]; [delta] is what the clock returns in the frame that
    [start] runs at once.  The line written to the logger is left out. *)
Section Start.
Variable World : Type.
Variable effect : Call -> World -> World.
Variable body : nat -> list EventEmitter.Action.

Definition start (delta : float) (fr : Frame World) : Frame World :=
  if isRunning (engine World fr) then fr
  else
    let c := engine World fr in
    let fr1 := mkFrame World (with_running true false (events c) c)
                 (world World fr) (trace World fr) in
    let fr2 := loop World effect delta fr1 in
    let c2 := engine World fr2 in
    mkFrame World
      (with_running (isRunning c2) (isPaused c2)
         (EventEmitter.emit body "start" NoData (events c2)) c2)
      (world World fr2) (trace World fr2).

End Start.

End Cubie.

(** ** The frame with called code that acts on the engine

    [Cubie.loop] above is the frame of called code that acts on the
    world only.  Here a call may also change what the engine holds
    while the frame runs: add, replace or delete entries of the two
    [Map]s, change a system or entity object (enable, disable, edit
    the scripts array in place), edit the hook arrays in place, stop or
    pause the engine; and a call may throw.  The iterations are the
    ones of the language: [Map.prototype.forEach] walks the entry list
    of the [Map] by index, as the list is at each moment, and
    [Array.prototype.forEach] reads the length once and then each index
    below it, as the array is at that moment.

    Called code does not assign [time], [deltaTime] or [frameCount],
    does not replace a [Map] or an array by another object, and does not
    call [loop] itself. *)

Module Live.
Import Cubie.

(** The entry list of a [Map], in insertion order.  [delete] leaves an
    empty entry behind; [set] writes the value of the entry that has the
    key, or appends a new entry. *)
Definition MapData (V : Type) := list (option (string * V)).

Section MapData.
Context {V : Type}.

Definition holds (key : string) (entry : option (string * V)) : bool :=
  match entry with
  | Some (key', _) => bool_decide (key' = key)
  | None => false
  end.

Fixpoint mapFind (key : string) (m : MapData V) : option nat :=
  match m with
  | [] => None
  | entry :: m' => if holds key entry then Some 0%nat else S <$> mapFind key m'
  end.

Definition mapGet (key : string) (m : MapData V) : option V :=
  match mapFind key m with
  | Some index => match m !! index with Some (Some (_, v)) => Some v | _ => None end
  | None => None
  end.

Definition mapSet (key : string) (v : V) (m : MapData V) : MapData V :=
  match mapFind key m with
  | Some index => <[index := Some (key, v)]> m
  | None => m ++ [Some (key, v)]
  end.

Definition mapDelete (key : string) (m : MapData V) : MapData V :=
  match mapFind key m with
  | Some index => <[index := None]> m
  | None => m
  end.

(** The entries a new iteration finds, as [JSMap] has them. *)
Definition mapEntries (m : MapData V) : list (string * V) := omap id m.

End MapData.

(** What called code can change.  [systems] and [entities] hold
    references: [objects] are the system objects and [store] the entity
    objects. *)
Record Registry := mkRegistry {
  systems : MapData loc;
  objects : loc -> System.t;
  entities : MapData loc;
  store : Store;
  hooks : Hooks;
  isRunning : bool;
  isPaused : bool
}.

Record Clock := mkClock {
  time : float;
  deltaTime : float;
  frameCount : nat
}.

(** Where in the frame a call is made: the statement of [loop] or
    [update], and for an iteration the index of the [Map] entry or of
    the array element. *)
Inductive Point :=
| Schedule
| PreUpdateAt (k : nat)
| InputStep
| PhysicsStep
| ParticlesStep
| TweensStep
| SystemAt (index : nat)
| ScriptAt (index k : nat)
| PostUpdateAt (k : nat)
| PreRenderAt (k : nat)
| RenderStep
| PostRenderAt (k : nat)
| PerformanceStep
| Outside.

Inductive Status :=
| Running
| Threw
| OutOfFuel.

Section Frame.
Variable World : Type.

(** How a call ends: what it leaves, and whether it threw. *)
Record Outcome := mkOutcome {
  out_registry : Registry;
  out_world : World;
  thrown : bool
}.

(** The called code. *)
Variable run : Call -> Registry -> World -> Outcome.

(** [trace] records each call with the point at which it is made.
    [status] is [Threw] once a call has thrown: the exception leaves
    [loop], nothing more of the frame runs. *)
Record Frame := mkFrame {
  reg : Registry;
  clock : Clock;
  world : World;
  trace : list (Point * Call);
  status : Status
}.

Definition perform (point : Point) (call : Call) (fr : Frame) : Frame :=
  match status fr with
  | Running =>
      let o := run call (reg fr) (world fr) in
      mkFrame (out_registry o) (clock fr) (out_world o) (trace fr ++ [(point, call)])
              (if thrown o then Threw else Running)
  | _ => fr
  end.

(** [array.forEach(callback)]: [len] is the length read at the start,
    [k] the index. *)
Fixpoint arrayForEach {A} (array : Registry -> list A) (callback : nat -> A -> Frame -> Frame)
  (len k : nat) (fr : Frame) : Frame :=
  match len with
  | O => fr
  | S len' =>
      let fr' :=
        match status fr with
        | Running =>
            match array (reg fr) !! k with
            | Some v => callback k v fr
            | None => fr
            end
        | _ => fr
        end in
      arrayForEach array callback len' (S k) fr'
  end.

(** [map.forEach(callback)]: while [index] is below the number of
    entries, as it is now, the entry is visited if it is not empty.
    [fuel] bounds the number of entries visited. *)
Fixpoint mapForEach {V} (map : Registry -> MapData V)
  (callback : nat -> string -> V -> Frame -> Frame) (fuel index : nat) (fr : Frame) : Frame :=
  match status fr with
  | Running =>
      match map (reg fr) !! index with
      | None => fr
      | Some entry =>
          match fuel with
          | O => mkFrame (reg fr) (clock fr) (world fr) (trace fr) OutOfFuel
          | S fuel' =>
              let fr' :=
                match entry with
                | Some (key, v) => callback index key v fr
                | None => fr
                end in
              mapForEach map callback fuel' (S index) fr'
          end
      end
  | _ => fr
  end.

(** [Entity.update(dt)] on the entity at [l], found at [index] of the
    [Map]. *)
Definition Entity_update (dt : float) (index : nat) (l : loc) (fr : Frame) : Frame :=
  arrayForEach (fun r => Entity.scripts (store r l))
    (fun k script fr' =>
       match Script.update script with
       | Some fn => perform (ScriptAt index k) (ScriptUpdate fn dt l) fr'
       | None => fr'
       end)
    (length (Entity.scripts (store (reg fr) l))) 0 fr.

(** [Cubie.update(dt)] *)
Definition update (fuel : nat) (dt : float) (fr : Frame) : Frame :=
  let fr := perform InputStep (InputUpdate dt) fr in
  let fr := perform PhysicsStep (PhysicsUpdate dt) fr in
  let fr := perform ParticlesStep (ParticlesUpdate dt) fr in
  let fr := perform TweensStep (TweensUpdate dt) fr in
  let fr :=
    mapForEach systems
      (fun index name l fr' =>
         let system := objects (reg fr') l in
         match System.enabled system, System.update system with
         | Some true, Some fn => perform (SystemAt index) (SystemUpdate name fn dt) fr'
         | _, _ => fr'
         end)
      fuel 0 fr in
  mapForEach entities
    (fun index name l fr' =>
       if Entity.enabled (store (reg fr') l) then Entity_update dt index l fr' else fr')
    fuel 0 fr.

(** The three assignments of "Calculate delta time". *)
Definition tick (delta : float) (fr : Frame) : Frame :=
  match status fr with
  | Running =>
      let c := clock fr in
      mkFrame (reg fr) (mkClock (time c + delta) delta (S (frameCount c))) (world fr)
              (trace fr) Running
  | _ => fr
  end.

(** [Cubie.loop()]; [delta] is the value [this.clock.getDelta()]
    returns in this frame.  Each hook is given [this.deltaTime] as it is
    when the hook is called. *)
Definition loop (fuel : nat) (delta : float) (fr : Frame) : Frame :=
  if negb (isRunning (reg fr)) then fr
  else
    let fr := perform Schedule RequestAnimationFrame fr in
    if isPaused (reg fr) then fr
    else
      let fr := tick delta fr in
      let fr :=
        arrayForEach (fun r => preUpdate (hooks r))
          (fun k fn fr' => perform (PreUpdateAt k) (PreUpdateHook fn (deltaTime (clock fr'))) fr')
          (length (preUpdate (hooks (reg fr)))) 0 fr in
      let fr := update fuel (deltaTime (clock fr)) fr in
      let fr :=
        arrayForEach (fun r => postUpdate (hooks r))
          (fun k fn fr' => perform (PostUpdateAt k) (PostUpdateHook fn (deltaTime (clock fr'))) fr')
          (length (postUpdate (hooks (reg fr)))) 0 fr in
      let fr :=
        arrayForEach (fun r => preRender (hooks r))
          (fun k fn fr' => perform (PreRenderAt k) (PreRenderHook fn) fr')
          (length (preRender (hooks (reg fr)))) 0 fr in
      let fr := perform RenderStep Render fr in
      let fr :=
        arrayForEach (fun r => postRender (hooks r))
          (fun k fn fr' => perform (PostRenderAt k) (PostRenderHook fn) fr')
          (length (postRender (hooks (reg fr)))) 0 fr in
      perform PerformanceStep PerformanceUpdate fr.

Definition with_objects (systems : MapData loc) (objects : loc -> System.t) (r : Registry)
  : Registry :=
  mkRegistry systems objects (entities r) (store r) (hooks r) (isRunning r) (isPaused r).

Definition with_reg (r : Registry) (fr : Frame) : Frame :=
  mkFrame r (clock fr) (world fr) (trace fr) (status fr).

(** [cubie.system.add(name, system)] for the system object at [l]:
    the default of [enabled] is written into the object, the object is
    registered, the logger is told, and the [init] that the object has
    then is called. *)
Definition system_add (name : string) (l : loc) (fr : Frame) : Frame :=
  match status fr with
  | Running =>
      let r := reg fr in
      let system := objects r l in
      let system' := System.mk (Some (default true (System.enabled system)))
                               (System.init system) (System.update system)
                               (System.destroy system) in
      let objects' := fun l' => if Nat.eqb l' l then system' else objects r l' in
      let fr := with_reg (with_objects (mapSet name l (systems r)) objects' r) fr in
      let fr := perform Outside (LoggerDebug ("System added: " ++ name)) fr in
      match System.init (objects (reg fr) l) with
      | Some fn => perform Outside (SystemInit name fn) fr
      | None => fr
      end
  | _ => fr
  end.

(** [cubie.system.disable(name)] *)
Definition system_disable (name : string) (r : Registry) : Registry :=
  match mapGet name (systems r) with
  | Some l =>
      let system := objects r l in
      let system' := System.mk (Some false) (System.init system) (System.update system)
                               (System.destroy system) in
      with_objects (systems r) (fun l' => if Nat.eqb l' l then system' else objects r l') r
  | None => r
  end.

End Frame.

End Live.

(** ** Logger *)

Module Logger.

Section Log.
(** The type of the [data] argument. *)
Context {Data : Type}.

Record Entry := mkEntry {
  level : string;
  message : string;
  data : option Data;
  timestamp : string;
  frame : nat
}.

(** [logs] is the bounded list of entries, oldest first; [callbacks]
    are the functions given to [onLog]; [calls] records, in order, each
    call of such a function with the entry it received.  The callbacks
    themselves do not call the logger.  What the console prints is
    left out; whether its call returns is [consoleThrows]. *)
Record t := mk {
  logs : list Entry;
  maxLogs : nat;
  logLevel : string;
  callbacks : list nat;
  calls : list (nat * Entry)
}.

Definition new : t := mk [] 100 "debug" [] [].

(** [this.levels[level]]: absent for any other string. *)
Definition levels (level : string) : option nat :=
  if decide (level = "debug"%string) then Some 0%nat
  else if decide (level = "info"%string) then Some 1%nat
  else if decide (level = "warn"%string) then Some 2%nat
  else if decide (level = "error"%string) then Some 3%nat
  else None.

(** [this.levels[level] < this.levels[this.logLevel]]: false as soon
    as one side is [undefined]. *)
Definition belowLevel (level logLevel : string) : bool :=
  match levels level, levels logLevel with
  | Some a, Some b => (a <? b)%nat
  | _, _ => false
  end.

(** [(console[level] || console.log)(...)], called without a [this].
    [console] is an ordinary object: a name that is not one of its
    methods is looked up in [Object.prototype].  [__proto__] finds the
    prototype, an object, which is truthy and cannot be called; the
    other names listed find built-in functions that throw a TypeError
    when [this] is [undefined].  [constructor], [toString] and
    [isPrototypeOf] return, as do the methods of [console] and
    [console.log], which stands in for every other name. *)
Definition consoleThrows (level : string) : bool :=
  bool_decide
    (level ∈ [ "__proto__"; "hasOwnProperty"; "propertyIsEnumerable"; "toLocaleString";
               "valueOf"; "__defineGetter__"; "__defineSetter__";
               "__lookupGetter__"; "__lookupSetter__" ]%string).

(** The logger after [log(level, message, data)]; [now] is
    [new Date().toISOString()] and [frame] is [this.engine.frameCount]
    at the time of the call.  When the console call throws, the entry
    has been pushed and no callback is called. *)
Definition log (now : string) (frame : nat) (level message : string)
  (data : option Data) (l : t) : t :=
  if belowLevel level (logLevel l) then l
  else
    let entry := mkEntry level message data now frame in
    let pushed := logs l ++ [entry] in
    let logs' := if (maxLogs l <? length pushed)%nat then tail pushed else pushed in
    mk logs' (maxLogs l) (logLevel l) (callbacks l)
       (if consoleThrows level then calls l
        else calls l ++ List.map (fun cb => (cb, entry)) (callbacks l)).

(** Whether [log(level, message, data)] ends by throwing. *)
Definition log_throws (level : string) (l : t) : bool :=
  negb (belowLevel level (logLevel l)) && consoleThrows level.

Definition debug now frame message data l := log now frame "debug" message data l.
Definition info now frame message data l := log now frame "info" message data l.
Definition warn now frame message data l := log now frame "warn" message data l.
Definition error now frame message data l := log now frame "error" message data l.

Definition onLog (callback : nat) (l : t) : t :=
  mk (logs l) (maxLogs l) (logLevel l) (callbacks l ++ [callback]) (calls l).

Definition setLevel (level : string) (l : t) : t :=
  mk (logs l) (maxLogs l) level (callbacks l) (calls l).

(** [getLogs(level)]; [None] is a missing or otherwise falsy argument. *)
Definition getLogs (wanted : option string) (l : t) : list Entry :=
  match wanted with
  | None => logs l
  | Some EmptyString => logs l
  | Some lv => List.filter (fun e => bool_decide (level e = lv)) (logs l)
  end.

Definition clear (l : t) : t :=
  mk [] (maxLogs l) (logLevel l) (callbacks l) (calls l).

End Log.

Arguments Entry : clear implicits.
Arguments t : clear implicits.

End Logger.

(** ** InputSystem: keyboard, mouse buttons and gamepad *)

Module InputSystem.

Record Gamepad := mkGamepad {
  index : nat;
  axes : list float;
  buttons : list bool
}.

(** [keys], [keysPressed] and [keysReleased] are object literals with
    the booleans the listeners have assigned; the three button objects
    are indexed by the number of the button. *)
Record t := mk {
  keys : gmap string bool;
  keysPressed : gmap string bool;
  keysReleased : gmap string bool;
  mouse_buttons : gmap nat bool;
  mouse_pressed : gmap nat bool;
  mouse_released : gmap nat bool;
  gamepad : option Gamepad
}.

Definition new : t := mk ∅ ∅ ∅ ∅ ∅ ∅ None.

(** [o[k] || false] for a number [k]: a missing property reads as
    [undefined], which is falsy. *)
Definition truthy {K} `{Countable K} (o : gmap K bool) (k : K) : bool :=
  default false (o !! k).

(** The names an object literal inherits from [Object.prototype]. *)
Definition inherited (k : string) : bool :=
  bool_decide
    (k ∈ [ "constructor"; "hasOwnProperty"; "isPrototypeOf"; "propertyIsEnumerable";
           "toLocaleString"; "toString"; "valueOf"; "__proto__";
           "__defineGetter__"; "__defineSetter__";
           "__lookupGetter__"; "__lookupSetter__" ]%string).

(** Whether [o[k]] is truthy, for a string [k]: an own property answers
    with its boolean; a name of [Object.prototype] that is not an own
    property finds the inherited function, which is truthy;
    [__proto__] always finds the prototype itself. *)
Definition truthyKey (o : gmap string bool) (k : string) : bool :=
  if decide (k = "__proto__"%string) then true
  else match o !! k with
       | Some b => b
       | None => inherited k
       end.

(** [o[k] = b]: the assignment of a boolean to [__proto__] is ignored. *)
Definition assignKey (k : string) (b : bool) (o : gmap string bool) : gmap string bool :=
  if decide (k = "__proto__"%string) then o else <[k := b]> o.

Section Keys.
(** [String.prototype.toLowerCase] *)
Variable toLowerCase : string -> string.

(** The ['keydown'] listener, for an event whose [key] is [key]. *)
Definition keydown (key : string) (i : t) : t :=
  let k := toLowerCase key in
  let pressed :=
    if truthyKey (keys i) k then keysPressed i else assignKey k true (keysPressed i) in
  mk (assignKey k true (keys i)) pressed (keysReleased i)
     (mouse_buttons i) (mouse_pressed i) (mouse_released i) (gamepad i).

(** The ['keyup'] listener. *)
Definition keyup (key : string) (i : t) : t :=
  let k := toLowerCase key in
  mk (assignKey k false (keys i)) (keysPressed i) (assignKey k true (keysReleased i))
     (mouse_buttons i) (mouse_pressed i) (mouse_released i) (gamepad i).

(** The three queries, by the truthiness of what they return. *)
Definition isKeyDown (key : string) (i : t) : bool := truthyKey (keys i) (toLowerCase key).
Definition isKeyPressed (key : string) (i : t) : bool :=
  truthyKey (keysPressed i) (toLowerCase key).
Definition isKeyReleased (key : string) (i : t) : bool :=
  truthyKey (keysReleased i) (toLowerCase key).

End Keys.

(** The ['mousedown'] and ['mouseup'] listeners. *)
Definition mousedown (button : nat) (i : t) : t :=
  let pressed :=
    if truthy (mouse_buttons i) button then mouse_pressed i
    else <[button := true]> (mouse_pressed i) in
  mk (keys i) (keysPressed i) (keysReleased i)
     (<[button := true]> (mouse_buttons i)) pressed (mouse_released i) (gamepad i).

Definition mouseup (button : nat) (i : t) : t :=
  mk (keys i) (keysPressed i) (keysReleased i)
     (<[button := false]> (mouse_buttons i)) (mouse_pressed i)
     (<[button := true]> (mouse_released i)) (gamepad i).

Definition isMouseDown (button : nat) (i : t) : bool := truthy (mouse_buttons i) button.
Definition isMousePressed (button : nat) (i : t) : bool := truthy (mouse_pressed i) button.
Definition isMouseReleased (button : nat) (i : t) : bool := truthy (mouse_released i) button.

(** The ['gamepadconnected'] listener. *)
Definition gamepadconnected (g : Gamepad) (i : t) : t :=
  mk (keys i) (keysPressed i) (keysReleased i)
     (mouse_buttons i) (mouse_pressed i) (mouse_released i) (Some g).

(** [update(dt)]; [gamepads] is what [navigator.getGamepads()] returns,
    with [None] for an empty slot. *)
Definition update (gamepads : list (option Gamepad)) (i : t) : t :=
  mk (keys i) ∅ ∅ (mouse_buttons i) ∅ ∅
     (match gamepad i with
      | Some g => mjoin (gamepads !! index g)
      | None => None
      end).

(** [getAxis(index)] and [getButton(index)] *)
Definition getAxis (n : nat) (i : t) : float :=
  match gamepad i with
  | Some g => JS.or_undef (axes g !! n) 0
  | None => 0
  end.

Definition getButton (n : nat) (i : t) : bool :=
  match gamepad i with
  | Some g => default false (buttons g !! n)
  | None => false
  end.

End InputSystem.

(** ** AudioSystem: the three volumes *)

Module AudioSystem.

Record t := mk {
  masterVolume : float;
  soundVolume : float;
  musicVolume : float
}.

Definition new : t := mk 1 1 1.

Definition setMasterVolume (volume : float) (a : t) : t :=
  mk (JS.Math_max 0 (JS.Math_min 1 volume)) (soundVolume a) (musicVolume a).

Definition setSoundVolume (volume : float) (a : t) : t :=
  mk (masterVolume a) (JS.Math_max 0 (JS.Math_min 1 volume)) (musicVolume a).

Definition setMusicVolume (volume : float) (a : t) : t :=
  mk (masterVolume a) (soundVolume a) (JS.Math_max 0 (JS.Math_min 1 volume)).

End AudioSystem.

(** ** StorageSystem *)

Module StorageSystem.

Definition prefix : string := "cubiegame_".

(** [localStorage]: string keys, string values. *)
Definition Storage := gmap string string.

Section Json.
Context {Data : Type}.
(** [JSON.stringify]: it throws, or returns a string or [undefined];
    and [JSON.parse]. *)
Variable stringify : Data -> Cubie.Completion (option string).
Variable parse : string -> Cubie.Completion Data.
(** Whether the browser accepts the write of a value under a key; when
    it does not, [setItem] throws and the storage stays as it is. *)
Variable accepts : gmap string string -> string -> string -> bool.

(** [localStorage.setItem(k, v)] with [v] converted to a string. *)
Definition setItem (k : string) (v : option string) (ls : gmap string string)
  : Cubie.Completion (gmap string string) :=
  let text := default "undefined"%string v in
  if accepts ls k text then Cubie.Returned (<[k := text]> ls)
  else Cubie.Thrown "QuotaExceededError"%string.

(** [save(key, data)]: the boolean it returns and the storage after it.
    The line the [catch] block writes to the logger is left out. *)
Definition save (key : string) (data : Data) (ls : gmap string string)
  : bool * gmap string string :=
  match stringify data with
  | Cubie.Returned serialized =>
      match setItem (prefix ++ key) serialized ls with
      | Cubie.Returned ls' => (true, ls')
      | Cubie.Thrown _ => (false, ls)
      end
  | Cubie.Thrown _ => (false, ls)
  end.

(** [load(key)]: [None] is [null]. *)
Definition load (key : string) (ls : gmap string string) : option Data :=
  match ls !! (prefix ++ key)%string with
  | None => None
  | Some EmptyString => None
  | Some serialized =>
      match parse serialized with
      | Cubie.Returned value => Some value
      | Cubie.Thrown _ => None
      end
  end.

End Json.

Definition remove (key : string) (ls : gmap string string) : gmap string string :=
  delete (prefix ++ key)%string ls.

(** [Object.keys(localStorage).forEach(...)]: the keys are listed first,
    then each one that starts with the prefix is removed. *)
Definition clear (ls : gmap string string) : gmap string string :=
  fold_left
    (fun ls' key => if String.prefix prefix key then delete key ls' else ls')
    (map fst (map_to_list ls)) ls.

End StorageSystem.

(** * Properties *)

(** ** Array lengths compared with numbers *)

Module LengthFacts.
Import JS.

Lemma pow_pos (e : Z) : (0 < 2 ^ e \/ e < 0)%Z.
Proof. destruct (Z.neg_nonneg_cases e); [right; assumption | left; apply Z.pow_pos_nonneg; lia]. Qed.

Ltac cases x :=
  unfold length_ltb, length_leb, Number_isInteger;
  destruct (Prim2SF x) as [s | s | | s m e]; try destruct s; simpl negb; simpl andb;
  try discriminate; try reflexivity;
  try (destruct (0 <=? e)%Z eqn:He;
       [apply Z.leb_le in He | apply Z.leb_gt in He;
        assert (Hd : (0 < 2 ^ (- e))%Z) by (apply Z.pow_pos_nonneg; lia)]).

(** Below the number, then below or equal. *)
Lemma length_ltb_leb n x : length_ltb n x = true -> length_leb n x = true.
Proof.
  cases x; rewrite Z.ltb_lt, Z.leb_le; lia.
Qed.

Lemma length_ltb_mono n n' x :
  (n' <= n)%nat -> length_ltb n x = true -> length_ltb n' x = true.
Proof.
  intros Hn. cases x; rewrite !Z.ltb_lt; nia.
Qed.

Lemma length_leb_mono n n' x :
  (n' <= n)%nat -> length_leb n x = true -> length_leb n' x = true.
Proof.
  intros Hn. cases x.
  - rewrite !Nat.eqb_eq. lia.
  - rewrite !Nat.eqb_eq. lia.
  - rewrite !Z.leb_le. nia.
  - rewrite !Z.leb_le. nia.
Qed.

Lemma length_leb_ltb n x : length_leb (S n) x = true -> length_ltb n x = true.
Proof.
  cases x; rewrite Z.ltb_lt, Z.leb_le; nia.
Qed.

(** For a whole number [x], [n < x] is [n + 1 <= x]. *)
Lemma length_ltb_integer n x :
  Number_isInteger x = true -> length_ltb n x = true -> length_leb (S n) x = true.
Proof.
  unfold Number_isInteger, length_ltb, length_leb.
  destruct (Prim2SF x) as [s | s | | s m e]; try discriminate.
  destruct s; simpl negb; simpl andb; try discriminate.
  destruct (0 <=? e)%Z eqn:He; simpl orb.
  - intros _. rewrite Z.ltb_lt, Z.leb_le. lia.
  - apply Z.leb_gt in He.
    assert (Hd : (0 < 2 ^ (- e))%Z) by (apply Z.pow_pos_nonneg; lia).
    rewrite Z.eqb_eq, Z.ltb_lt, Z.leb_le. intros Hmod Hlt.
    apply Z.mod_divide in Hmod; [| lia]. destruct Hmod as [q Hq].
    rewrite Hq in *.
    apply Z.mul_lt_mono_pos_r in Hlt; [| exact Hd].
    apply Z.mul_le_mono_nonneg_r; lia.
Qed.

(** [lengthsBelow] is where [n < x] turns false, for every number that
    an array length can exceed. *)
Lemma length_ltb_below n x :
  length_ltb n x = true -> (Z.of_nat n < maxArrayLength)%Z -> (n < lengthsBelow x)%nat.
Proof.
  unfold length_ltb, lengthsBelow, maxArrayLength.
  destruct (Prim2SF x) as [s | s | | s m e]; try discriminate.
  - destruct s; [discriminate |]. cbv beta iota. intros _ Hn. lia.
  - destruct s; simpl negb; simpl andb; [discriminate |].
    cbv beta iota. destruct (0 <=? e)%Z eqn:He.
    + rewrite Z.ltb_lt. intros H Hn. lia.
    + apply Z.leb_gt in He.
      assert (Hd : (0 < 2 ^ (- e))%Z) by (apply Z.pow_pos_nonneg; lia).
      rewrite Z.ltb_lt. intros H Hn.
      assert (Hq : (Z.of_nat n + 1 <= (Z.pos m + 2 ^ (- e) - 1) / 2 ^ (- e))%Z).
      { apply Z.div_le_lower_bound; [exact Hd | nia]. }
      lia.
Qed.

Lemma length_ltb_above n x :
  (lengthsBelow x <= n)%nat -> (Z.of_nat (lengthsBelow x) < maxArrayLength)%Z ->
  length_ltb n x = false.
Proof.
  unfold length_ltb, lengthsBelow, maxArrayLength.
  destruct (Prim2SF x) as [s | s | | s m e]; try reflexivity.
  - destruct s; [reflexivity |]. cbv beta iota. intros _ Hn. exfalso. lia.
  - destruct s; simpl negb; simpl andb; [reflexivity |].
    cbv beta iota. destruct (0 <=? e)%Z eqn:He.
    + rewrite Z.ltb_ge. intros H Hn. lia.
    + apply Z.leb_gt in He.
      assert (Hd : (0 < 2 ^ (- e))%Z) by (apply Z.pow_pos_nonneg; lia).
      rewrite Z.ltb_ge. intros H Hn.
      assert (Hq : ((Z.pos m + 2 ^ (- e) - 1) / 2 ^ (- e) <= Z.of_nat n)%Z) by lia.
      pose proof (Z.mul_succ_div_gt (Z.pos m + 2 ^ (- e) - 1) (2 ^ (- e)) Hd) as Hm.
      assert (Hm' : (2 ^ (- e) * Z.succ ((Z.pos m + 2 ^ (- e) - 1) / 2 ^ (- e))
                     <= 2 ^ (- e) * (Z.of_nat n + 1))%Z)
        by (apply Z.mul_le_mono_nonneg_l; lia).
      lia.
Qed.

End LengthFacts.

(** ** Facts about binary64 arithmetic *)

Module FloatFacts.

(** [x - x] is [+0] when [x] is finite and NaN otherwise. *)
Lemma sub_diag (x : float) : x - x = 0 \/ x - x = nan.
Proof.
  pose proof (sub_spec x x) as H.
  destruct (Prim2SF x) as [s | s | | s m e] eqn:E.
  - left. apply Prim2SF_inj. rewrite H. destruct s; reflexivity.
  - right. apply Prim2SF_inj. rewrite H. destruct s; reflexivity.
  - right. apply Prim2SF_inj. rewrite H. reflexivity.
  - left. apply Prim2SF_inj. rewrite H.
    unfold SF64sub, SFsub. rewrite Z.min_id. cbv zeta.
    rewrite Z.sub_diag. reflexivity.
Qed.



(** The distance between two equal points is [+0] or NaN, never
    positive. *)
Lemma distance_diag (x y z : float) :
  (0 <? JS.Math_sqrt ((x - x) * (x - x) + (y - y) * (y - y) + (z - z) * (z - z))) = false.
Proof.
  destruct (sub_diag x) as [-> | ->], (sub_diag y) as [-> | ->],
    (sub_diag z) as [-> | ->]; reflexivity.
Qed.

(** *** The order on numbers *)

Lemma compare_cont_swap (p q : positive) :
  Pos.compare_cont Eq q p = CompOpp (Pos.compare_cont Eq p q).
Proof. rewrite Pos.compare_cont_antisym. reflexivity. Qed.

(** Comparing in the other direction gives the opposite answer. *)
Lemma SFcompare_swap (x y : spec_float) :
  SFcompare y x = CompOpp <$> SFcompare x y.
Proof.
  destruct x as [sx | sx | | sx mx ex], y as [sy | sy | | sy my ey]; simpl;
    try reflexivity;
    try (destruct sx; reflexivity);
    try (destruct sy; reflexivity);
    try (destruct sx, sy; reflexivity).
  destruct sx, sy; simpl; try reflexivity.
  - rewrite (Z.compare_antisym ex ey).
    destruct (ex ?= ey)%Z; simpl; try reflexivity.
    rewrite (compare_cont_swap mx my).
    destruct (Pos.compare_cont Eq mx my); reflexivity.
  - rewrite (Z.compare_antisym ex ey).
    destruct (ex ?= ey)%Z; simpl; try reflexivity.
    rewrite (compare_cont_swap mx my).
    destruct (Pos.compare_cont Eq mx my); reflexivity.
Qed.

Lemma SFcompare_diag (x : spec_float) :
  SFcompare x x = match x with S754_nan => None | _ => Some Eq end.
Proof.
  destruct x as [s | s | | s m e]; simpl; try reflexivity.
  - destruct s; reflexivity.
  - rewrite Z.compare_refl.
    assert (H : Pos.compare_cont Eq m m = Eq) by apply Pos.compare_cont_refl.
    rewrite H. destruct s; reflexivity.
Qed.

Lemma isNaN_spec (a : float) :
  JS.isNaN a = match Prim2SF a with S754_nan => true | _ => false end.
Proof.
  unfold JS.isNaN. rewrite FloatAxioms.eqb_spec. unfold SFeqb. rewrite SFcompare_diag.
  destruct (Prim2SF a); reflexivity.
Qed.

Lemma compare_not_nan (a b : float) :
  JS.isNaN a = false -> JS.isNaN b = false ->
  exists c, SFcompare (Prim2SF a) (Prim2SF b) = Some c.
Proof.
  rewrite !isNaN_spec.
  destruct (Prim2SF a) as [sa | sa | | sa ma ea], (Prim2SF b) as [sb | sb | | sb mb eb];
    simpl; intros Ha Hb; try discriminate; eauto.
Qed.

Lemma leb_refl (a : float) : JS.isNaN a = false -> (a <=? a) = true.
Proof.
  rewrite isNaN_spec, leb_spec. unfold SFleb. rewrite SFcompare_diag.
  destruct (Prim2SF a); intros H; try reflexivity; discriminate.
Qed.

Lemma leb_not_nan (a b : float) :
  (a <=? b) = true -> JS.isNaN a = false /\ JS.isNaN b = false.
Proof.
  rewrite leb_spec, !isNaN_spec. unfold SFleb.
  destruct (Prim2SF a) as [sa | sa | | sa ma ea], (Prim2SF b) as [sb | sb | | sb mb eb];
    simpl; intros H; try discriminate; split; reflexivity.
Qed.

(** [a <= b] excludes [b < a]. *)
Lemma leb_ltb_false (a b : float) : (a <=? b) = true -> (b <? a) = false.
Proof.
  rewrite leb_spec, ltb_spec. unfold SFleb, SFltb.
  rewrite (SFcompare_swap (Prim2SF a) (Prim2SF b)).
  destruct (SFcompare (Prim2SF a) (Prim2SF b)) as [[| |] |]; simpl; intros H;
    try reflexivity; discriminate.
Qed.

(** On numbers, not [a < b] means [b <= a]. *)
Lemma ltb_false_leb (a b : float) :
  JS.isNaN a = false -> JS.isNaN b = false -> (a <? b) = false -> (b <=? a) = true.
Proof.
  intros Ha Hb. destruct (compare_not_nan a b Ha Hb) as [c Hc].
  rewrite leb_spec, ltb_spec. unfold SFleb, SFltb.
  rewrite (SFcompare_swap (Prim2SF a) (Prim2SF b)), Hc.
  destruct c; simpl; intros H; try reflexivity; discriminate.
Qed.

(** Only the two zeros compare equal to [0]. *)
Lemma eqb_zero (p : float) :
  (p =? 0) = true -> exists s, Prim2SF p = S754_zero s.
Proof.
  rewrite FloatAxioms.eqb_spec. change (Prim2SF 0) with (S754_zero false).
  destruct (Prim2SF p) as [s | s | | s m e]; simpl; intros H; try discriminate.
  - eauto.
  - destruct s; discriminate.
  - destruct s; discriminate.
Qed.



(** The two zeros. *)
Lemma zero_cases (p : float) : (p =? 0) = true -> p = 0 \/ p = -0.
Proof.
  intros H. destruct (eqb_zero p H) as [[|] Hs].
  - right. apply Prim2SF_inj. exact Hs.
  - left. apply Prim2SF_inj. exact Hs.
Qed.

(** [p || 0] compares with other numbers as [p] does, when [p] is a
    number. *)
Lemma or_zero_leb_l (lo p : float) : (lo <=? p) = true -> (lo <=? JS.or p 0) = true.
Proof.
  intros H. unfold JS.or, JS.ToBoolean.
  destruct (p =? 0) eqn:Hz; simpl; [| destruct (JS.isNaN p) eqn:Hn; simpl].
  - destruct (eqb_zero p Hz) as [s Hs].
    rewrite leb_spec in *. rewrite Hs in H.
    change (Prim2SF 0) with (S754_zero false).
    destruct (Prim2SF lo) as [sl | sl | | sl ml el]; exact H.
  - destruct (leb_not_nan lo p H) as [_ Hp]. congruence.
  - exact H.
Qed.

Lemma or_zero_leb_r (p hi : float) : (p <=? hi) = true -> (JS.or p 0 <=? hi) = true.
Proof.
  intros H. unfold JS.or, JS.ToBoolean.
  destruct (p =? 0) eqn:Hz; simpl; [| destruct (JS.isNaN p) eqn:Hn; simpl].
  - destruct (eqb_zero p Hz) as [s Hs].
    rewrite leb_spec in *. rewrite Hs in H.
    change (Prim2SF 0) with (S754_zero false).
    destruct (Prim2SF hi) as [sl | sl | | sl ml el]; exact H.
  - destruct (leb_not_nan p hi H) as [Hp _]. congruence.
  - exact H.
Qed.
End FloatFacts.

(** ** PhysicsSystem: coincident bodies *)

Module PhysicsFacts.
Import PhysicsSystem.

(** The distance [checkCollision] computes for two bodies. *)
Definition separation (s : Store) (bodyA bodyB : Body.t) : float :=
  let posA := position_get s (Body.entity bodyA) in
  let posB := position_get s (Body.entity bodyB) in
  let dx := Vec3.x posB - Vec3.x posA in
  let dy := Vec3.y posB - Vec3.y posA in
  let dz := Vec3.z posB - Vec3.z posA in
  JS.Math_sqrt (dx * dx + dy * dy + dz * dz).

(** [checkCollision] leaves the store and the emitter as they are
    whenever its condition is false: both divisions, both position
    writes and the [emit] are inside the [if]. *)
Lemma checkCollision_not_colliding body bodyA bodyB s ev :
  colliding (separation s bodyA bodyB) (Body.radius bodyA + Body.radius bodyB) = false ->
  checkCollision body bodyA bodyB (s, ev) = (s, ev).
Proof.
  unfold checkCollision, separation. intros H. cbv zeta. rewrite H. reflexivity.
Qed.

Lemma checkCollision_colliding body bodyA bodyB s ev :
  colliding (separation s bodyA bodyB) (Body.radius bodyA + Body.radius bodyB) = true ->
  snd (checkCollision body bodyA bodyB (s, ev))
  = EventEmitter.emit body "collision" (CollisionData bodyA bodyB) ev.
Proof.
  unfold checkCollision, separation. intros H. cbv zeta. rewrite H. reflexivity.
Qed.

(** C8: when the owning entities of two bodies are at exactly the same
    position, the condition of [checkCollision] is false (the computed
    distance is not greater than zero), so the branch holding the three
    divisions is not taken, neither entity is moved, and no ["collision"]
    event is emitted: store and emitter come back unchanged. *)
Theorem checkCollision_coincident body bodyA bodyB (s : Store) ev :
  position_get s (Body.entity bodyA) = position_get s (Body.entity bodyB) ->
  colliding (separation s bodyA bodyB) (Body.radius bodyA + Body.radius bodyB) = false
  /\ checkCollision body bodyA bodyB (s, ev) = (s, ev).
Proof.
  intros Hpos.
  assert (Hc : colliding (separation s bodyA bodyB)
                 (Body.radius bodyA + Body.radius bodyB) = false).
  { unfold colliding, separation. rewrite Hpos.
    rewrite FloatFacts.distance_diag. apply andb_false_r. }
  split; [exact Hc |].
  apply checkCollision_not_colliding, Hc.
Qed.

Lemma store_set_same l e s : store_set l e s l = e.
Proof. unfold store_set. rewrite Nat.eqb_refl. reflexivity. Qed.

(** A second [position.set] on the same entity overwrites the first. *)
Lemma Entity_position_set_set pos pos' e :
  Entity.position_set pos' (Entity.position_set pos e) = Entity.position_set pos' e.
Proof. unfold Entity.position_set. destruct (Entity.mesh e); reflexivity. Qed.

Lemma position_set_same l pos s :
  position_set l pos s l = Entity.position_set pos (s l).
Proof. unfold position_set. apply store_set_same. Qed.

(** The local [pos] and the velocity as they are when the "Bounds
    collision" block is reached. *)
Definition beforeBounds (gravity dt : float) (body : Body.t) (s : Store) : Vec3.t * Vec3.t :=
  let a := applyGravity gravity body in
  let v := applyDrag (Body.drag body) (updateVelocity dt (Body.velocity body) a) in
  let pos := updatePosition dt (position_get s (Body.entity body)) v in
  let '(pos2, v2, _) := groundCollision body pos v (position_set (Body.entity body) pos s) in
  (pos2, v2).

(** Clamping a coordinate into [[lo, hi]], and the velocity of an axis
    that left it. *)
Definition clamp (lo hi p : float) : float :=
  if p <? lo then lo else if hi <? p then hi else p.

Definition violated (lo hi p : float) : bool := (p <? lo) || (hi <? p).

Definition reflect (lo hi restitution p v : float) : float :=
  if violated lo hi p then v * - restitution else v.

Lemma clampAxis_clamp lo hi r p v :
  (lo <=? hi) = true ->
  clampAxis lo hi r p v = (clamp lo hi p, reflect lo hi r p v).
Proof.
  intros Hle. unfold clampAxis, clamp, reflect, violated.
  destruct (p <? lo) eqn:Hlo; simpl.
  - rewrite (FloatFacts.leb_ltb_false lo hi Hle). reflexivity.
  - destruct (hi <? p); reflexivity.
Qed.

(** A number clamped into [[lo, hi]] lies in it. *)
Lemma clamp_within lo hi p :
  (lo <=? hi) = true -> JS.isNaN p = false ->
  (lo <=? clamp lo hi p) = true /\ (clamp lo hi p <=? hi) = true.
Proof.
  intros Hle Hp. destruct (FloatFacts.leb_not_nan lo hi Hle) as [Hlo Hhi].
  unfold clamp. destruct (p <? lo) eqn:H1.
  - split; [apply FloatFacts.leb_refl, Hlo | exact Hle].
  - destruct (hi <? p) eqn:H2.
    + split; [exact Hle | apply FloatFacts.leb_refl, Hhi].
    + split; apply FloatFacts.ltb_false_leb; assumption.
Qed.

Lemma integrate_dynamic gravity dt body s :
  Body.isStatic body = false ->
  integrate gravity dt body s =
    let a := applyGravity gravity body in
    let v := applyDrag (Body.drag body) (updateVelocity dt (Body.velocity body) a) in
    let pos := updatePosition dt (position_get s (Body.entity body)) v in
    let s1 := position_set (Body.entity body) pos s in
    let '(pos2, v2, s2) := groundCollision body pos v s1 in
    let '(pos3, v3, s3) := boundsCollision body pos2 v2 s2 in
    (Body.with_motion v3 Vec3.zero body, s3).
Proof. intros H. unfold integrate. rewrite H. reflexivity. Qed.


(** A static body is never integrated: what [applyForce] accumulated on
    it is neither applied nor reset. *)
Lemma integrate_static gravity dt body s :
  Body.isStatic body = true -> integrate gravity dt body s = (body, s).
Proof. intros H. unfold integrate. rewrite H. reflexivity. Qed.

(** The store entry of the body's entity after "Ground collision". *)
Lemma groundCollision_store body pos v s :
  let '(pos2, _, s2) :=
    groundCollision body pos v (position_set (Body.entity body) pos s) in
  s2 (Body.entity body) = Entity.position_set pos2 (s (Body.entity body)).
Proof.
  unfold groundCollision. destruct (Vec3.y pos <? 0).
  - rewrite !position_set_same. apply Entity_position_set_set.
  - apply position_set_same.
Qed.



(** What [position.get] reads back after a [position.set]. *)
Lemma position_get_set_x pos e :
  Vec3.x (Entity.position_get (Entity.position_set pos e)) = JS.or (Vec3.x pos) 0.
Proof. unfold Entity.position_get, Entity.position_set. destruct (Entity.mesh e); reflexivity. Qed.

Lemma position_get_set_y pos e :
  Vec3.y (Entity.position_get (Entity.position_set pos e)) = JS.or (Vec3.y pos) 0.
Proof. unfold Entity.position_get, Entity.position_set. destruct (Entity.mesh e); reflexivity. Qed.

Lemma position_get_set_z pos e :
  Entity.mesh e <> None ->
  Vec3.z (Entity.position_get (Entity.position_set pos e)) = JS.or (Vec3.z pos) 0.
Proof.
  unfold Entity.position_get, Entity.position_set.
  destruct (Entity.mesh e); [reflexivity | congruence].
Qed.

Lemma stored_within lo hi p :
  (lo <=? hi) = true -> JS.isNaN p = false ->
  (lo <=? JS.or (clamp lo hi p) 0) = true /\ (JS.or (clamp lo hi p) 0 <=? hi) = true.
Proof.
  intros Hle Hp. destruct (clamp_within lo hi p Hle Hp) as [H1 H2].
  split; [apply FloatFacts.or_zero_leb_l, H1 | apply FloatFacts.or_zero_leb_r, H2].
Qed.

(** C7 (as the code has it): for a dynamic body that declares bounds
    with [minX <= maxX] and [minZ <= maxZ], the "Bounds collision" block
    clamps the [x] and the [z] coordinate, each on its own, and
    multiplies the velocity of each violated axis by [-restitution]; the
    position stored in the entity has its [x] (and, for an entity with a
    mesh, its [z]) inside the declared range.  The [y] coordinate and
    the [y] velocity go through the block unchanged: the vertical axis
    is bounded by the ground plane only. *)
Theorem bounds_clamp_x_and_z gravity dt (body : Body.t) (bd : Body.Bounds) (s : Store) :
  Body.isStatic body = false ->
  Body.bounds body = Some bd ->
  (Body.minX bd <=? Body.maxX bd) = true ->
  (Body.minZ bd <=? Body.maxZ bd) = true ->
  let r := Body.restitution body in
  let '(pos, v) := beforeBounds gravity dt body s in
  let '(body', s') := integrate gravity dt body s in
  let pos' := position_get s' (Body.entity body) in
  s' (Body.entity body)
    = Entity.position_set
        (Vec3.mk (clamp (Body.minX bd) (Body.maxX bd) (Vec3.x pos))
                 (Vec3.y pos)
                 (clamp (Body.minZ bd) (Body.maxZ bd) (Vec3.z pos)))
        (s (Body.entity body))
  /\ Body.velocity body'
     = Vec3.mk (reflect (Body.minX bd) (Body.maxX bd) r (Vec3.x pos) (Vec3.x v))
               (Vec3.y v)
               (reflect (Body.minZ bd) (Body.maxZ bd) r (Vec3.z pos) (Vec3.z v))
  /\ (JS.isNaN (Vec3.x pos) = false ->
      (Body.minX bd <=? Vec3.x pos') = true /\ (Vec3.x pos' <=? Body.maxX bd) = true)
  /\ (JS.isNaN (Vec3.z pos) = false -> Entity.mesh (s (Body.entity body)) <> None ->
      (Body.minZ bd <=? Vec3.z pos') = true /\ (Vec3.z pos' <=? Body.maxZ bd) = true)
  /\ Vec3.y pos' = JS.or (Vec3.y pos) 0.
Proof.
  intros Hdyn Hbd HX HZ. cbv zeta.
  rewrite integrate_dynamic by exact Hdyn. unfold beforeBounds. cbv zeta.
  pose proof (groundCollision_store body
    (updatePosition dt (position_get s (Body.entity body))
       (applyDrag (Body.drag body)
          (updateVelocity dt (Body.velocity body) (applyGravity gravity body))))
    (applyDrag (Body.drag body)
       (updateVelocity dt (Body.velocity body) (applyGravity gravity body))) s) as Hs.
  destruct (groundCollision _ _ _ _) as [[pos2 v2] s2].
  unfold boundsCollision. rewrite Hbd.
  rewrite !clampAxis_clamp by assumption.
  cbn beta iota.
  assert (Hstore :
    position_set (Body.entity body)
      (Vec3.mk (clamp (Body.minX bd) (Body.maxX bd) (Vec3.x pos2)) (Vec3.y pos2)
         (clamp (Body.minZ bd) (Body.maxZ bd) (Vec3.z pos2))) s2 (Body.entity body)
    = Entity.position_set
        (Vec3.mk (clamp (Body.minX bd) (Body.maxX bd) (Vec3.x pos2)) (Vec3.y pos2)
           (clamp (Body.minZ bd) (Body.maxZ bd) (Vec3.z pos2))) (s (Body.entity body))).
  { rewrite position_set_same, Hs. apply Entity_position_set_set. }
  unfold position_get. rewrite Hstore.
  split; [reflexivity |]. split; [reflexivity |]. split; [| split].
  - intros Hn. rewrite position_get_set_x. apply stored_within; assumption.
  - intros Hn Hmesh. rewrite position_get_set_z by exact Hmesh.
    apply stored_within; assumption.
  - rewrite position_get_set_y. reflexivity.
Qed.

(** An entity with a mesh at [(0, y, 0)]. *)
Definition storeAt (y : float) : Store :=
  fun _ => Entity.mk "ball" (Some (Vec3.mk 0 y 0)) true true [] 0 0.

Definition noConfig : PhysicsSystem.Config :=
  PhysicsSystem.mkConfig None None None None None None None None None None None.


(** Against C7 as stated.  A body that declares the range [0..5] for
    every axis, 4 units above the ground and rising at 10 units per
    second without gravity: after a one-second step it is above [maxY]
    and still rising. *)
Lemma bounds_ignore_y :
  let bd := Body.mkBounds 0 5 (Some 0) (Some 5) 0 5 in
  let body :=
    makeBody 0%nat
      (mkConfig (Some (Vec3.mk 0 10 0)) None None (Some false) None None None None None None
         (Some bd)) in
  let '(body', s') := integrate (gravity new) 1 body (storeAt 4) in
  Body.isStatic body = false
  /\ Body.bounds body = Some bd
  /\ Body.maxY bd = Some 5
  /\ (5 <? Vec3.y (position_get s' (Body.entity body))) = true
  /\ (0 <? Vec3.y (Body.velocity body')) = true.
Proof. vm_compute. repeat split; reflexivity. Qed.

End PhysicsFacts.

(** ** Physics on references *)

Module RefFacts.
Import PhysicsSystem.

Import PhysicsRefs.

(** *** Reading a vector after an assignment *)

Lemma setX_same l v vs : setX l v vs l = Vec3.mk v (Vec3.y (vs l)) (Vec3.z (vs l)).
Proof. unfold setX. rewrite Nat.eqb_refl. reflexivity. Qed.

Lemma setY_same l v vs : setY l v vs l = Vec3.mk (Vec3.x (vs l)) v (Vec3.z (vs l)).
Proof. unfold setY. rewrite Nat.eqb_refl. reflexivity. Qed.

Lemma setZ_same l v vs : setZ l v vs l = Vec3.mk (Vec3.x (vs l)) (Vec3.y (vs l)) v.
Proof. unfold setZ. rewrite Nat.eqb_refl. reflexivity. Qed.

Lemma setX_other l l' v vs : l' <> l -> setX l v vs l' = vs l'.
Proof. intros H. unfold setX. apply Nat.eqb_neq in H. rewrite H. reflexivity. Qed.

Lemma setY_other l l' v vs : l' <> l -> setY l v vs l' = vs l'.
Proof. intros H. unfold setY. apply Nat.eqb_neq in H. rewrite H. reflexivity. Qed.

Lemma setZ_other l l' v vs : l' <> l -> setZ l v vs l' = vs l'.
Proof. intros H. unfold setZ. apply Nat.eqb_neq in H. rewrite H. reflexivity. Qed.

Ltac at_heap :=
  repeat first
    [ rewrite setX_same | rewrite setY_same | rewrite setZ_same
    | rewrite setX_other by congruence
    | rewrite setY_other by congruence
    | rewrite setZ_other by congruence ];
  cbn [Vec3.x Vec3.y Vec3.z].

(** [vs'] has the velocity [v] and the acceleration [a] for [b] and is
    [vs] at every other vector. *)
Definition stepped (b : t) (vs vs' : Vectors) (v a : Vec3.t) : Prop :=
  vs' (velocity b) = v /\ vs' (acceleration b) = a
  /\ forall l, l <> velocity b -> l <> acceleration b -> vs' l = vs l.

Lemma stepped_trans b vs vs1 vs2 v1 a1 v2 a2 :
  stepped b vs vs1 v1 a1 -> stepped b vs1 vs2 v2 a2 -> stepped b vs vs2 v2 a2.
Proof.
  intros (_ & _ & H1) (Hv & Ha & H2). split; [exact Hv |]. split; [exact Ha |].
  intros l Hl Hl'. rewrite H2, H1 by assumption. reflexivity.
Qed.

Section Owned.
Variable b : t.
Hypothesis owned : velocity b <> acceleration b.

Lemma applyForce_stepped force vs :
  stepped b vs (PhysicsRefs.applyForce b force vs) (vs (velocity b))
    (Body.acceleration (PhysicsSystem.applyForce (load b vs) force)).
Proof.
  unfold stepped, PhysicsRefs.applyForce. cbv zeta.
  split; [| split].
  - at_heap. reflexivity.
  - at_heap. reflexivity.
  - intros l Hl Hl'. at_heap. reflexivity.
Qed.








End Owned.


(** A dynamic body whose velocity and acceleration are one object ends
    every step with that object at zero. *)
Lemma integrate_aliased gravity dt b vs s :
  Body.isStatic (body b) = false -> velocity b = acceleration b ->
  fst (PhysicsRefs.integrate gravity dt b (vs, s)) (velocity b) = Vec3.zero.
Proof.
  intros Hdyn Heq. unfold PhysicsRefs.integrate. rewrite Hdyn. cbv zeta.
  destruct (PhysicsRefs.groundCollision _ _ _ _) as [[pos4 vs4] s4].
  destruct (PhysicsRefs.boundsCollision _ _ _ _) as [[pos5 vs5] s5].
  cbn [fst]. unfold resetAcceleration. rewrite Heq. at_heap. reflexivity.
Qed.


(** A body added without vectors of its own gets two new objects. *)
Lemma addBody_owned entity config h :
  let b := fst (addBody entity None None config h) in
  velocity b = next h /\ acceleration b = S (next h) /\ velocity b <> acceleration b
  /\ body b = PhysicsSystem.makeBody entity config.
Proof. cbv zeta. cbn. repeat split. lia. Qed.

(** Two bodies added with one acceleration object share it: a force
    applied to one is read by the step of the other. *)
Lemma addBody_shared entity entity' config config' l h :
  let '(b, h1) := addBody entity None (Some l) config h in
  let '(b', _) := addBody entity' None (Some l) config' h1 in
  acceleration b = acceleration b'
  /\ forall force vs, PhysicsRefs.applyForce b force vs (acceleration b')
       = Body.acceleration (PhysicsSystem.applyForce (load b vs) force).
Proof.
  cbn. split; [reflexivity |]. intros force vs.
  unfold PhysicsRefs.applyForce. cbn. at_heap. reflexivity.
Qed.

End RefFacts.

(** A body on an entity with a mesh at (1, 2, 3). *)
Definition sampleStore : Store :=
  fun _ => Entity.mk "ball" (Some (Vec3.mk 1 2 3)) true true [] 0 0.

Definition sampleBody (entity : loc) : Body.t :=
  PhysicsSystem.makeBody entity
    (PhysicsSystem.mkConfig None None None None None None None None None None None).

Lemma checkCollision_coincident_witness :
  PhysicsSystem.checkCollision (fun _ => []) (sampleBody 0%nat) (sampleBody 1%nat)
    (sampleStore, EventEmitter.new)
  = (sampleStore, EventEmitter.new).
Proof.
  apply (PhysicsFacts.checkCollision_coincident (fun _ => []) (sampleBody 0%nat)
           (sampleBody 1%nat) sampleStore EventEmitter.new).
  reflexivity.
Defined.

(** ** ParticleSystem *)

Module ParticleFacts.
Import ParticleSystem.

Section Facts.
Variable random : nat -> float.
Variable mode : Mode.

Lemma spawnLoop_maxParticles fuel k e :
  maxParticles (fst (spawnLoop random fuel k e)) = maxParticles e.
Proof.
  revert k e. induction fuel as [| fuel IH]; intros k e; simpl; [reflexivity |].
  destruct (spawning e); [| reflexivity].
  rewrite IH. reflexivity.
Qed.

Lemma spawnLoop_enabled fuel k e :
  enabled (fst (spawnLoop random fuel k e)) = enabled e.
Proof.
  revert k e. induction fuel as [| fuel IH]; intros k e; simpl; [reflexivity |].
  destruct (spawning e); [| reflexivity].
  rewrite IH. reflexivity.
Qed.

(** The pool is within its cap: [particles.length <= maxParticles]. *)
Definition bounded (e : Emitter) : Prop :=
  JS.length_leb (length (particles e)) (maxParticles e) = true.

(** The pool is empty, or it was below the cap when its last particle
    was pushed: [particles.length - 1 < maxParticles]. *)
Definition nearCap (e : Emitter) : Prop :=
  match length (particles e) with
  | O => True
  | S n => JS.length_ltb n (maxParticles e) = true
  end.

(** [maxParticles] is below the largest array length. *)
Definition arrayCap (e : Emitter) : Prop :=
  (Z.of_nat (JS.lengthsBelow (maxParticles e)) < JS.maxArrayLength)%Z.

Lemma bounded_nearCap e : bounded e -> nearCap e.
Proof.
  unfold bounded, nearCap. destruct (length (particles e)) as [| n]; [trivial |].
  apply LengthFacts.length_leb_ltb.
Qed.

Lemma nearCap_shorter (e e' : Emitter) :
  maxParticles e' = maxParticles e ->
  (length (particles e') <= length (particles e))%nat ->
  nearCap e -> nearCap e'.
Proof.
  unfold nearCap. intros -> Hle.
  destruct (length (particles e')) as [| n'], (length (particles e)) as [| n];
    try trivial; [lia |].
  apply LengthFacts.length_ltb_mono. lia.
Qed.

(** For a whole-number cap that is not negative, the two bounds are the
    same. *)
Lemma nearCap_bounded e :
  JS.Number_isInteger (maxParticles e) = true ->
  JS.length_leb 0 (maxParticles e) = true ->
  nearCap e -> bounded e.
Proof.
  unfold bounded, nearCap. intros Hint H0.
  destruct (length (particles e)) as [| n]; [intros _; exact H0 |].
  apply LengthFacts.length_ltb_integer, Hint.
Qed.

(** The loop only pushes while the pool is below the cap. *)
Lemma spawnLoop_nearCap fuel k e :
  nearCap e -> nearCap (fst (spawnLoop random fuel k e)).
Proof.
  revert k e. induction fuel as [| fuel IH]; intros k e Hnear; simpl; [exact Hnear |].
  destruct (spawning e) eqn:Hs; [| exact Hnear].
  unfold spawning in Hs. apply andb_prop in Hs as [_ Hlt].
  apply IH. unfold nearCap. simpl. rewrite length_app. simpl.
  rewrite Nat.add_1_r. exact Hlt.
Qed.

(** With [spawnFuel] rounds the loop has run to its end: its condition
    is false in the emitter that comes out. *)
Lemma spawnLoop_exits fuel k e :
  arrayCap e ->
  (spawnFuel e <= fuel)%nat ->
  spawning (fst (spawnLoop random fuel k e)) = false.
Proof.
  unfold arrayCap, spawnFuel.
  revert k e. induction fuel as [| fuel IH]; intros k e Hcap Hfuel; simpl.
  - unfold spawning. rewrite LengthFacts.length_ltb_above; [apply andb_false_r | lia | exact Hcap].
  - destruct (spawning e) eqn:Hs; [| exact Hs].
    apply IH; simpl; [exact Hcap |]. rewrite length_app. simpl. lia.
Qed.

Lemma spawn_exits k e : arrayCap e -> spawning (fst (spawn random k e)) = false.
Proof. intros Hcap. apply spawnLoop_exits; [exact Hcap |]. unfold spawnFuel. lia. Qed.

Lemma omap_length_le {A B} (f : A -> option B) (l : list A) :
  (length (omap f l) <= length l)%nat.
Proof.
  induction l as [| a l IH]; csimpl; [lia |].
  destruct (f a); csimpl; lia.
Qed.

Lemma updateEmitter_maxParticles dt k e :
  maxParticles (fst (updateEmitter random mode dt k e)) = maxParticles e.
Proof.
  unfold updateEmitter. destruct (enabled e); simpl; [| reflexivity].
  unfold spawn.
  destruct (spawnLoop random _ k _) as [e1 k1] eqn:Hsp.
  assert (Hm : maxParticles e1 = maxParticles e).
  { change e1 with (fst (e1, k1)). rewrite <- Hsp.
    rewrite spawnLoop_maxParticles. reflexivity. }
  simpl. destruct mode; simpl; [exact Hm |].
  destruct (system e1); simpl; exact Hm.
Qed.

Lemma updateEmitter_particles dt k e :
  enabled e = true ->
  particles (fst (updateEmitter random mode dt k e))
  = omap (age dt)
      (particles (fst (spawn random k (with_particles (particles e) (timer e + dt) e)))).
Proof.
  intros He. unfold updateEmitter. rewrite He. simpl.
  destruct (spawn random k _) as [e1 k1]. simpl.
  destruct mode; simpl; [reflexivity |].
  destruct (system e1); reflexivity.
Qed.


Lemma updateEmitter_length dt k e :
  enabled e = true ->
  (length (particles (fst (updateEmitter random mode dt k e)))
   <= length (particles (fst (spawn random k (with_particles (particles e) (timer e + dt) e)))))%nat.
Proof.
  intros He. rewrite updateEmitter_particles by exact He. apply omap_length_le.
Qed.

Lemma updateEmitter_nearCap dt k e :
  nearCap e -> nearCap (fst (updateEmitter random mode dt k e)).
Proof.
  intros Hnear. destruct (enabled e) eqn:He.
  - apply (nearCap_shorter
             (fst (spawn random k (with_particles (particles e) (timer e + dt) e)))).
    + rewrite updateEmitter_maxParticles. unfold spawn.
      rewrite spawnLoop_maxParticles. reflexivity.
    + apply updateEmitter_length, He.
    + unfold spawn. apply spawnLoop_nearCap. exact Hnear.
  - unfold updateEmitter. rewrite He. exact Hnear.
Qed.

Lemma updateEmitter_bounded dt k e :
  JS.Number_isInteger (maxParticles e) = true ->
  bounded e -> bounded (fst (updateEmitter random mode dt k e)).
Proof.
  intros Hint Hb. apply nearCap_bounded.
  - rewrite updateEmitter_maxParticles. exact Hint.
  - rewrite updateEmitter_maxParticles.
    apply (LengthFacts.length_leb_mono (length (particles e))); [lia | exact Hb].
  - apply updateEmitter_nearCap, bounded_nearCap, Hb.
Qed.



Lemma update_single dt k e :
  fst (update random mode dt k [e]) = [fst (updateEmitter random mode dt k e)].
Proof. simpl. destruct (updateEmitter random mode dt k e). reflexivity. Qed.

(** C10 (as the code has it): [maxParticles] is any number, and the
    spawn loop pushes while [particles.length < maxParticles].  So for
    every emitter, every [dt] (negative, infinite and NaN included) and
    every outcome of [Math.random], a step of [ParticleSystem.update]
    leaves [maxParticles] as it is and keeps the pool below
    [maxParticles + 1]: an empty pool aside, [particles.length - 1 <
    maxParticles] is an invariant.  When [maxParticles] is a whole
    number, [particles.length <= maxParticles] is an invariant too. *)
Theorem update_bounded dt k (emitters : list Emitter) :
  Forall2 (fun e e' => maxParticles e' = maxParticles e
                       /\ (nearCap e -> nearCap e')
                       /\ (JS.Number_isInteger (maxParticles e) = true ->
                           bounded e -> bounded e'))
    emitters (fst (update random mode dt k emitters)).
Proof.
  revert k. induction emitters as [| e rest IH]; intros k; simpl.
  - constructor.
  - destruct (updateEmitter random mode dt k e) as [e' k1] eqn:Hu.
    specialize (IH k1).
    destruct (update random mode dt k1 rest) as [rest' k2]. simpl in *.
    constructor; [| exact IH].
    assert (He' : e' = fst (updateEmitter random mode dt k e)) by (rewrite Hu; reflexivity).
    subst e'. split; [apply updateEmitter_maxParticles |]. split.
    + apply updateEmitter_nearCap.
    + apply updateEmitter_bounded.
Qed.


Lemma spawnLoop_lifetime fuel k e :
  lifetime (fst (spawnLoop random fuel k e)) = lifetime e.
Proof.
  revert k e. induction fuel as [| fuel IH]; intros k e; simpl; [reflexivity |].
  destruct (spawning e); [| reflexivity].
  rewrite IH. reflexivity.
Qed.





End Facts.

End ParticleFacts.


Definition defaultEmitter : ParticleSystem.Emitter :=
  ParticleSystem.createEmitter Mode3D
    (ParticleSystem.mkOptions None None None None None None None None None None None).


Lemma update_bounded_witness :
  ParticleFacts.bounded
    (fst (ParticleSystem.updateEmitter (fun _ => 0.5) Mode3D 1 0 defaultEmitter)).
Proof.
  pose proof (ParticleFacts.update_bounded (fun _ => 0.5) Mode3D 1 0 [defaultEmitter]) as H.
  rewrite ParticleFacts.update_single in H.
  apply Forall2_cons_1 in H as [(_ & _ & H) _].
  apply H; reflexivity.
Defined.

(** Against C10 as stated.  [createEmitter({ maxParticles: 2.5 })]
    makes an emitter with an empty pool, which is within the cap; one
    step with [dt = 1] pushes a particle at the lengths 0, 1 and 2, all
    below 2.5, and leaves three particles alive: more than
    [maxParticles]. *)
Lemma update_exceeds_fractional_cap :
  let e := ParticleSystem.createEmitter Mode3D
             (ParticleSystem.mkOptions None None None None None None None None None None
                (Some 2.5)) in
  let e' := fst (ParticleSystem.updateEmitter (fun _ => 0.5) Mode3D 1 0 e) in
  ParticleSystem.maxParticles e = 2.5
  /\ JS.length_leb (length (ParticleSystem.particles e)) (ParticleSystem.maxParticles e) = true
  /\ length (ParticleSystem.particles e') = 3%nat
  /\ JS.length_leb (length (ParticleSystem.particles e')) (ParticleSystem.maxParticles e')
     = false.
Proof. vm_compute. repeat split; reflexivity. Qed.

(** ** TweenSystem *)

Module TweenFacts.
Import TweenSystem.

Lemma prop_target_set ts l key v : prop (target_set l key v ts l) key = v.
Proof.
  unfold prop, target_set. rewrite Nat.eqb_refl, lookup_insert_eq. reflexivity.
Qed.

(** Once [this.tweens] is empty a step changes nothing. *)
Lemma update_no_tweens dt ts cs : update dt (mk [] ts cs) = mk [] ts cs.
Proof. reflexivity. Qed.

(** Several steps in a row. *)
Definition run (dts : list float) (s : t) : t :=
  fold_left (fun s' dt => update dt s') dts s.

Lemma run_no_tweens dts ts cs : run dts (mk [] ts cs) = mk [] ts cs.
Proof.
  induction dts as [| dt dts IH]; simpl; [reflexivity |].
  rewrite update_no_tweens. exact IH.
Qed.

Lemma completions_app cs1 cs2 :
  completions (cs1 ++ cs2) = completions cs1 ++ completions cs2.
Proof. unfold completions. apply omap_app. Qed.

Lemma completions_call_update cs (f : option nat) l easedT :
  completions (call_opt f (fun g => OnUpdate g l easedT) cs) = completions cs.
Proof.
  destruct f; simpl; [| reflexivity].
  rewrite completions_app. simpl. apply app_nil_r.
Qed.

(** The tween [to(target, { x: 10 }, 2, { onUpdate, onComplete })] made
    when [target.x] is 0, after [elapsed] seconds: linear easing, no
    delay. *)
Definition tween_0_10 (l : loc) (onUpdate onComplete : option nat) (elapsed : float) : Tween :=
  mkTween l {["x"%string := 0]} [("x"%string, 10)] 2 elapsed easeLinear
    onUpdate onComplete 0 true.

Lemma to_tween_0_10 l ts cs onUpdate onComplete :
  ts l !! "x"%string = Some 0 ->
  to l [("x"%string, 10)] 2 (mkOptions None onUpdate onComplete None) (mk [] ts cs)
  = mk [tween_0_10 l onUpdate onComplete 0] ts cs.
Proof.
  intros Hx. unfold to, makeTween, tween_0_10, prop. simpl.
  rewrite Hx. simpl. rewrite insert_empty. reflexivity.
Qed.

Lemma step_tween_0_10 l onUpdate onComplete e dt ts cs :
  step dt (tween_0_10 l onUpdate onComplete e) (ts, cs)
  = let t := JS.Math_min ((e + dt) / 2) 1 in
    let ts' := target_set l "x" (0 + (10 - 0) * t) ts in
    let cs' := call_opt onUpdate (fun f => OnUpdate f l t) cs in
    if 1 <=? t
    then (None, (ts', call_opt onComplete (fun f => OnComplete f l) cs'))
    else (Some (tween_0_10 l onUpdate onComplete (e + dt)), (ts', cs')).
Proof.
  unfold step, tween_0_10, applyValues, prop. simpl.
  rewrite lookup_singleton_eq. reflexivity.
Qed.

(** Once the quotient [elapsed / duration] has reached 1, [t] is 1. *)
Lemma Math_min_one (x : float) : (1 <=? x) = true -> JS.Math_min x 1 = 1.
Proof.
  intros Hle. destruct (FloatFacts.leb_not_nan 1 x Hle) as [_ Hx].
  unfold JS.Math_min. rewrite Hx. simpl.
  rewrite (FloatFacts.leb_ltb_false 1 x Hle).
  destruct (1 <? x); [reflexivity |].
  destruct (is_zero x) eqn:Hz; [| reflexivity].
  exfalso. unfold is_zero in Hz.
  destruct (FloatFacts.zero_cases x Hz) as [-> | ->]; discriminate Hle.
Qed.

(** C4: take the tween that animates [x] from 0 to 10 over a duration
    of 2 with linear easing and no delay, at any point of its life.  If
    the step brings [elapsed] to 1, the target's [x] becomes 5, the
    tween stays in the list and no completion callback is called.  If
    the step brings [elapsed / duration] to 1 or beyond (elapsed 2, or
    any overshoot, [+Infinity] included), then [t = 1]: [x] becomes
    exactly 10, the completion callback is called exactly once, the
    tween leaves the list, and every later sequence of steps leaves the
    system as it is (no further call, no further write to the
    target). *)
Theorem tween_linear_0_10_2 (l : loc) (onUpdate : option nat) (f : nat)
  (ts : Targets) (cs : list Call) (e dt : float) :
  let s' := update dt (mk [tween_0_10 l onUpdate (Some f) e] ts cs) in
  (e + dt = 1 ->
     prop (targets s' l) "x" = 5
     /\ tweens s' = [tween_0_10 l onUpdate (Some f) 1]
     /\ completions (calls s') = completions cs)
  /\ ((1 <=? (e + dt) / 2) = true ->
     prop (targets s' l) "x" = 10
     /\ tweens s' = []
     /\ completions (calls s') = completions cs ++ [(f, l)]
     /\ forall dts, run dts s' = s')
  /\ (e + dt = 2 -> (1 <=? (e + dt) / 2) = true).
Proof.
  cbv zeta. unfold update. cbn [tweens targets calls filterStep]. rewrite step_tween_0_10.
  split; [| split].
  - intros He. rewrite He.
    simpl. split; [apply prop_target_set |]. split; [reflexivity |].
    apply completions_call_update.
  - intros He. cbv zeta. rewrite (Math_min_one _ He).
    change (1 <=? 1) with true. cbv iota.
    cbn [fst snd tweens targets calls call_opt].
    split; [rewrite prop_target_set; reflexivity |]. split; [reflexivity |].
    split.
    + rewrite completions_app, completions_call_update. reflexivity.
    + intros dts. apply run_no_tweens.
  - intros ->. reflexivity.
Qed.

End TweenFacts.

(** ** EventEmitter *)

Module EventFacts.
Import EventEmitter.

Section Quiet.
Context {Data : Type}.
Variable body : nat -> list Action.

(** A listener that leaves the emitter alone: a caller's function whose
    body neither subscribes nor unsubscribes. *)
Definition quiet (callback : Listener) : Prop :=
  match callback with
  | Fn f => body f = []
  | OnceWrapper _ _ _ => False
  end.

Definition fn (callback : Listener) : list nat :=
  match callback with
  | Fn f => [f]
  | OnceWrapper _ _ _ => []
  end.

Lemma invoke_quiet callback (data : Data) e :
  quiet callback ->
  invoke body callback data e
  = mk (events e) (calls e ++ map (fun f => (f, data)) (fn callback)) (closures e).
Proof.
  destruct callback as [f | w event inner]; simpl; [| contradiction].
  intros ->. reflexivity.
Qed.

Lemma forEach_quiet len k event (data : Data) e :
  Forall quiet (listeners event e) ->
  forEach body len k event data e
  = mk (events e)
       (calls e ++ map (fun f => (f, data))
                       (flat_map fn (take len (drop k (listeners event e)))))
       (closures e).
Proof.
  revert k e. induction len as [| len IH]; intros k e Hq; simpl.
  - rewrite app_nil_r. destruct e; reflexivity.
  - destruct (listeners event e !! k) as [callback |] eqn:Hk.
    + assert (Hc : quiet callback).
      { rewrite Forall_forall in Hq. apply Hq.
        apply list_elem_of_lookup. eauto. }
      rewrite (invoke_quiet callback data e Hc).
      rewrite IH; unfold listeners; simpl; [| exact Hq].
      fold (listeners event e).
      rewrite (drop_S _ _ _ Hk). simpl.
      rewrite map_app, app_assoc. reflexivity.
    + rewrite IH by exact Hq.
      apply lookup_ge_None in Hk.
      rewrite !drop_ge by lia. rewrite !take_nil. reflexivity.
Qed.

(** While its listeners leave the emitter alone, [emit] calls every
    function subscribed to the event, once, in subscription order. *)
Lemma emit_in_order event (data : Data) e callbacks :
  events e !! event = Some callbacks ->
  Forall quiet callbacks ->
  called (emit body event data e) = called e ++ flat_map fn callbacks.
Proof.
  intros He Hq. unfold emit. rewrite He.
  assert (Hl : listeners event e = callbacks) by (unfold listeners; rewrite He; reflexivity).
  rewrite forEach_quiet by (rewrite Hl; exact Hq).
  rewrite Hl. unfold called. simpl.
  rewrite drop_0, firstn_all, map_app, map_map. simpl. rewrite map_id. reflexivity.
Qed.

End Quiet.

(** Function 0 unsubscribes itself from ["foo"] when called; every other
    function leaves the emitter alone. *)
Definition selfRemoving (f : nat) : list Action :=
  match f with
  | O => [Off "foo" (Fn 0)]
  | S _ => []
  end.

(** [on('foo', f0); on('foo', f1)] on a new emitter. *)
Definition twoListeners : EventEmitter.t Payload :=
  on "foo" (Fn 1) (on "foo" (Fn 0) new).

(** [once('start', f0); once('start', f1)] on a new emitter. *)
Definition twoOnce : EventEmitter.t Payload :=
  once "start" (Fn 1) (once "start" (Fn 0) new).

(** C2, on the code: [f0] and [f1] are subscribed to ["foo"] in this
    order and [f0] unsubscribes itself when called.  The first [emit]
    calls [f0] only: [off] splices the array that [forEach] is walking,
    [f1] moves to index 0 and index 1 no longer exists, so [f1] is
    skipped.  [f0] is indeed not called by the second [emit], which
    calls [f1]. *)
Theorem emit_self_unsubscribe_skips_next :
  let first := emit selfRemoving "foo" NoData twoListeners in
  let second := emit selfRemoving "foo" NoData first in
  listeners "foo" twoListeners = [Fn 0; Fn 1]
  /\ called first = [0%nat]
  /\ listeners "foo" first = [Fn 1]
  /\ called second = [0%nat; 1%nat].
Proof. vm_compute. repeat split; reflexivity. Qed.

(** The same with the engine's own [once]: of two one-shot listeners
    only the first is called by the first [emit]. *)
Lemma emit_once_skips_next :
  let first := emit (fun _ => []) "start" NoData twoOnce in
  called first = [0%nat]
  /\ listeners "start" first = [OnceWrapper 1 "start" (Fn 1)].
Proof. vm_compute. split; reflexivity. Qed.

(** Without self-removal both are called, in subscription order. *)
Lemma emit_two_quiet :
  called (emit (fun _ => []) "foo" NoData twoListeners) = [0%nat; 1%nat].
Proof. vm_compute. reflexivity. Qed.

End EventFacts.

(** ** The entity registry *)

Module JSMapFacts.
Section Facts.
Context {V : Type}.
Implicit Types (m : list (string * V)) (k : string) (v : V).

Lemma get_set_eq k v m : JSMap.get k (JSMap.set k v m) = Some v.
Proof.
  induction m as [| [k' v'] m IH]; simpl.
  - destruct (decide (k = k)); [reflexivity | congruence].
  - destruct (decide (k' = k)) as [-> | Hne]; simpl.
    + destruct (decide (k = k)); [reflexivity | congruence].
    + destruct (decide (k' = k)); [congruence | exact IH].
Qed.

Lemma get_set_ne k k' v m : k' <> k -> JSMap.get k' (JSMap.set k v m) = JSMap.get k' m.
Proof.
  intros Hne. induction m as [| [k0 v0] m IH]; simpl.
  - destruct (decide (k = k')); [congruence | reflexivity].
  - destruct (decide (k0 = k)) as [-> | Hk]; simpl.
    + destruct (decide (k = k')); [congruence | reflexivity].
    + destruct (decide (k0 = k')); [reflexivity | exact IH].
Qed.

(** [set] on a key the map has keeps the iteration order. *)
Lemma keys_set_present k v v0 m :
  JSMap.get k m = Some v0 -> JSMap.keys (JSMap.set k v m) = JSMap.keys m.
Proof.
  unfold JSMap.keys. induction m as [| [k' v'] m IH]; simpl; [discriminate |].
  destruct (decide (k' = k)) as [-> | Hne]; simpl; [reflexivity |].
  intros H. rewrite IH by exact H. reflexivity.
Qed.

(** [set] on a new key appends it. *)
Lemma set_absent k v m : JSMap.get k m = None -> JSMap.set k v m = m ++ [(k, v)].
Proof.
  induction m as [| [k' v'] m IH]; simpl; [reflexivity |].
  destruct (decide (k' = k)); [discriminate |].
  intros H. rewrite IH by exact H. reflexivity.
Qed.

End Facts.
End JSMapFacts.

Module RegistryFacts.
Import Cubie Cubie.entity.

Section Facts.
Variable body : nat -> list EventEmitter.Action.

Lemma create_entities name config c :
  entities (snd (create body name config c)) = JSMap.set name (next c) (entities c).
Proof.
  unfold create. destruct (mode c), (Entity.mesh (Entity.new name config)); reflexivity.
Qed.

Lemma create_store name config c :
  store (snd (create body name config c)) = store_set (next c) (Entity.new name config) (store c).
Proof.
  unfold create. destruct (mode c), (Entity.mesh (Entity.new name config)); reflexivity.
Qed.

(** [create] has no [throw]: it always returns the new entity. *)
Lemma create_returns name config c :
  fst (create body name config c) = Returned (next c).
Proof.
  unfold create. destruct (mode c), (Entity.mesh (Entity.new name config)); reflexivity.
Qed.

(** C5 (as the code has it): [create] with a name the registry already
    has does not fail.  It returns a new entity, stores it under the
    name in place of the old one (the name keeps its place in the
    iteration order), and leaves every other name and every other
    entity object, the replaced one included, as they were. *)
Theorem create_existing_name_replaces name config (c : Cubie.t) (old : loc) :
  get name c = Some old ->
  let '(result, c') := create body name config c in
  result = Returned (next c)
  /\ get name c' = Some (next c)
  /\ store c' (next c) = Entity.new name config
  /\ JSMap.keys (entities c') = JSMap.keys (entities c)
  /\ (forall other, other <> name -> get other c' = get other c)
  /\ (forall l, l <> next c -> store c' l = store c l).
Proof.
  intros Hold.
  pose proof (create_returns name config c) as Hr.
  pose proof (create_entities name config c) as He.
  pose proof (create_store name config c) as Hs.
  destruct (create body name config c) as [result c']. simpl in Hr, He, Hs.
  unfold get in *. rewrite He, Hs.
  split; [exact Hr |]. split; [apply JSMapFacts.get_set_eq |].
  split; [unfold store_set; rewrite Nat.eqb_refl; reflexivity |].
  split; [apply (JSMapFacts.keys_set_present _ _ old), Hold |].
  split.
  - intros other Hne. apply JSMapFacts.get_set_ne. exact Hne.
  - intros l Hne. unfold store_set.
    destruct (Nat.eqb l (next c)) eqn:Heq; [| reflexivity].
    apply Nat.eqb_eq in Heq. contradiction.
Qed.

End Facts.

(** A 3D engine in which ["hero"] has been created. *)
Definition heroEngine : Cubie.t :=
  snd (create (fun _ => []) "hero" Entity.emptyConfig (Cubie.new Mode3D)).

(** Creating ["hero"] a second time, at x = 7. *)
Definition heroAgain : Completion loc * Cubie.t :=
  create (fun _ => []) "hero"
    (Entity.mkConfig None None None (Some 7) None None) heroEngine.

(** Against C5 as stated: the second [create] of ["hero"] returns
    instead of throwing, and the registry then holds the new entity under
    that name. *)
Lemma create_duplicate_succeeds :
  get "hero" heroEngine = Some 0%nat
  /\ fst heroAgain = Returned 1%nat
  /\ fst heroAgain <> Thrown "DuplicateEntity"
  /\ get "hero" (snd heroAgain) = Some 1%nat
  /\ get "hero" (snd heroAgain) <> get "hero" heroEngine
  /\ Entity.x (store (snd heroAgain) 1%nat) = 7.
Proof.
  vm_compute. repeat split; try reflexivity; discriminate.
Qed.

End RegistryFacts.

(** ** The frame loop *)

Module FrameFacts.
Import Cubie.

Section Facts.
Variable World : Type.
Variable effect : Call -> World -> World.

Local Abbreviation Frame := (Frame World).
Local Abbreviation perform := (perform World effect).

(** Making a list of calls one after the other. *)
Definition performAll (calls : list Call) (fr : Frame) : Frame :=
  fold_left (fun fr' call => perform call fr') calls fr.

Lemma performAll_app calls1 calls2 fr :
  performAll (calls1 ++ calls2) fr = performAll calls2 (performAll calls1 fr).
Proof. apply fold_left_app. Qed.

Lemma performAll_engine calls fr : engine World (performAll calls fr) = engine World fr.
Proof.
  revert fr. induction calls as [| call calls IH]; intros fr; simpl; [reflexivity |].
  rewrite IH. reflexivity.
Qed.

Lemma perform_engine call fr : engine World (perform call fr) = engine World fr.
Proof. reflexivity. Qed.

Lemma performAll_trace calls fr :
  trace World (performAll calls fr) = trace World fr ++ calls.
Proof.
  revert fr. induction calls as [| call calls IH]; intros fr; simpl.
  - symmetry. apply app_nil_r.
  - rewrite IH. simpl. rewrite <- app_assoc. reflexivity.
Qed.

(** The called code runs in trace order. *)
Lemma performAll_world calls fr :
  world World (performAll calls fr) = fold_left (fun w call => effect call w) calls (world World fr).
Proof.
  revert fr. induction calls as [| call calls IH]; intros fr; simpl; [reflexivity |].
  rewrite IH. reflexivity.
Qed.

(** A [forEach] whose callback makes the calls [g v] makes the calls of
    all elements, in array order. *)
Lemma forEach_performAll {A} (f : A -> Frame -> Frame) (g : A -> list Call) (a : list A) fr :
  (forall v fr', f v fr' = performAll (g v) fr') ->
  forEach World f a fr = performAll (flat_map g a) fr.
Proof.
  intros Hf. unfold forEach. revert fr.
  induction a as [| v a IH]; intros fr; simpl; [reflexivity |].
  rewrite IH, Hf, performAll_app. reflexivity.
Qed.

Lemma forEach_perform {A} (call : A -> Call) (a : list A) fr :
  forEach World (fun v => perform (call v)) a fr = performAll (map call a) fr.
Proof.
  unfold forEach, performAll. revert fr.
  induction a as [| v a IH]; intros fr; simpl; [reflexivity |].
  apply IH.
Qed.

(** The calls of each part of the frame. *)
Definition systemCalls (dt : float) (systems : list (string * System.t)) : list Call :=
  flat_map
    (fun entry : string * System.t =>
       match System.enabled (snd entry), System.update (snd entry) with
       | Some true, Some fn => [SystemUpdate (fst entry) fn dt]
       | _, _ => []
       end)
    systems.

Definition scriptCalls (dt : float) (l : loc) (scripts : list Script.t) : list Call :=
  flat_map
    (fun script =>
       match Script.update script with
       | Some fn => [ScriptUpdate fn dt l]
       | None => []
       end)
    scripts.

Definition entityCalls (dt : float) (c : Cubie.t) : list Call :=
  flat_map
    (fun entry : string * loc =>
       if Entity.enabled (store c (snd entry))
       then scriptCalls dt (snd entry) (Entity.scripts (store c (snd entry)))
       else [])
    (entities c).

(** The steps of one frame, in the order fixed by [loop] and [update]. *)
Definition frameSteps (dt : float) (c : Cubie.t) : list Call :=
  map (fun fn => PreUpdateHook fn dt) (preUpdate (hooks c))
  ++ [PhysicsUpdate dt; ParticlesUpdate dt; TweensUpdate dt]
  ++ systemCalls dt (systems c)
  ++ entityCalls dt c
  ++ map (fun fn => PostUpdateHook fn dt) (postUpdate (hooks c))
  ++ map PreRenderHook (preRender (hooks c))
  ++ [Render]
  ++ map PostRenderHook (postRender (hooks c)).

(** Everything [loop] calls in a frame: the steps, and around them the
    scheduling of the next frame, the clearing of the input state and the
    performance monitor. *)
Definition frameCalls (dt : float) (c : Cubie.t) : list Call :=
  [RequestAnimationFrame]
  ++ map (fun fn => PreUpdateHook fn dt) (preUpdate (hooks c))
  ++ [InputUpdate dt; PhysicsUpdate dt; ParticlesUpdate dt; TweensUpdate dt]
  ++ systemCalls dt (systems c)
  ++ entityCalls dt c
  ++ map (fun fn => PostUpdateHook fn dt) (postUpdate (hooks c))
  ++ map PreRenderHook (preRender (hooks c))
  ++ [Render]
  ++ map PostRenderHook (postRender (hooks c))
  ++ [PerformanceUpdate].

Definition housekeeping (call : Call) : bool :=
  match call with
  | LoggerDebug _ | RequestAnimationFrame | InputUpdate _ | PerformanceUpdate => true
  | _ => false
  end.

Lemma Entity_update_performAll dt l fr :
  Entity_update World effect dt l fr
  = performAll (scriptCalls dt l (Entity.scripts (store (engine World fr) l))) fr.
Proof.
  unfold Entity_update, scriptCalls.
  apply forEach_performAll. intros script fr'.
  destruct (Script.update script); reflexivity.
Qed.

Lemma entities_performAll dt (es : list (string * loc)) fr :
  forEach World
    (fun (entry : string * loc) fr' =>
       if Entity.enabled (store (engine World fr') (snd entry))
       then Entity_update World effect dt (snd entry) fr'
       else fr') es fr
  = performAll
      (flat_map
         (fun entry : string * loc =>
            if Entity.enabled (store (engine World fr) (snd entry))
            then scriptCalls dt (snd entry)
                   (Entity.scripts (store (engine World fr) (snd entry)))
            else []) es) fr.
Proof.
  unfold forEach. revert fr. induction es as [| entry es IH]; intros fr; simpl.
  - reflexivity.
  - rewrite performAll_app. rewrite IH.
    destruct (Entity.enabled (store (engine World fr) (snd entry))) eqn:Hen.
    + rewrite Entity_update_performAll, performAll_engine. reflexivity.
    + reflexivity.
Qed.

Lemma update_performAll dt fr :
  update World effect dt fr
  = performAll
      ([InputUpdate dt; PhysicsUpdate dt; ParticlesUpdate dt; TweensUpdate dt]
       ++ systemCalls dt (systems (engine World fr))
       ++ entityCalls dt (engine World fr)) fr.
Proof.
  unfold update. cbv zeta.
  rewrite entities_performAll.
  rewrite (forEach_performAll _
             (fun entry : string * System.t =>
                match System.enabled (snd entry), System.update (snd entry) with
                | Some true, Some fn => [SystemUpdate (fst entry) fn dt]
                | _, _ => []
                end)).
  - rewrite !performAll_app. unfold entityCalls, systemCalls.
    rewrite !performAll_engine. reflexivity.
  - intros entry fr'.
    destruct (System.enabled (snd entry)) as [[|] |], (System.update (snd entry));
      reflexivity.
Qed.

(** [loop] on a running engine that is not paused: the clock fields are
    updated, then the calls of the frame are made in order. *)
Lemma loop_performAll delta fr :
  isRunning (engine World fr) = true ->
  isPaused (engine World fr) = false ->
  let c := engine World fr in
  let c' := with_clock (time c + delta) delta (S (frameCount c)) c in
  loop World effect delta fr
  = performAll (frameCalls delta c') (mkFrame World c' (world World fr) (trace World fr)).
Proof.
  intros Hrun Hpause. cbv zeta. unfold loop. rewrite Hrun. simpl negb. cbv iota.
  cbv zeta. simpl engine at 1. rewrite Hpause.
  rewrite !forEach_perform, update_performAll.
  unfold frameCalls.
  rewrite !performAll_app.
  change (performAll [RequestAnimationFrame]) with (perform RequestAnimationFrame).
  change (performAll [Render]) with (perform Render).
  change (performAll [PerformanceUpdate]) with (perform PerformanceUpdate).
  repeat (rewrite ?performAll_engine, ?perform_engine; cbn [engine]).
  reflexivity.
Qed.

Lemma filter_all (p : Call -> bool) (calls : list Call) :
  Forall (fun call => p call = true) calls -> List.filter p calls = calls.
Proof.
  intros H. induction H as [| call calls Hc _ IH]; simpl; [reflexivity |].
  rewrite Hc, IH. reflexivity.
Qed.

Definition isStep (call : Call) : bool := negb (housekeeping call).

Lemma map_isStep {A} (call : A -> Call) (a : list A) :
  (forall v, isStep (call v) = true) ->
  Forall (fun c => isStep c = true) (map call a).
Proof.
  intros H. induction a as [| v a IH]; simpl; constructor; [apply H | exact IH].
Qed.

Lemma systemCalls_isStep dt systems :
  Forall (fun c => isStep c = true) (systemCalls dt systems).
Proof.
  unfold systemCalls. induction systems as [| entry systems IH]; simpl; [constructor |].
  apply Forall_app. split; [| exact IH].
  destruct (System.enabled (snd entry)) as [[|] |], (System.update (snd entry));
    repeat constructor.
Qed.

Lemma scriptCalls_isStep dt l scripts :
  Forall (fun c => isStep c = true) (scriptCalls dt l scripts).
Proof.
  unfold scriptCalls. induction scripts as [| script scripts IH]; simpl; [constructor |].
  apply Forall_app. split; [| exact IH].
  destruct (Script.update script); repeat constructor.
Qed.

Lemma entityCalls_isStep dt c :
  Forall (fun call => isStep call = true) (entityCalls dt c).
Proof.
  unfold entityCalls. induction (entities c) as [| entry es IH]; simpl; [constructor |].
  apply Forall_app. split; [| exact IH].
  destruct (Entity.enabled (store c (snd entry))); [apply scriptCalls_isStep | constructor].
Qed.

Lemma frameSteps_isStep dt c : Forall (fun call => isStep call = true) (frameSteps dt c).
Proof.
  unfold frameSteps.
  repeat (apply Forall_app; split);
    first [ apply map_isStep; reflexivity
          | apply systemCalls_isStep
          | apply entityCalls_isStep
          | repeat constructor ].
Qed.

(** Leaving the housekeeping calls out of [frameCalls] gives
    [frameSteps]. *)
Lemma frameCalls_steps dt c : List.filter isStep (frameCalls dt c) = frameSteps dt c.
Proof.
  pose proof (frameSteps_isStep dt c) as H. unfold frameSteps in H.
  repeat (apply Forall_app in H as [? H]).
  unfold frameCalls, frameSteps.
  repeat rewrite List.filter_app.
  repeat match goal with
         | Hall : Forall _ ?l |- context [List.filter isStep ?l] =>
             rewrite (filter_all isStep l Hall)
         end.
  cbn [List.filter isStep housekeeping negb app].
  rewrite app_nil_r. reflexivity.
Qed.

(** [loop] does nothing when the engine is stopped, and only schedules
    the next frame when it is paused. *)
Lemma loop_stopped delta fr :
  isRunning (engine World fr) = false -> loop World effect delta fr = fr.
Proof. intros H. unfold loop. rewrite H. reflexivity. Qed.

Lemma loop_paused delta fr :
  isRunning (engine World fr) = true -> isPaused (engine World fr) = true ->
  loop World effect delta fr = perform RequestAnimationFrame fr.
Proof.
  intros H1 H2. unfold loop. rewrite H1. simpl negb. cbv iota zeta.
  simpl engine at 1. rewrite H2. reflexivity.
Qed.

(** For called code that acts on the world only: in a frame of a
    running engine that is not paused, the steps are called in exactly
    the order of [frameSteps].  ([loop] also schedules the next frame
    first, clears the input state between the pre-update hooks and the
    physics step, and runs the performance monitor last: see
    [frameCalls].) *)
Lemma loop_steps delta (fr : Frame) :
  isRunning (engine World fr) = true ->
  isPaused (engine World fr) = false ->
  List.filter isStep (drop (length (trace World fr)) (trace World (loop World effect delta fr)))
  = frameSteps delta (engine World fr).
Proof.
  intros Hrun Hpause.
  rewrite (loop_performAll delta fr Hrun Hpause). cbv zeta.
  rewrite performAll_trace. cbn [trace].
  rewrite drop_app_length, frameCalls_steps.
  reflexivity.
Qed.

End Facts.
End FrameFacts.

(** ** The frame, whatever the called code does *)

Module LiveFacts.
Import Cubie Live.

(** The points of a frame in program order: the statement, then the
    index of the outer iteration, then the index of the inner one. *)
Definition rank (point : Point) : nat * nat * nat :=
  match point with
  | Outside => (0, 0, 0)
  | Schedule => (1, 0, 0)
  | PreUpdateAt k => (2, k, 0)
  | InputStep => (3, 0, 0)
  | PhysicsStep => (4, 0, 0)
  | ParticlesStep => (5, 0, 0)
  | TweensStep => (6, 0, 0)
  | SystemAt index => (7, index, 0)
  | ScriptAt index k => (8, index, k)
  | PostUpdateAt k => (9, k, 0)
  | PreRenderAt k => (10, k, 0)
  | RenderStep => (11, 0, 0)
  | PostRenderAt k => (12, k, 0)
  | PerformanceStep => (13, 0, 0)
  end%nat.

Definition lex_lt (a b : nat * nat * nat) : Prop :=
  let '(p, i, k) := a in
  let '(q, j, m) := b in
  (p < q \/ (p = q /\ (i < j \/ (i = j /\ k < m))))%nat.

Definition lex_le (a b : nat * nat * nat) : Prop := a = b \/ lex_lt a b.

(** [a] comes strictly before [b] in the frame. *)
Definition before (a b : Point) : Prop := lex_lt (rank a) (rank b).


Ltac lex :=
  unfold before, lex_le, lex_lt in *;
  repeat match goal with
         | p : (nat * nat * nat)%type |- _ => destruct p as [[? ?] ?]
         end;
  cbn [fst snd] in *;
  repeat match goal with
         | H : _ \/ _ |- _ => destruct H
         | H : _ /\ _ |- _ => destruct H
         | H : (_, _) = (_, _) |- _ => inversion H; clear H; subst
         end;
  try lia.

Lemma lex_lt_trans a b c : lex_lt a b -> lex_lt b c -> lex_lt a c.
Proof. intros. lex. Qed.

Lemma lex_le_lt_trans a b c : lex_le a b -> lex_lt b c -> lex_lt a c.
Proof. intros [-> | H] H'; [exact H' | exact (lex_lt_trans _ _ _ H H')]. Qed.





Lemma concat_imap_singleton {A B} (f : nat -> A -> B) (l : list A) :
  concat (imap (fun j v => [f (0 + j)%nat v]) l) = imap f l.
Proof.
  revert f. induction l as [| x l IH]; intros f; [reflexivity |].
  cbn [imap concat app]. f_equal. exact (IH (f ∘ S)).
Qed.



Lemma In_concat_imap {A B} (F : nat -> A -> list B) (l : list A) j x (b : B) :
  l !! j = Some x -> In b (F j x) -> In b (concat (imap F l)).
Proof.
  revert F j. induction l as [| y l IH]; intros F j Hj Hb; [discriminate Hj |].
  cbn [imap concat]. apply in_app_iff. destruct j as [| j].
  - injection Hj as ->. left. exact Hb.
  - right. apply (IH (F ∘ S) j); assumption.
Qed.

(** *** The entry list of a [Map] *)

Lemma mapFind_lookup {V} key (m : MapData V) index :
  mapFind key m = Some index -> exists v, m !! index = Some (Some (key, v)).
Proof.
  revert index. induction m as [| entry m IH]; intros index H; [discriminate H |].
  cbn [mapFind] in H. destruct (holds key entry) eqn:Hh.
  - injection H as <-. destruct entry as [[key' v] |]; [| discriminate Hh].
    cbn in Hh. apply bool_decide_eq_true in Hh. subst key'. exists v. reflexivity.
  - destruct (mapFind key m) as [i |]; [| discriminate H]. injection H as <-.
    apply IH. reflexivity.
Qed.

Lemma mapFind_insert {V} key (v : V) (m : MapData V) index :
  mapFind key m = Some index -> mapFind key (<[index := Some (key, v)]> m) = Some index.
Proof.
  revert index. induction m as [| entry m IH]; intros index H; [discriminate H |].
  cbn [mapFind] in H. destruct (holds key entry) eqn:Hh.
  - injection H as <-. cbn. rewrite bool_decide_eq_true_2 by reflexivity. reflexivity.
  - destruct (mapFind key m) as [i |] eqn:Hf; [| discriminate H]. injection H as <-.
    pose proof (IH i eq_refl) as IH'.
    change (mapFind key (entry :: <[i := Some (key, v)]> m) = Some (S i)).
    cbn [mapFind]. rewrite Hh. unfold MapData in *. rewrite IH'. reflexivity.
Qed.

Lemma mapFind_append {V} key (v : V) (m : MapData V) :
  mapFind key m = None -> mapFind key (m ++ [Some (key, v)]) = Some (length m).
Proof.
  induction m as [| entry m IH]; intros H.
  - cbn. rewrite bool_decide_eq_true_2 by reflexivity. reflexivity.
  - cbn [mapFind] in H. destruct (holds key entry) eqn:Hh; [discriminate H |].
    destruct (mapFind key m) eqn:Hf; [discriminate H |].
    cbn. rewrite Hh, (IH eq_refl). reflexivity.
Qed.

(** [set] and [delete] on the entry list are [JSMap.set] and
    [JSMap.delete] on the entries that an iteration finds. *)
Lemma mapEntries_mapSet {V} key (v : V) (m : MapData V) :
  mapEntries (mapSet key v m) = JSMap.set key v (mapEntries m).
Proof.
  unfold mapSet. induction m as [| entry m IH].
  - reflexivity.
  - cbn [mapFind]. destruct (holds key entry) eqn:Hh.
    + destruct entry as [[key' v'] |]; [| discriminate Hh].
      cbn in Hh. apply bool_decide_eq_true in Hh. subst key'.
      cbn. destruct (decide (key = key)); [reflexivity | congruence].
    + assert (Htail : mapEntries (match S <$> mapFind key m with
                                  | Some index => <[index := Some (key, v)]> (entry :: m)
                                  | None => (entry :: m) ++ [Some (key, v)]
                                  end)
                      = match entry with
                        | Some e => e :: JSMap.set key v (mapEntries m)
                        | None => JSMap.set key v (mapEntries m)
                        end).
      { rewrite <- IH. destruct (mapFind key m); destruct entry; reflexivity. }
      etransitivity; [exact Htail |]. destruct entry as [[key' v'] |]; [| reflexivity].
      cbn in Hh. apply bool_decide_eq_false in Hh.
      cbn. destruct (decide (key' = key)); [congruence | reflexivity].
Qed.

Lemma mapEntries_mapDelete {V} key (m : MapData V) :
  mapEntries (mapDelete key m) = JSMap.delete key (mapEntries m).
Proof.
  unfold mapDelete. induction m as [| entry m IH].
  - reflexivity.
  - cbn [mapFind]. destruct (holds key entry) eqn:Hh.
    + destruct entry as [[key' v'] |]; [| discriminate Hh].
      cbn in Hh. apply bool_decide_eq_true in Hh. subst key'.
      cbn. destruct (decide (key = key)); [reflexivity | congruence].
    + assert (Htail : mapEntries (match S <$> mapFind key m with
                                  | Some index => <[index := None]> (entry :: m)
                                  | None => entry :: m
                                  end)
                      = match entry with
                        | Some e => e :: JSMap.delete key (mapEntries m)
                        | None => JSMap.delete key (mapEntries m)
                        end).
      { rewrite <- IH. destruct (mapFind key m); destruct entry; reflexivity. }
      etransitivity; [exact Htail |]. destruct entry as [[key' v'] |]; [| reflexivity].
      cbn in Hh. apply bool_decide_eq_false in Hh.
      cbn. destruct (decide (key' = key)); [congruence | reflexivity].
Qed.

(** After [set], the key is found at an entry that holds the value. *)
Lemma mapSet_found {V} key (v : V) (m : MapData V) :
  exists index, mapFind key (mapSet key v m) = Some index
                /\ mapSet key v m !! index = Some (Some (key, v)).
Proof.
  unfold mapSet. destruct (mapFind key m) as [index |] eqn:Hf; unfold MapData in *.
  - exists index. split; [apply mapFind_insert; exact Hf |].
    destruct (mapFind_lookup key m index Hf) as [v' Hv].
    apply list_lookup_insert_eq. apply lookup_lt_Some in Hv. exact Hv.
  - exists (length m). split; [apply mapFind_append; exact Hf |].
    rewrite lookup_app_r by lia. rewrite Nat.sub_diag. reflexivity.
Qed.

Lemma mapSet_lookup {V} key (v : V) (m : MapData V) :
  exists index, mapSet key v m !! index = Some (Some (key, v)).
Proof. destruct (mapSet_found key v m) as (index & _ & H). exists index. exact H. Qed.

Lemma mapGet_mapSet {V} key (v : V) (m : MapData V) : mapGet key (mapSet key v m) = Some v.
Proof.
  destruct (mapSet_found key v m) as (index & Hf & Hl). unfold mapGet. rewrite Hf.
  unfold MapData in *. rewrite Hl. reflexivity.
Qed.

Section Facts.
Variable World : Type.
Variable run : Call -> Registry -> World -> Outcome World.
(** The delta of the frame. *)
Variable delta : float.

Local Abbreviation Frame := (Frame World).
Local Abbreviation perform := (perform World run).
Local Abbreviation arrayForEach := (arrayForEach World).
Local Abbreviation mapForEach := (mapForEach World).



















(** *** The shape of a frame *)












(** *** The parts of the frame *)








(** *** After a throw nothing runs *)

Lemma perform_stopped point call fr :
  status World fr <> Running -> perform point call fr = fr.
Proof. intros H. unfold Live.perform. destruct (status World fr); congruence. Qed.





(** The frame after "Calculate delta time". *)
Definition frameBody (fuel : nat) (fr : Frame) : Frame :=
  let fr :=
    arrayForEach (fun r => preUpdate (hooks r))
      (fun k fn fr' =>
         perform (PreUpdateAt k) (PreUpdateHook fn (deltaTime (clock World fr'))) fr')
      (length (preUpdate (hooks (reg World fr)))) 0 fr in
  let fr := update World run fuel (deltaTime (clock World fr)) fr in
  let fr :=
    arrayForEach (fun r => postUpdate (hooks r))
      (fun k fn fr' =>
         perform (PostUpdateAt k) (PostUpdateHook fn (deltaTime (clock World fr'))) fr')
      (length (postUpdate (hooks (reg World fr)))) 0 fr in
  let fr :=
    arrayForEach (fun r => preRender (hooks r))
      (fun k fn fr' => perform (PreRenderAt k) (PreRenderHook fn) fr')
      (length (preRender (hooks (reg World fr)))) 0 fr in
  let fr := perform RenderStep Render fr in
  let fr :=
    arrayForEach (fun r => postRender (hooks r))
      (fun k fn fr' => perform (PostRenderAt k) (PostRenderHook fn) fr')
      (length (postRender (hooks (reg World fr)))) 0 fr in
  perform PerformanceStep PerformanceUpdate fr.

Lemma loop_frameBody fuel fr :
  loop World run fuel delta fr
  = if negb (isRunning (reg World fr)) then fr
    else
      let fr1 := perform Schedule RequestAnimationFrame fr in
      if isPaused (reg World fr1) then fr1 else frameBody fuel (tick World delta fr1).
Proof. reflexivity. Qed.





(** The clock after "Calculate delta time". *)
Definition ticked (c : Clock) : Clock :=
  mkClock (time c + delta) delta (S (frameCount c)).



Lemma loop_not_running fuel fr :
  isRunning (reg World fr) = false -> loop World run fuel delta fr = fr.
Proof. intros H. unfold loop. rewrite H. reflexivity. Qed.

Lemma loop_while_paused fuel fr :
  isRunning (reg World fr) = true ->
  isPaused (reg World (perform Schedule RequestAnimationFrame fr)) = true ->
  loop World run fuel delta fr = perform Schedule RequestAnimationFrame fr.
Proof. intros H1 H2. rewrite loop_frameBody, H1. cbn [negb]. cbv zeta. rewrite H2. reflexivity. Qed.

(** *** Called code that leaves the engine alone *)

(** No call changes what the engine holds, and none throws. *)
Definition quiet : Prop :=
  forall call r w,
    out_registry World (run call r w) = r /\ thrown World (run call r w) = false.

(** Making a list of calls one after the other. *)
Definition performAll (events : list (Point * Call)) (fr : Frame) : Frame :=
  fold_left (fun fr' e => perform (fst e) (snd e) fr') events fr.

Lemma performAll_events_app events1 events2 fr :
  performAll (events1 ++ events2) fr = performAll events2 (performAll events1 fr).
Proof. apply fold_left_app. Qed.

(** The called code runs in trace order, each call on the world the
    one before left. *)
Definition worldAfter (r : Registry) (events : list (Point * Call)) (w : World) : World :=
  fold_left (fun w' e => out_world World (run (snd e) r w')) events w.

Lemma performAll_quiet events fr :
  quiet -> status World fr = Running ->
  performAll events fr
  = mkFrame World (reg World fr) (clock World fr)
      (worldAfter (reg World fr) events (world World fr))
      (trace World fr ++ events) Running.
Proof.
  intros Hq. revert fr. induction events as [| [point call] events IH]; intros fr Hs.
  - cbn. rewrite app_nil_r, <- Hs. destruct fr; reflexivity.
  - cbn [performAll fold_left fst snd]. fold (performAll events).
    destruct (Hq call (reg World fr) (world World fr)) as [Hr Ht].
    assert (Hp : perform point call fr
                 = mkFrame World (reg World fr) (clock World fr)
                     (out_world World (run call (reg World fr) (world World fr)))
                     (trace World fr ++ [(point, call)]) Running).
    { unfold Live.perform. rewrite Hs, Hr, Ht. reflexivity. }
    rewrite Hp, IH by reflexivity. cbn [reg clock world trace].
    rewrite <- app_assoc. reflexivity.
Qed.

Lemma performAll_steady events fr :
  quiet -> status World fr = Running ->
  status World (performAll events fr) = Running
  /\ reg World (performAll events fr) = reg World fr
  /\ clock World (performAll events fr) = clock World fr.
Proof.
  intros Hq Hs. rewrite performAll_quiet by assumption. repeat split; reflexivity.
Qed.

(** The calls of an [Array.prototype.forEach] and of a
    [Map.prototype.forEach] on contents that do not change. *)
Lemma arrayForEach_quiet {A} (array : Registry -> list A)
  (callback : nat -> A -> Frame -> Frame) (g : nat -> A -> list (Point * Call)) r c :
  quiet ->
  (forall k v fr, status World fr = Running -> clock World fr = c -> reg World fr = r ->
                  callback k v fr = performAll (g k v) fr) ->
  forall rest k fr,
    status World fr = Running -> clock World fr = c -> reg World fr = r ->
    drop k (array r) = rest ->
    arrayForEach array callback (length rest) k fr
    = performAll (concat (imap (fun j v => g (k + j)%nat v) rest)) fr.
Proof.
  intros Hq Hcb. induction rest as [| v rest IH]; intros k fr Hs Hc Hr Hd; [reflexivity |].
  cbn [length Live.arrayForEach]. rewrite Hs, Hr.
  assert (Hk : array r !! k = Some v).
  { rewrite <- (Nat.add_0_r k), <- lookup_drop, Hd. reflexivity. }
  rewrite Hk, (Hcb k v fr Hs Hc Hr).
  cbn [imap concat]. rewrite performAll_events_app, Nat.add_0_r.
  rewrite (performAll_quiet (g k v) fr Hq Hs).
  assert (Hd' : drop (S k) (array r) = rest).
  { replace (S k) with (k + 1)%nat by lia. rewrite <- drop_drop, Hd. reflexivity. }
  match goal with
  | |- context [arrayForEach _ _ _ _ ?f] => rewrite (IH (S k) f eq_refl Hc Hr Hd')
  end.
  f_equal. f_equal. apply imap_ext. intros j x _. cbn. f_equal. lia.
Qed.

Lemma mapForEach_quiet {V} (map : Registry -> MapData V)
  (callback : nat -> string -> V -> Frame -> Frame)
  (g : nat -> string -> V -> list (Point * Call)) r c :
  quiet ->
  (forall index key v fr,
      status World fr = Running -> clock World fr = c -> reg World fr = r ->
      callback index key v fr = performAll (g index key v) fr) ->
  forall rest fuel index fr,
    status World fr = Running -> clock World fr = c -> reg World fr = r ->
    drop index (map r) = rest -> (length rest <= fuel)%nat ->
    mapForEach map callback fuel index fr
    = performAll
        (concat (imap (fun j entry =>
                         match entry with
                         | Some (key, v) => g (index + j)%nat key v
                         | None => []
                         end) rest)) fr.
Proof.
  intros Hq Hcb. induction rest as [| entry rest IH]; intros fuel index fr Hs Hc Hr Hd Hf.
  - assert (Hk : map r !! index = None).
    { pose proof (lookup_drop (map r) index 0) as H. rewrite Hd, Nat.add_0_r in H.
      symmetry. exact H. }
    destruct fuel; cbn [Live.mapForEach]; rewrite Hs, Hr, Hk; reflexivity.
  - assert (Hk : map r !! index = Some entry).
    { pose proof (lookup_drop (map r) index 0) as H. rewrite Hd, Nat.add_0_r in H.
      symmetry. exact H. }
    destruct fuel as [| fuel]; [cbn in Hf; lia |].
    cbn [Live.mapForEach]. rewrite Hs, Hr, Hk.
    cbn [imap concat]. rewrite performAll_events_app, Nat.add_0_r.
    set (events := match entry with Some (key, v) => g index key v | None => [] end).
    assert (Hvisit : match entry with
                     | Some (key, v) => callback index key v fr
                     | None => fr
                     end = performAll events fr).
    { unfold events. destruct entry as [[key v] |]; [apply Hcb; assumption | reflexivity]. }
    rewrite Hvisit, (performAll_quiet events fr Hq Hs).
    assert (Hd' : drop (S index) (map r) = rest).
    { replace (S index) with (index + 1)%nat by lia. rewrite <- drop_drop, Hd. reflexivity. }
    assert (Hf' : (length rest <= fuel)%nat) by (cbn in Hf; lia).
    match goal with
    | |- context [mapForEach _ _ _ _ ?f] => rewrite (IH fuel (S index) f eq_refl Hc Hr Hd' Hf')
    end.
    f_equal. f_equal. apply imap_ext. intros j x _. cbn.
    destruct x as [[key v] |]; [| reflexivity]. f_equal. lia.
Qed.

(** The calls of each part of a frame, for what the engine holds. *)
Definition hookEvents (point : nat -> Point) (hook : nat -> Call) (fns : list nat)
  : list (Point * Call) :=
  imap (fun k fn => (point k, hook fn)) fns.

Definition systemEvents (dt : float) (r : Registry) : list (Point * Call) :=
  concat
    (imap
       (fun index entry =>
          match entry with
          | Some (name, l) =>
              match System.enabled (objects r l), System.update (objects r l) with
              | Some true, Some fn => [(SystemAt index, SystemUpdate name fn dt)]
              | _, _ => []
              end
          | None => []
          end)
       (systems r)).

Definition scriptEvents (dt : float) (index : nat) (l : loc) (scripts : list Script.t)
  : list (Point * Call) :=
  concat
    (imap
       (fun k script =>
          match Script.update script with
          | Some fn => [(ScriptAt index k, ScriptUpdate fn dt l)]
          | None => []
          end)
       scripts).

Definition entityEvents (dt : float) (r : Registry) : list (Point * Call) :=
  concat
    (imap
       (fun index entry =>
          match entry with
          | Some (name, l) =>
              if Entity.enabled (store r l)
              then scriptEvents dt index l (Entity.scripts (store r l))
              else []
          | None => []
          end)
       (entities r)).

Definition bodyEvents (dt : float) (r : Registry) : list (Point * Call) :=
  hookEvents PreUpdateAt (fun fn => PreUpdateHook fn dt) (preUpdate (hooks r))
  ++ [(InputStep, InputUpdate dt); (PhysicsStep, PhysicsUpdate dt);
      (ParticlesStep, ParticlesUpdate dt); (TweensStep, TweensUpdate dt)]
  ++ systemEvents dt r
  ++ entityEvents dt r
  ++ hookEvents PostUpdateAt (fun fn => PostUpdateHook fn dt) (postUpdate (hooks r))
  ++ hookEvents PreRenderAt PreRenderHook (preRender (hooks r))
  ++ [(RenderStep, Render)]
  ++ hookEvents PostRenderAt PostRenderHook (postRender (hooks r))
  ++ [(PerformanceStep, PerformanceUpdate)].

(** Everything a frame calls when the engine does not change under
    it. *)
Definition frameEvents (dt : float) (r : Registry) : list (Point * Call) :=
  (Schedule, RequestAnimationFrame) :: bodyEvents dt r.

Lemma hooks_quiet (array : Registry -> list nat) (point : nat -> Point)
  (hook : nat -> float -> Call) fr :
  quiet -> status World fr = Running ->
  arrayForEach array
    (fun k fn fr' => perform (point k) (hook fn (deltaTime (clock World fr'))) fr')
    (length (array (reg World fr))) 0 fr
  = performAll
      (hookEvents point (fun fn => hook fn (deltaTime (clock World fr))) (array (reg World fr)))
      fr.
Proof.
  intros Hq Hs.
  rewrite (arrayForEach_quiet array _
             (fun k fn => [(point k, hook fn (deltaTime (clock World fr)))])
             (reg World fr) (clock World fr) Hq) with (rest := array (reg World fr));
    try reflexivity; try assumption.
  - f_equal. unfold hookEvents.
    exact (concat_imap_singleton
             (fun k fn => (point k, hook fn (deltaTime (clock World fr)))) _).
  - intros k v fr' _ Hc _. rewrite Hc. reflexivity.
Qed.

Lemma hooks_plain_quiet (array : Registry -> list nat) (point : nat -> Point)
  (hook : nat -> Call) fr :
  quiet -> status World fr = Running ->
  arrayForEach array (fun k fn fr' => perform (point k) (hook fn) fr')
    (length (array (reg World fr))) 0 fr
  = performAll (hookEvents point hook (array (reg World fr))) fr.
Proof.
  intros Hq Hs.
  rewrite (arrayForEach_quiet array _ (fun k fn => [(point k, hook fn)])
             (reg World fr) (clock World fr) Hq) with (rest := array (reg World fr));
    try reflexivity; try assumption.
  - f_equal. unfold hookEvents.
    exact (concat_imap_singleton (fun k fn => (point k, hook fn)) _).
Qed.

Lemma Entity_update_quiet dt index l fr :
  quiet -> status World fr = Running ->
  Entity_update World run dt index l fr
  = performAll (scriptEvents dt index l (Entity.scripts (store (reg World fr) l))) fr.
Proof.
  intros Hq Hs. unfold Entity_update.
  rewrite (arrayForEach_quiet (fun r => Entity.scripts (store r l)) _
             (fun k script =>
                match Script.update script with
                | Some fn => [(ScriptAt index k, ScriptUpdate fn dt l)]
                | None => []
                end)
             (reg World fr) (clock World fr) Hq)
    with (rest := Entity.scripts (store (reg World fr) l));
    try reflexivity; try assumption.
  intros k script fr' _ _ _. destruct (Script.update script); reflexivity.
Qed.

(** The fuel that suffices when the two [Map]s do not grow. *)
Definition entries (r : Registry) : nat :=
  Nat.max (length (systems r)) (length (entities r)).

Lemma update_quiet fuel dt fr :
  quiet -> status World fr = Running -> (entries (reg World fr) <= fuel)%nat ->
  update World run fuel dt fr
  = performAll
      ([(InputStep, InputUpdate dt); (PhysicsStep, PhysicsUpdate dt);
        (ParticlesStep, ParticlesUpdate dt); (TweensStep, TweensUpdate dt)]
       ++ systemEvents dt (reg World fr) ++ entityEvents dt (reg World fr)) fr.
Proof.
  intros Hq Hs Hf. unfold entries in Hf. unfold update. cbv zeta.
  rewrite !performAll_events_app.
  change (performAll [(InputStep, InputUpdate dt); (PhysicsStep, PhysicsUpdate dt);
                      (ParticlesStep, ParticlesUpdate dt); (TweensStep, TweensUpdate dt)] fr)
    with (perform TweensStep (TweensUpdate dt)
            (perform ParticlesStep (ParticlesUpdate dt)
               (perform PhysicsStep (PhysicsUpdate dt)
                  (perform InputStep (InputUpdate dt) fr)))).
  set (fr4 := perform TweensStep _ _).
  assert (H4 : fr4 = performAll [(InputStep, InputUpdate dt); (PhysicsStep, PhysicsUpdate dt);
                 (ParticlesStep, ParticlesUpdate dt); (TweensStep, TweensUpdate dt)] fr)
    by reflexivity.
  rewrite (performAll_quiet _ fr Hq Hs) in H4.
  assert (Hs4 : status World fr4 = Running) by (rewrite H4; reflexivity).
  assert (Hr4 : reg World fr4 = reg World fr) by (rewrite H4; reflexivity).
  rewrite (mapForEach_quiet systems _
             (fun index name l =>
                match System.enabled (objects (reg World fr) l),
                      System.update (objects (reg World fr) l) with
                | Some true, Some fn => [(SystemAt index, SystemUpdate name fn dt)]
                | _, _ => []
                end)
             (reg World fr) (clock World fr4) Hq)
    with (rest := systems (reg World fr)); try reflexivity; try assumption; [| | lia].
  2:{ intros index name l fr' _ _ Hr'. cbv zeta. rewrite Hr'.
      destruct (System.enabled (objects (reg World fr) l)) as [[|] |]; try reflexivity.
      destruct (System.update (objects (reg World fr) l)); reflexivity. }
  fold (systemEvents dt (reg World fr)).
  set (fr5 := performAll (systemEvents dt (reg World fr)) fr4).
  assert (H5 : fr5 = performAll (systemEvents dt (reg World fr)) fr4) by reflexivity.
  rewrite (performAll_quiet _ fr4 Hq Hs4) in H5.
  assert (Hs5 : status World fr5 = Running) by (rewrite H5; reflexivity).
  assert (Hr5 : reg World fr5 = reg World fr) by (rewrite H5; cbn [reg]; exact Hr4).
  rewrite (mapForEach_quiet entities _
             (fun index name l =>
                if Entity.enabled (store (reg World fr) l)
                then scriptEvents dt index l (Entity.scripts (store (reg World fr) l))
                else [])
             (reg World fr) (clock World fr5) Hq)
    with (rest := entities (reg World fr)); try reflexivity; try assumption; [| lia].
  intros index name l fr' Hs' _ Hr'. rewrite Hr'.
  destruct (Entity.enabled (store (reg World fr) l)); [| reflexivity].
  rewrite (Entity_update_quiet dt index l fr' Hq Hs'), Hr'. reflexivity.
Qed.

Lemma frameBody_quiet fuel fr :
  quiet -> status World fr = Running -> (entries (reg World fr) <= fuel)%nat ->
  frameBody fuel fr = performAll (bodyEvents (deltaTime (clock World fr)) (reg World fr)) fr.
Proof.
  intros Hq Hs Hf. unfold frameBody, bodyEvents. cbv zeta.
  set (dt := deltaTime (clock World fr)).
  rewrite !performAll_events_app.
  rewrite (hooks_quiet (fun r => preUpdate (hooks r)) PreUpdateAt PreUpdateHook fr Hq Hs).
  fold dt.
  set (fr1 := performAll (hookEvents PreUpdateAt _ _) fr).
  assert (H1 : status World fr1 = Running /\ reg World fr1 = reg World fr
               /\ clock World fr1 = clock World fr).
  { unfold fr1. rewrite performAll_quiet by assumption. repeat split; assumption. }
  destruct H1 as (Hs1 & Hr1 & Hc1).
  rewrite Hc1. fold dt.
  rewrite (update_quiet fuel dt fr1 Hq Hs1) by (rewrite Hr1; exact Hf).
  rewrite Hr1, !performAll_events_app.
  set (fr2 := performAll (entityEvents dt (reg World fr)) _).
  assert (H2 : status World fr2 = Running /\ reg World fr2 = reg World fr
               /\ clock World fr2 = clock World fr).
  { unfold fr2.
    destruct (performAll_steady [(InputStep, InputUpdate dt); (PhysicsStep, PhysicsUpdate dt);
                (ParticlesStep, ParticlesUpdate dt); (TweensStep, TweensUpdate dt)] fr1 Hq Hs1)
      as (Ha & Hb & Hc).
    destruct (performAll_steady (systemEvents dt (reg World fr)) _ Hq Ha) as (Ha' & Hb' & Hc').
    destruct (performAll_steady (entityEvents dt (reg World fr)) _ Hq Ha') as (Ha2 & Hb2 & Hc2).
    split; [exact Ha2 |]. split; congruence. }
  destruct H2 as (Hs2 & Hr2 & Hc2).
  rewrite (hooks_quiet (fun r => postUpdate (hooks r)) PostUpdateAt PostUpdateHook fr2 Hq Hs2).
  rewrite Hr2, Hc2. fold dt.
  set (fr3 := performAll (hookEvents PostUpdateAt _ _) fr2).
  assert (H3 : status World fr3 = Running /\ reg World fr3 = reg World fr).
  { unfold fr3. rewrite performAll_quiet by assumption. cbn [status reg]. split; auto. }
  destruct H3 as (Hs3 & Hr3).
  rewrite (hooks_plain_quiet (fun r => preRender (hooks r)) PreRenderAt PreRenderHook fr3 Hq Hs3).
  rewrite Hr3.
  set (fr4 := performAll (hookEvents PreRenderAt _ _) fr3).
  assert (H4 : status World fr4 = Running /\ reg World fr4 = reg World fr).
  { unfold fr4. rewrite performAll_quiet by assumption. cbn [status reg]. split; auto. }
  destruct H4 as (Hs4 & Hr4).
  change (perform RenderStep Render fr4) with (performAll [(RenderStep, Render)] fr4).
  set (fr5 := performAll [(RenderStep, Render)] fr4).
  assert (H5 : status World fr5 = Running /\ reg World fr5 = reg World fr).
  { unfold fr5. rewrite performAll_quiet by assumption. cbn [status reg]. split; auto. }
  destruct H5 as (Hs5 & Hr5).
  rewrite (hooks_plain_quiet (fun r => postRender (hooks r)) PostRenderAt PostRenderHook
             fr5 Hq Hs5).
  rewrite Hr5. reflexivity.
Qed.

(** A frame of quiet code, with fuel for every entry of the two
    [Map]s, runs to its end and makes exactly the calls of
    [frameEvents], in that order. *)
Lemma loop_quiet fuel fr :
  quiet -> status World fr = Running ->
  isRunning (reg World fr) = true -> isPaused (reg World fr) = false ->
  (entries (reg World fr) <= fuel)%nat ->
  loop World run fuel delta fr
  = mkFrame World (reg World fr) (ticked (clock World fr))
      (worldAfter (reg World fr) (frameEvents delta (reg World fr)) (world World fr))
      (trace World fr ++ frameEvents delta (reg World fr)) Running.
Proof.
  intros Hq Hs Hr Hp Hf. rewrite loop_frameBody, Hr. cbn [negb]. cbv zeta.
  change (perform Schedule RequestAnimationFrame fr)
    with (performAll [(Schedule, RequestAnimationFrame)] fr).
  rewrite (performAll_quiet _ fr Hq Hs). cbn [reg]. rewrite Hp.
  unfold tick. cbn [status reg clock world trace].
  rewrite frameBody_quiet; cbn [status reg clock deltaTime ticked]; try assumption;
    [| reflexivity].
  rewrite performAll_quiet by (try assumption; reflexivity).
  cbn [reg clock world trace]. unfold frameEvents, ticked.
  rewrite <- app_assoc. reflexivity.
Qed.

(** *** Called code that does not make the [Map]s longer *)











(** *** [system.disable] and [system.add] *)



(** What [system.add] registers: the object at [l] with its default,
    under [name]. *)
Definition registered (name : string) (l : loc) (r : Registry) : Registry :=
  let system := objects r l in
  with_objects (mapSet name l (systems r))
    (fun l' =>
       if Nat.eqb l' l
       then System.mk (Some (default true (System.enabled system))) (System.init system)
              (System.update system) (System.destroy system)
       else objects r l') r.

Lemma In_systemEvents dt r index name l fn :
  systems r !! index = Some (Some (name, l)) ->
  System.enabled (objects r l) = Some true ->
  System.update (objects r l) = Some fn ->
  In (SystemAt index, SystemUpdate name fn dt) (systemEvents dt r).
Proof.
  intros Hi He Hu. unfold systemEvents.
  apply (In_concat_imap _ _ index (Some (name, l))); [exact Hi |].
  rewrite He, Hu. left. reflexivity.
Qed.


(** X18: [system.add(name, system)] writes the default of [enabled]
    into the object, registers it under [name], tells the logger
    (which runs every [onLog] callback), and then, unless the logger
    call threw, calls the [init] the object has at that moment; it
    makes no other call.  If the called code leaves the engine alone:
    [init] is the one the object was given and is called exactly once,
    the system is in the [Map], and a system that has an [update] and
    was not added with [enabled === false] gets its [update] called by
    the next frame of a running engine that is not paused, with that
    frame's delta. *)
Theorem system_add_runs fuel (name : string) (l : loc) (fr : Frame) :
  status World fr = Running ->
  let system := objects (reg World fr) l in
  let message := ("System added: " ++ name)%string in
  let registered := registered name l (reg World fr) in
  let logged := run (LoggerDebug message) registered (world World fr) in
  let added := system_add World run name l fr in
  trace World added
  = trace World fr
    ++ (Outside, LoggerDebug message)
       :: (if thrown World logged then []
           else match System.init (objects (out_registry World logged) l) with
                | Some fn => [(Outside, SystemInit name fn)]
                | None => []
                end)
  /\ (quiet ->
      trace World added
      = trace World fr
        ++ (Outside, LoggerDebug message)
           :: match System.init system with
              | Some fn => [(Outside, SystemInit name fn)]
              | None => []
              end
      /\ reg World added = registered
      /\ status World added = Running
      /\ mapGet name (systems (reg World added)) = Some l
      /\ forall fn,
           System.update system = Some fn -> System.enabled system <> Some false ->
           isRunning (reg World fr) = true -> isPaused (reg World fr) = false ->
           (entries registered <= fuel)%nat ->
           trace World (loop World run fuel delta added)
           = trace World added ++ frameEvents delta registered
           /\ exists index,
               In (SystemAt index, SystemUpdate name fn delta) (frameEvents delta registered)).
Proof.
  intros Hs. cbv zeta.
  assert (Hadd : system_add World run name l fr
                 = let fr1 := perform Outside (LoggerDebug ("System added: " ++ name))
                                (with_reg World (registered name l (reg World fr)) fr) in
                   match System.init (objects (reg World fr1) l) with
                   | Some fn => perform Outside (SystemInit name fn) fr1
                   | None => fr1
                   end).
  { unfold system_add. rewrite Hs. reflexivity. }
  rewrite Hadd. cbv zeta. clear Hadd.
  set (r1 := registered name l (reg World fr)).
  set (message := ("System added: " ++ name)%string).
  assert (Hlog : perform Outside (LoggerDebug message) (with_reg World r1 fr)
                 = mkFrame World (out_registry World (run (LoggerDebug message) r1 (world World fr)))
                     (clock World fr)
                     (out_world World (run (LoggerDebug message) r1 (world World fr)))
                     (trace World fr ++ [(Outside, LoggerDebug message)])
                     (if thrown World (run (LoggerDebug message) r1 (world World fr))
                      then Threw else Running)).
  { unfold Live.perform, with_reg. cbn [status reg world trace clock]. rewrite Hs. reflexivity. }
  rewrite Hlog. cbn [reg].
  split.
  - destruct (thrown World (run (LoggerDebug message) r1 (world World fr))) eqn:Ht.
    + destruct (System.init _); [rewrite perform_stopped by (cbn; congruence) |]; reflexivity.
    + destruct (System.init _) as [fn |]; [| reflexivity].
      unfold Live.perform. cbn [status trace]. rewrite <- app_assoc. reflexivity.
  - intros Hq. destruct (Hq (LoggerDebug message) r1 (world World fr)) as [Hr1 Ht1].
    rewrite Hr1, Ht1.
    assert (Hinit : System.init (objects r1 l) = System.init (objects (reg World fr) l)).
    { unfold r1, registered, with_objects. cbn [objects]. rewrite Nat.eqb_refl. reflexivity. }
    rewrite Hinit.
    set (added := match System.init (objects (reg World fr) l) with
                  | Some fn => perform Outside (SystemInit name fn) _
                  | None => _
                  end).
    assert (Hadded : reg World added = r1 /\ status World added = Running
                     /\ trace World added
                        = trace World fr
                          ++ (Outside, LoggerDebug message)
                             :: match System.init (objects (reg World fr) l) with
                                | Some fn => [(Outside, SystemInit name fn)]
                                | None => []
                                end).
    { unfold added. destruct (System.init (objects (reg World fr) l)) as [fn |].
      - unfold Live.perform. cbn [status reg world trace].
        destruct (Hq (SystemInit name fn) r1
                    (out_world World (run (LoggerDebug message) r1 (world World fr))))
          as [Hr2 Ht2].
        rewrite Hr2, Ht2, <- app_assoc. repeat split; reflexivity.
      - repeat split; reflexivity. }
    destruct Hadded as (Hreg & Hst & Htr).
    split; [exact Htr |]. split; [exact Hreg |]. split; [exact Hst |].
    split.
    { rewrite Hreg. unfold r1, registered, with_objects. cbn [systems].
      apply mapGet_mapSet. }
    intros fn Hup Hen Hrun Hpause Hfuel.
    split.
    + rewrite loop_quiet; try assumption.
      * cbn [trace]. rewrite Hreg. reflexivity.
      * rewrite Hreg. exact Hrun.
      * rewrite Hreg. exact Hpause.
      * rewrite Hreg. exact Hfuel.
    + destruct (mapSet_lookup name l (systems (reg World fr))) as [index Hindex].
      exists index. unfold frameEvents. right. unfold bodyEvents.
      apply in_app_iff. right. apply in_app_iff. right. apply in_app_iff. left.
      apply (In_systemEvents delta r1 index name l fn).
      * exact Hindex.
      * unfold r1, registered, with_objects. cbn [objects]. rewrite Nat.eqb_refl. cbn.
        destruct (System.enabled (objects (reg World fr) l)) as [[|] |];
          [reflexivity | congruence | reflexivity].
      * unfold r1, registered, with_objects. cbn [objects]. rewrite Nat.eqb_refl. exact Hup.
Qed.

End Facts.
End LiveFacts.

(** ** The two frames agree on code that acts on the world only *)

Module LiveAgreement.
Import Cubie.

(** The engine of [Cubie.loop] as [Live.loop] sees it: every [Map]
    entry is present, and the system objects are numbered in [Map]
    order. *)
Definition registry (c : Cubie.t) : Live.Registry :=
  Live.mkRegistry
    (imap (fun index (entry : string * System.t) => Some (fst entry, index)) (systems c))
    (fun l => default (System.mk None None None None) (snd <$> systems c !! l))
    (map Some (entities c))
    (store c) (hooks c) (isRunning c) (isPaused c).

Lemma map_snd_imap {A} (point : nat -> Live.Point) (call : A -> Call) (l : list A) :
  map snd (imap (fun k v => (point k, call v)) l) = map call l.
Proof.
  revert point. induction l as [| v l IH]; intros point; [reflexivity |].
  cbn [imap map snd]. f_equal. exact (IH (point ∘ S)).
Qed.

Lemma concat_imap_flat_map {A B C} (F : nat -> A -> list (C * B)) (G : A -> list B)
  (l : list A) :
  (forall j x, l !! j = Some x -> map snd (F j x) = G x) ->
  map snd (concat (imap F l)) = flat_map G l.
Proof.
  revert F. induction l as [| x l IH]; intros F H; [reflexivity |].
  cbn [imap concat flat_map]. rewrite map_app. f_equal.
  - apply (H 0%nat). reflexivity.
  - apply IH. intros j y Hj. apply (H (S j)). exact Hj.
Qed.

Lemma imap_imap {A B C} (f : nat -> B -> C) (g : nat -> A -> B) (l : list A) :
  imap f (imap g l) = imap (fun j x => f j (g j x)) l.
Proof.
  revert f g. induction l as [| x l IH]; intros f g; [reflexivity |].
  cbn [imap]. f_equal. exact (IH (f ∘ S) (g ∘ S)).
Qed.

Lemma imap_map {A B C} (f : nat -> B -> C) (g : A -> B) (l : list A) :
  imap f (map g l) = imap (fun j x => f j (g x)) l.
Proof.
  revert f. induction l as [| x l IH]; intros f; [reflexivity |].
  cbn [imap map]. f_equal. exact (IH (f ∘ S)).
Qed.

(** The calls of a frame are the same in both. *)
Lemma frameEvents_frameCalls dt c :
  map snd (LiveFacts.frameEvents dt (registry c)) = FrameFacts.frameCalls dt c.
Proof.
  assert (Hsys : map snd (LiveFacts.systemEvents dt (registry c))
                 = FrameFacts.systemCalls dt (systems c)).
  { unfold LiveFacts.systemEvents, FrameFacts.systemCalls.
    cbn [registry Live.systems Live.objects].
    rewrite imap_imap. apply concat_imap_flat_map. intros j [name sys] Hj.
    cbn [fst snd]. unfold loc in *. rewrite Hj. cbn.
    destruct (System.enabled sys) as [[|] |]; try reflexivity.
    destruct (System.update sys); reflexivity. }
  assert (Hent : map snd (LiveFacts.entityEvents dt (registry c))
                 = FrameFacts.entityCalls dt c).
  { unfold LiveFacts.entityEvents, FrameFacts.entityCalls.
    cbn [registry Live.entities Live.store].
    rewrite imap_map. apply concat_imap_flat_map. intros j [name l] Hj. cbn [snd].
    destruct (Entity.enabled (store c l)); [| reflexivity].
    unfold LiveFacts.scriptEvents, FrameFacts.scriptCalls.
    apply concat_imap_flat_map. intros k script Hk.
    destruct (Script.update script); reflexivity. }
  unfold LiveFacts.frameEvents, LiveFacts.bodyEvents, FrameFacts.frameCalls.
  cbn [map snd app]. f_equal.
  repeat (rewrite !map_app; cbn [map snd app]).
  unfold LiveFacts.hookEvents. rewrite !map_snd_imap, Hsys, Hent. reflexivity.
Qed.

Section Agreement.
Variable World : Type.
Variable effect : Call -> World -> World.

(** Called code that acts on the world only. *)
Definition worldOnly (call : Call) (r : Live.Registry) (w : World) : Live.Outcome World :=
  Live.mkOutcome World r (effect call w) false.

Lemma worldOnly_quiet : LiveFacts.quiet World worldOnly.
Proof. intros call r w. split; reflexivity. Qed.

Definition clock (c : Cubie.t) : Live.Clock :=
  Live.mkClock (time c) (deltaTime c) (frameCount c).

Definition live (fr : Frame World) : Live.Frame World :=
  Live.mkFrame World (registry (engine World fr)) (clock (engine World fr)) (world World fr) []
    Live.Running.

Lemma worldAfter_fold r events w :
  LiveFacts.worldAfter World worldOnly r events w
  = fold_left (fun w' call => effect call w') (map snd events) w.
Proof.
  unfold LiveFacts.worldAfter. revert w.
  induction events as [| e events IH]; intros w; [reflexivity |]. cbn. apply IH.
Qed.

(** [Cubie.loop] is [Live.loop] for called code that acts on the world
    only: the same calls in the same order, the same world and the same
    clock. *)
Lemma loop_agrees fuel delta (fr : Frame World) :
  (LiveFacts.entries (registry (engine World fr)) <= fuel)%nat ->
  let old := loop World effect delta fr in
  let new := Live.loop World worldOnly fuel delta (live fr) in
  trace World old = trace World fr ++ map snd (Live.trace World new)
  /\ world World old = Live.world World new
  /\ clock (engine World old) = Live.clock World new
  /\ registry (engine World old) = Live.reg World new
  /\ Live.status World new = Live.Running.
Proof.
  intros Hf. cbv zeta.
  destruct (isRunning (engine World fr)) eqn:Hr.
  - destruct (isPaused (engine World fr)) eqn:Hp.
    + rewrite (FrameFacts.loop_paused World effect delta fr Hr Hp).
      rewrite (LiveFacts.loop_while_paused World worldOnly delta fuel (live fr));
        [| exact Hr | exact Hp].
      repeat split; reflexivity.
    + rewrite (FrameFacts.loop_performAll World effect delta fr Hr Hp). cbv zeta.
      rewrite (LiveFacts.loop_quiet World worldOnly delta fuel (live fr) worldOnly_quiet
                 eq_refl Hr Hp Hf).
      cbn [Live.trace Live.world Live.clock Live.reg Live.status live app].
      rewrite FrameFacts.performAll_trace, FrameFacts.performAll_world,
        FrameFacts.performAll_engine.
      cbn [trace world engine]. rewrite worldAfter_fold, frameEvents_frameCalls.
      repeat split; reflexivity.
  - rewrite (FrameFacts.loop_stopped World effect delta fr Hr).
    rewrite (LiveFacts.loop_not_running World worldOnly delta fuel (live fr)) by exact Hr.
    cbn. rewrite app_nil_r. repeat split; reflexivity.
Qed.

End Agreement.
End LiveAgreement.

(** ** Zero rate and zero duration *)

Module EdgeCases.
Import TweenSystem.

(** [createEmitter] itself never makes a zero-rate emitter: [options.rate
    || 10] replaces a zero rate by the default. *)
Lemma createEmitter_rate_zero mode options :
  ParticleSystem.opt_rate options = Some 0 ->
  ParticleSystem.rate (ParticleSystem.createEmitter mode options) = 10.
Proof. intros H. unfold ParticleSystem.createEmitter. simpl. rewrite H. reflexivity. Qed.






End EdgeCases.

(** ** Concrete instances *)

(** A running 3D engine with one hook of each kind, an enabled and a
    disabled system, an enabled entity with two scripts (the second has
    no [update]) and a disabled entity with one script. *)
Definition sampleEngine : Cubie.t :=
  Cubie.mk Mode3D true false 0 0 0%nat
    [("hero"%string, 0%nat); ("ghost"%string, 1%nat)]
    [("ai"%string, System.mk (Some true) None (Some 10%nat) None);
     ("idle"%string, System.mk (Some false) None (Some 11%nat) None)]
    ∅ []
    (Cubie.mkHooks [1%nat] [2%nat] [3%nat] [4%nat])
    (fun l =>
       match l with
       | O => Entity.mk "hero" None true true
                [Script.mk None (Some 20%nat); Script.mk (Some 21%nat) None] 0 0
       | S _ => Entity.mk "ghost" None false true [Script.mk None (Some 22%nat)] 0 0
       end)
    2%nat
    EventEmitter.new.

(** *** Frames of called code that acts on the engine *)

Module LiveExamples.
Import Cubie Live LiveFacts.

Definition updating (fn : nat) : System.t := System.mk (Some true) None (Some fn) None.

Definition scripted (name : string) (fn : nat) : Entity.t :=
  Entity.mk name None true true [Script.mk None (Some fn)] 0 0.

(** Two systems, two entities with one script each, and three hooks. *)
Definition sampleRegistry : Registry :=
  mkRegistry
    [Some ("spawner"%string, 0%nat); Some ("ai"%string, 1%nat)]
    (fun l => match l with
              | O => updating 10
              | 1%nat => updating 11
              | _ => System.mk None None (Some 12%nat) None
              end)
    [Some ("coin"%string, 5%nat); Some ("hero"%string, 6%nat)]
    (fun l => match l with
              | 5%nat => scripted "coin" 20
              | _ => scripted "hero" 21
              end)
    (mkHooks [1%nat] [2%nat] [] [3%nat])
    true false.

(** The world counts the calls. *)
Definition sampleFrame : Frame nat :=
  mkFrame nat sampleRegistry (mkClock 0 0 0) 0%nat [] Running.

Definition deleteEntity (name : string) (r : Registry) : Registry :=
  mkRegistry (systems r) (objects r) (mapDelete name (entities r)) (store r) (hooks r)
    (isRunning r) (isPaused r).

(** Called code that acts on the engine: the physics step removes the
    entity [coin] (a collision listener that destroys what it hits);
    the [update] of [spawner] disables [ai] and registers the system
    object 2 under [late]. *)
Definition busy (call : Call) (r : Registry) (w : nat) : Outcome nat :=
  match call with
  | PhysicsUpdate _ => mkOutcome nat (deleteEntity "coin" r) (S w) false
  | SystemUpdate "spawner" _ _ =>
      mkOutcome nat (registered "late" 2%nat (system_disable "ai" r)) (S w) false
  | _ => mkOutcome nat r (S w) false
  end.

(** In that frame [ai] and the script of [coin] are not called, and
    [late] is called in the frame in which it is added. *)
Lemma frame_of_busy_code :
  map snd (trace nat (loop nat busy 10 1 sampleFrame))
  = [RequestAnimationFrame; PreUpdateHook 1 1; InputUpdate 1; PhysicsUpdate 1;
     ParticlesUpdate 1; TweensUpdate 1; SystemUpdate "spawner" 10 1; SystemUpdate "late" 12 1;
     ScriptUpdate 21 1 6%nat; PostUpdateHook 2 1; Render; PostRenderHook 3;
     PerformanceUpdate]
  /\ status nat (loop nat busy 10 1 sampleFrame) = Running
  /\ world nat (loop nat busy 10 1 sampleFrame) = 13%nat.
Proof. vm_compute. repeat split; reflexivity. Qed.

(** Called code that throws in the tween step: the frame ends there. *)
Definition failing (call : Call) (r : Registry) (w : nat) : Outcome nat :=
  match call with
  | TweensUpdate _ => mkOutcome nat r (S w) true
  | _ => mkOutcome nat r (S w) false
  end.

Lemma frame_of_failing_code :
  map snd (trace nat (loop nat failing 10 1 sampleFrame))
  = [RequestAnimationFrame; PreUpdateHook 1 1; InputUpdate 1; PhysicsUpdate 1;
     ParticlesUpdate 1; TweensUpdate 1]
  /\ status nat (loop nat failing 10 1 sampleFrame) = Threw.
Proof. vm_compute. split; reflexivity. Qed.

(** A system whose [update] registers itself once more each time it is
    called: the [forEach] over the systems never ends. *)
Definition breeding (call : Call) (r : Registry) (w : nat) : Outcome nat :=
  match call with
  | SystemUpdate _ _ _ =>
      mkOutcome nat
        (with_objects (systems r ++ [Some ("more"%string, 0%nat)]) (objects r) r) (S w) false
  | _ => mkOutcome nat r (S w) false
  end.

Lemma frame_of_breeding_code :
  status nat (loop nat breeding 10 1 sampleFrame) = OutOfFuel
  /\ status nat (loop nat breeding 1000 1 sampleFrame) = OutOfFuel.
Proof. vm_compute. split; reflexivity. Qed.

(** Called code that leaves the engine alone. *)
Definition counting (call : Call) (r : Registry) (w : nat) : Outcome nat :=
  mkOutcome nat r (S w) false.

Lemma counting_quiet : quiet nat counting.
Proof. intros call r w. split; reflexivity. Defined.

(** A logger callback that throws: [system.add] ends there, and the
    [init] of the system is not called. *)
Definition deafLogger (call : Call) (r : Registry) (w : nat) : Outcome nat :=
  match call with
  | LoggerDebug _ => mkOutcome nat r (S w) true
  | _ => mkOutcome nat r (S w) false
  end.

Definition withInit : Registry :=
  with_objects (systems sampleRegistry)
    (fun l => match l with
              | 2%nat => System.mk None (Some 7%nat) (Some 12%nat) None
              | _ => objects sampleRegistry l
              end) sampleRegistry.

Lemma system_add_logger_throws :
  let added := system_add nat deafLogger "late" 2%nat (with_reg nat withInit sampleFrame) in
  map snd (trace nat added) = [LoggerDebug "System added: late"]
  /\ status nat added = Threw
  /\ mapGet "late" (systems (reg nat added)) = Some 2%nat.
Proof. vm_compute. repeat split; reflexivity. Qed.

End LiveExamples.


(** A target object [{ x: 0 }] at every location. *)
Definition sampleTargets : TweenSystem.Targets := fun _ => {["x"%string := 0]}.

(** A step that brings [elapsed] to 1, and a step of 3 seconds taken at
    [elapsed = 1], which overshoots the duration. *)
Lemma tween_linear_0_10_2_witness :
  TweenSystem.prop
    (TweenSystem.targets
       (TweenSystem.update 1
          (TweenSystem.mk [TweenFacts.tween_0_10 0%nat None (Some 7%nat) 0] sampleTargets [])) 0%nat)
    "x" = 5
  /\ (let s' := TweenSystem.update 3
                  (TweenSystem.mk [TweenFacts.tween_0_10 0%nat None (Some 7%nat) 1]
                     sampleTargets []) in
      TweenSystem.prop (TweenSystem.targets s' 0%nat) "x" = 10
      /\ TweenSystem.tweens s' = []
      /\ TweenSystem.completions (TweenSystem.calls s') = [(7%nat, 0%nat)]).
Proof.
  split.
  - apply (proj1 (TweenFacts.tween_linear_0_10_2 0%nat None 7%nat sampleTargets [] 0 1)).
    reflexivity.
  - destruct (TweenFacts.tween_linear_0_10_2 0%nat None 7%nat sampleTargets [] 1 3)
      as (_ & H & _).
    destruct (H eq_refl) as (H1 & H2 & H3 & _).
    split; [exact H1 |]. split; [exact H2 | exact H3].
Defined.

Lemma create_existing_name_replaces_witness :
  Cubie.entity.get "hero" (snd RegistryFacts.heroAgain) = Some 1%nat.
Proof.
  pose proof (RegistryFacts.create_existing_name_replaces (fun _ => []) "hero"
                (Entity.mkConfig None None None (Some 7) None None)
                RegistryFacts.heroEngine 0%nat eq_refl) as H.
  unfold RegistryFacts.heroAgain.
  destruct (Cubie.entity.create _ _ _ _) as [result c'].
  destruct H as (_ & H & _). exact H.
Defined.


(** A body bounded by [-5..5] on [x] and [z], moving along [x] at 10
    units per second. *)
Definition boundedBody : Body.t :=
  PhysicsSystem.makeBody 0%nat
    (PhysicsSystem.mkConfig (Some (Vec3.mk 10 0 0)) None None (Some false) None None None
       None None None (Some (Body.mkBounds (-5) 5 None None (-5) 5))).

Lemma bounds_clamp_x_and_z_witness :
  Vec3.x (position_get
            (snd (PhysicsSystem.integrate (PhysicsSystem.gravity PhysicsSystem.new) 1
                    boundedBody (PhysicsFacts.storeAt 100))) 0%nat) = 5.
Proof.
  pose proof (PhysicsFacts.bounds_clamp_x_and_z
                (PhysicsSystem.gravity PhysicsSystem.new) 1 boundedBody
                (Body.mkBounds (-5) 5 None None (-5) 5) (PhysicsFacts.storeAt 100)
                eq_refl eq_refl eq_refl eq_refl) as H.
  vm_compute in H. destruct H as (H & _).
  apply (f_equal (fun e => Vec3.x (Entity.position_get e))) in H.
  exact H.
Defined.



(** * Further properties *)

(** ** PhysicsSystem: further properties *)

Module PhysicsMore.
Import PhysicsSystem.

Lemma or_truthy (v d : float) : JS.ToBoolean d = true -> JS.ToBoolean (JS.or v d) = true.
Proof. intros Hd. unfold JS.or. destruct (JS.ToBoolean v) eqn:Hv; assumption. Qed.

Lemma or_undef_truthy (v : option float) (d : float) :
  JS.ToBoolean d = true -> JS.ToBoolean (JS.or_undef v d) = true.
Proof. intros Hd. destruct v; simpl; [apply or_truthy |]; exact Hd. Qed.

(** A truthy number is neither a zero nor NaN. *)
Lemma truthy_number (v : float) :
  JS.ToBoolean v = true -> (v =? 0) = false /\ JS.isNaN v = false.
Proof.
  unfold JS.ToBoolean. intros H. apply negb_true_iff, orb_false_iff in H. exact H.
Qed.

(** X1: [addBody] never stores a zero or NaN [mass], [restitution],
    [friction], [drag] or [radius]: such a setting is replaced by the
    default, so [applyForce] never divides by zero on a body it made
    (and a restitution, friction or drag of 0 cannot be configured). *)
Theorem makeBody_numbers (entity : loc) (config : Config) :
  let body := makeBody entity config in
  ((Body.mass body =? 0) = false /\ JS.isNaN (Body.mass body) = false)
  /\ JS.ToBoolean (Body.restitution body) = true
  /\ JS.ToBoolean (Body.friction body) = true
  /\ JS.ToBoolean (Body.drag body) = true
  /\ JS.ToBoolean (Body.radius body) = true
  /\ (cfg_restitution config = Some 0 -> Body.restitution body = 0.5)
  /\ (cfg_friction config = Some 0 -> Body.friction body = 0.5)
  /\ (cfg_drag config = Some 0 -> Body.drag body = 0.01).
Proof.
  cbv zeta. unfold makeBody. simpl.
  split; [apply truthy_number, or_undef_truthy; reflexivity |].
  repeat (split; [apply or_undef_truthy; reflexivity |]).
  repeat split; intros ->; reflexivity.
Qed.

Lemma filter_keep_all {A} (p : A -> bool) (l : list A) :
  (forall a, In a l -> p a = true) -> List.filter p l = l.
Proof.
  induction l as [| a l IH]; simpl; intros H; [reflexivity |].
  rewrite (H a) by (left; reflexivity). rewrite IH; [reflexivity |].
  intros b Hb. apply H. right. exact Hb.
Qed.

(** X2: [removeBody] after [addBody] on an entity that had no body
    gives back the physics system as it was. *)
Theorem removeBody_addBody (entity : loc) (config : Config) (p : t) :
  (forall b, In b (bodies p) -> Body.entity b <> entity) ->
  removeBody entity (addBody entity config p) = p.
Proof.
  intros Hfresh. unfold removeBody, addBody. simpl.
  rewrite List.filter_app. simpl. rewrite Nat.eqb_refl. simpl. rewrite app_nil_r.
  rewrite filter_keep_all.
  - destruct p; reflexivity.
  - intros b Hb. apply negb_true_iff, Nat.eqb_neq, Hfresh, Hb.
Qed.

(** *** The ground plane *)

Lemma or_zero_not_negative (p : float) : (p <? 0) = false -> (JS.or p 0 <? 0) = false.
Proof.
  intros H. unfold JS.or. destruct (JS.ToBoolean p); [exact H | reflexivity].
Qed.

(** The last [position.set] of the callback writes the local [pos] as it
    is after the "Bounds collision" block. *)
Lemma integrate_stored gravity dt body s :
  Body.isStatic body = false ->
  exists pos3 : Vec3.t,
    snd (integrate gravity dt body s) (Body.entity body)
    = Entity.position_set pos3 (s (Body.entity body))
    /\ (Vec3.y pos3 <? 0) = false.
Proof.
  intros Hdyn. rewrite PhysicsFacts.integrate_dynamic by exact Hdyn. cbv zeta.
  set (v := applyDrag _ _). set (pos := updatePosition _ _ _).
  pose proof (PhysicsFacts.groundCollision_store body pos v s) as Hs.
  assert (Hy : let '(pos2, _, _) :=
                 groundCollision body pos v (position_set (Body.entity body) pos s) in
               (Vec3.y pos2 <? 0) = false).
  { unfold groundCollision. destruct (Vec3.y pos <? 0) eqn:Hneg; [reflexivity | exact Hneg]. }
  destruct (groundCollision _ _ _ _) as [[pos2 v2] s2].
  unfold boundsCollision. destruct (Body.bounds body) as [bd |].
  - destruct (clampAxis _ _ _ (Vec3.x pos2) _) as [px vx].
    destruct (clampAxis _ _ _ (Vec3.z pos2) _) as [pz vz]. simpl.
    exists (Vec3.mk px (Vec3.y pos2) pz). split; [| exact Hy].
    rewrite PhysicsFacts.position_set_same, Hs.
    apply PhysicsFacts.Entity_position_set_set.
  - simpl. exists pos2. split; [exact Hs | exact Hy].
Qed.

(** X3: after its integration a dynamic body's entity is never below
    the ground plane: its stored height is not negative. *)
Theorem integrate_above_ground gravity dt (body : Body.t) (s : Store) :
  Body.isStatic body = false ->
  (Vec3.y (position_get (snd (integrate gravity dt body s)) (Body.entity body)) <? 0) = false.
Proof.
  intros Hdyn. destruct (integrate_stored gravity dt body s Hdyn) as (pos3 & Hs & Hy).
  unfold position_get. rewrite Hs, PhysicsFacts.position_get_set_y.
  apply or_zero_not_negative, Hy.
Qed.

(** *** Which entities a step can move *)

Lemma position_set_other l l' pos s : l' <> l -> position_set l pos s l' = s l'.
Proof.
  intros Hne. unfold position_set, store_set.
  destruct (Nat.eqb l' l) eqn:Heq; [| reflexivity].
  apply Nat.eqb_eq in Heq. contradiction.
Qed.

Definition mayMove (l : loc) (b : Body.t) : Prop :=
  Body.isStatic b = false /\ Body.entity b = l.

Lemma integrate_other gravity dt body s l :
  ~ mayMove l body -> snd (integrate gravity dt body s) l = s l.
Proof.
  intros Hno. unfold integrate. destruct (Body.isStatic body) eqn:Hst; [reflexivity |].
  assert (Hne : l <> Body.entity body).
  { intros ->. apply Hno. split; [exact Hst | reflexivity]. }
  cbv zeta. unfold groundCollision.
  destruct (Vec3.y _ <? 0); unfold boundsCollision;
    destruct (Body.bounds body) as [bd |];
    repeat match goal with
           | |- context [clampAxis ?a ?b ?c ?d ?e] => destruct (clampAxis a b c d e)
           end;
    simpl; rewrite ?position_set_other by exact Hne; reflexivity.
Qed.

Lemma integrate_shape gravity dt body s :
  Body.entity (fst (integrate gravity dt body s)) = Body.entity body
  /\ Body.isStatic (fst (integrate gravity dt body s)) = Body.isStatic body.
Proof.
  unfold integrate. destruct (Body.isStatic body) eqn:Hst; [split; [reflexivity | exact Hst] |].
  cbv zeta. destruct (groundCollision _ _ _ _) as [[pos2 v2] s2].
  destruct (boundsCollision _ _ _ _) as [[pos3 v3] s3]. simpl. split; [reflexivity | exact Hst].
Qed.

Lemma integrateAll_other gravity dt bs s l :
  Forall (fun b => ~ mayMove l b) bs ->
  snd (integrateAll gravity dt bs s) l = s l
  /\ Forall (fun b => ~ mayMove l b) (fst (integrateAll gravity dt bs s)).
Proof.
  intros H. revert s. induction H as [| b bs Hb Hbs IH]; intros s; simpl.
  - split; [reflexivity | constructor].
  - pose proof (integrate_other gravity dt b s l Hb) as Hs1.
    pose proof (integrate_shape gravity dt b s) as [He Hst].
    destruct (integrate gravity dt b s) as [b' s1]. simpl in *.
    destruct (IH s1) as [Hs2 Hall].
    destruct (integrateAll gravity dt bs s1) as [bs' s2]. simpl in *.
    split; [congruence |].
    constructor; [| exact Hall].
    unfold mayMove in *. rewrite He, Hst. exact Hb.
Qed.

Section Collisions.
Variable body : nat -> list EventEmitter.Action.

Lemma checkCollision_other bodyA bodyB st l :
  ~ mayMove l bodyA -> ~ mayMove l bodyB ->
  fst (checkCollision body bodyA bodyB st) l = fst st l.
Proof.
  intros HA HB. destruct st as [s ev]. unfold checkCollision. cbv zeta.
  destruct (colliding _ _); [| reflexivity]. simpl.
  destruct (Body.isStatic bodyB) eqn:HsB, (Body.isStatic bodyA) eqn:HsA;
    rewrite ?position_set_other; try reflexivity;
    intros ->;
    first [ solve [apply HA; split; [assumption | reflexivity]]
          | solve [apply HB; split; [assumption | reflexivity]] ].
Qed.

Lemma fold_checkCollision_other bodyA rest st l :
  ~ mayMove l bodyA -> Forall (fun b => ~ mayMove l b) rest ->
  fst (fold_left (fun st' bodyB => checkCollision body bodyA bodyB st') rest st) l
  = fst st l.
Proof.
  intros HA H. revert st. induction H as [| b rest Hb _ IH]; intros st; simpl.
  - reflexivity.
  - rewrite IH. apply checkCollision_other; assumption.
Qed.

Lemma detectCollisions_other bs st l :
  Forall (fun b => ~ mayMove l b) bs ->
  fst (detectCollisions body bs st) l = fst st l.
Proof.
  intros H. revert st. induction H as [| b bs Hb Hbs IH]; intros st; simpl.
  - reflexivity.
  - rewrite IH. apply fold_checkCollision_other; assumption.
Qed.

(** X4: a whole physics step, collision response included, leaves
    every entity as it is that is not the entity of a dynamic body; in
    particular a scene of static bodies is never moved.  (The listeners
    of the collision event act on the emitter only.) *)
Theorem update_moves_only_dynamic dt (p : t) (st : Store * EventEmitter.t Payload) (l : loc) :
  (forall b, In b (bodies p) -> Body.isStatic b = false -> Body.entity b <> l) ->
  fst (snd (update body dt p st)) l = fst st l.
Proof.
  intros H.
  assert (Hall : Forall (fun b => ~ mayMove l b) (bodies p)).
  { apply List.Forall_forall. intros b Hb [Hst He]. exact (H b Hb Hst He). }
  unfold update. destruct (enabled p); simpl; [| reflexivity].
  destruct (integrateAll_other (gravity p) dt (bodies p) (fst st) l Hall) as [Hs Hall'].
  destruct (integrateAll (gravity p) dt (bodies p) (fst st)) as [bs' s1]. simpl in *.
  rewrite detectCollisions_other by exact Hall'. exact Hs.
Qed.

End Collisions.

End PhysicsMore.

(** ** ParticleSystem: further properties *)

Module ParticleMore.
Import ParticleSystem.

Section Facts.
Variable random : nat -> float.
Variable mode : Mode.

(** More rounds than the loop makes change nothing. *)
Lemma spawnLoop_more fuel extra k e :
  spawning (fst (spawnLoop random fuel k e)) = false ->
  spawnLoop random (fuel + extra) k e = spawnLoop random fuel k e.
Proof.
  revert k e. induction fuel as [| fuel IH]; intros k e Hexit; simpl in *.
  - destruct extra as [| extra]; simpl; [reflexivity |]. rewrite Hexit. reflexivity.
  - destruct (spawning e) eqn:Hs; [| reflexivity].
    apply IH. exact Hexit.
Qed.

(** X5: the [while] loop of a step ends.  For a cap below the largest
    array length (a fractional, negative or NaN cap included) it makes
    at most [n - particles.length] rounds, where [n] is the least length
    that is not below [maxParticles]: run with that many rounds or with
    any larger number, it gives the same emitter, in which the loop
    condition is false. *)
Theorem spawnLoop_terminates fuel k (e : Emitter) :
  ParticleFacts.arrayCap e ->
  (spawnFuel e <= fuel)%nat ->
  spawnLoop random fuel k e = spawn random k e
  /\ spawning (fst (spawn random k e)) = false
  /\ JS.length_ltb (JS.lengthsBelow (maxParticles e)) (maxParticles e) = false.
Proof.
  intros Hcap Hfuel. split; [| split].
  - replace fuel with (spawnFuel e + (fuel - spawnFuel e))%nat by lia.
    apply spawnLoop_more. apply ParticleFacts.spawn_exits, Hcap.
  - apply ParticleFacts.spawn_exits, Hcap.
  - apply LengthFacts.length_ltb_above; [lia | exact Hcap].
Qed.

Lemma omap_age_alive dt (ps : list Particle.t) :
  Forall (fun p => (Particle.life p <=? 0) = false) (omap (age dt) ps).
Proof.
  induction ps as [| p ps IH]; csimpl; [constructor |].
  unfold age at 1. destruct (Particle.life p - dt <=? 0) eqn:Hl; csimpl; [exact IH |].
  constructor; [exact Hl | exact IH].
Qed.

(** X6: after a step every particle in the pool of an enabled emitter
    has life left: a particle whose life has reached zero (or below) is
    gone. *)
Theorem updateEmitter_alive dt k (e : Emitter) :
  enabled e = true ->
  Forall (fun p => (Particle.life p <=? 0) = false)
    (particles (fst (updateEmitter random mode dt k e))).
Proof.
  intros He. rewrite ParticleFacts.updateEmitter_particles by exact He.
  apply omap_age_alive.
Qed.

Lemma spawnLoop_system fuel k e :
  system (fst (spawnLoop random fuel k e)) = system e.
Proof.
  revert k e. induction fuel as [| fuel IH]; intros k e; simpl; [reflexivity |].
  destruct (spawning e); [| reflexivity].
  rewrite IH. reflexivity.
Qed.

Lemma positions_length (ps : list Particle.t) :
  length (positions ps) = (3 * length ps)%nat.
Proof.
  unfold positions. induction ps as [| p ps IH]; simpl; [reflexivity |].
  rewrite IH. lia.
Qed.

End Facts.

(** X7: in 3D mode a step hands the renderer the positions of exactly
    the particles left in the pool: three numbers each, in pool
    order. *)
Theorem updateEmitter_buffer random dt k (e : Emitter) (buffer : list float) :
  enabled e = true -> system e = Some buffer ->
  let e' := fst (updateEmitter random Mode3D dt k e) in
  system e' = Some (positions (particles e'))
  /\ (forall buffer', system e' = Some buffer' ->
      length buffer' = (3 * length (particles e'))%nat).
Proof.
  intros He Hsys. cbv zeta.
  assert (H : system (fst (updateEmitter random Mode3D dt k e))
              = Some (positions (particles (fst (updateEmitter random Mode3D dt k e))))).
  { unfold updateEmitter. rewrite He. simpl negb. cbv iota. unfold spawn.
    pose proof (spawnLoop_system random
                  (spawnFuel (with_particles (particles e) (timer e + dt) e)) k
                  (with_particles (particles e) (timer e + dt) e)) as Hs.
    destruct (spawnLoop random _ k _) as [e1 k1]. simpl in *.
    rewrite Hs, Hsys. reflexivity. }
  split; [exact H |].
  intros buffer' Hb. rewrite H in Hb. injection Hb as <-. apply positions_length.
Qed.

(** X8: [createEmitter] replaces a zero (or NaN) rate and a zero (or
    NaN) cap by the defaults 10 and 1000, and keeps every other number,
    a negative or fractional cap included: the emitter it makes is
    enabled and empty, and neither its rate nor its cap is zero or
    NaN. *)
Theorem createEmitter_wellformed (mode : Mode) (options : Options) :
  let e := createEmitter mode options in
  enabled e = true /\ particles e = [] /\ timer e = 0
  /\ ((rate e =? 0) = false /\ JS.isNaN (rate e) = false)
  /\ ((maxParticles e =? 0) = false /\ JS.isNaN (maxParticles e) = false)
  /\ (opt_rate options = Some 0 -> rate e = 10)
  /\ (opt_maxParticles options = Some 0 -> maxParticles e = 1000)
  /\ (forall cap, opt_maxParticles options = Some cap -> JS.ToBoolean cap = true ->
      maxParticles e = cap).
Proof.
  cbv zeta. unfold createEmitter. simpl.
  repeat (split; [reflexivity |]).
  split; [apply PhysicsMore.truthy_number, PhysicsMore.or_undef_truthy; reflexivity |].
  split; [apply PhysicsMore.truthy_number, PhysicsMore.or_undef_truthy; reflexivity |].
  split; [intros ->; reflexivity |].
  split; [intros ->; reflexivity |].
  intros cap -> Hcap. simpl. unfold JS.or. rewrite Hcap. reflexivity.
Qed.

End ParticleMore.

(** ** TweenSystem: further properties *)

Module TweenMore.
Import TweenSystem.

(** X9: a tween whose [active] flag has been cleared is dropped by the
    next step without a write or a call: the step is the one the list
    without the inactive tweens gets. *)
Theorem update_drops_inactive dt (s : t) :
  update dt s = update dt (mk (List.filter active (tweens s)) (targets s) (calls s)).
Proof.
  unfold update. simpl.
  assert (H : forall tws st,
             filterStep dt tws st = filterStep dt (List.filter active tws) st).
  { induction tws as [| tw tws IH]; intros st; simpl; [reflexivity |].
    destruct (active tw) eqn:Ha; simpl.
    - destruct (step dt tw st) as [kept st1]. rewrite IH. reflexivity.
    - unfold step. rewrite Ha. simpl. rewrite IH.
      destruct (filterStep dt (List.filter active tws) st) as [rest' st2]. reflexivity. }
  rewrite H. reflexivity.
Qed.

(** The list of tweens never grows in a step. *)
Lemma filterStep_length dt tws st :
  (length (fst (filterStep dt tws st)) <= length tws)%nat.
Proof.
  revert st. induction tws as [| tw tws IH]; intros st; simpl; [lia |].
  destruct (step dt tw st) as [kept st1]. specialize (IH st1).
  destruct (filterStep dt tws st1) as [rest' st2]. simpl in *.
  destruct kept; simpl; lia.
Qed.

(** *** What a step writes *)

Lemma target_set_other_loc l l' key v ts : l' <> l -> target_set l key v ts l' = ts l'.
Proof.
  intros Hne. unfold target_set. destruct (Nat.eqb l' l) eqn:Heq; [| reflexivity].
  apply Nat.eqb_eq in Heq. contradiction.
Qed.

Lemma prop_target_set_other l key key' v ts :
  key' <> key -> prop (target_set l key v ts l) key' = prop (ts l) key'.
Proof.
  intros Hne. unfold prop, target_set. rewrite Nat.eqb_refl.
  rewrite lookup_insert_ne by congruence. reflexivity.
Qed.

Definition written (tw : Tween) (easedT : float) (kv : string * float) : float :=
  prop (startValues tw) (fst kv) + (snd kv - prop (startValues tw) (fst kv)) * easedT.

Lemma applyValues_fold tw easedT kvs ts :
  fold_left
    (fun ts' kv =>
       let start := prop (startValues tw) (fst kv) in
       let end_ := snd kv in
       target_set (target tw) (fst kv) (start + (end_ - start) * easedT) ts')
    kvs ts
  = fold_left (fun ts' kv => target_set (target tw) (fst kv) (written tw easedT kv) ts') kvs ts.
Proof. reflexivity. Qed.

Lemma fold_target_set_other_key tw easedT kvs ts key :
  ~ In key (map fst kvs) ->
  prop (fold_left (fun ts' kv => target_set (target tw) (fst kv) (written tw easedT kv) ts')
          kvs ts (target tw)) key
  = prop (ts (target tw)) key.
Proof.
  revert ts. induction kvs as [| kv kvs IH]; intros ts Hnot; simpl; [reflexivity |].
  rewrite IH.
  - apply prop_target_set_other. intros ->. apply Hnot. left. reflexivity.
  - intros Hin. apply Hnot. right. exact Hin.
Qed.

Lemma fold_target_set_other_loc tw easedT kvs ts l :
  l <> target tw ->
  fold_left (fun ts' kv => target_set (target tw) (fst kv) (written tw easedT kv) ts')
    kvs ts l
  = ts l.
Proof.
  intros Hne. revert ts. induction kvs as [| kv kvs IH]; intros ts; simpl; [reflexivity |].
  rewrite IH. apply target_set_other_loc. exact Hne.
Qed.

(** The value the loop writes to an animated property is computed from
    the start value captured in the tween and from the end value alone.
    Properties that are not animated, and other objects, are not
    written. *)
Lemma applyValues_spec (tw : Tween) (easedT : float) (ts : Targets) :
  NoDup (map fst (endValues tw)) ->
  (forall key end_, In (key, end_) (endValues tw) ->
     prop (applyValues tw easedT ts (target tw)) key
     = prop (startValues tw) key + (end_ - prop (startValues tw) key) * easedT)
  /\ (forall key, ~ In key (map fst (endValues tw)) ->
      prop (applyValues tw easedT ts (target tw)) key = prop (ts (target tw)) key)
  /\ (forall l, l <> target tw -> applyValues tw easedT ts l = ts l).
Proof.
  intros Hnd. unfold applyValues. rewrite applyValues_fold.
  split; [| split].
  - revert ts Hnd. induction (endValues tw) as [| kv kvs IH]; intros ts Hnd key end_ Hin;
      simpl in *; [contradiction |].
    apply NoDup_cons in Hnd as [Hnot Hnd].
    destruct Hin as [-> | Hin].
    + simpl in Hnot. rewrite fold_target_set_other_key.
      * apply TweenFacts.prop_target_set.
      * intros Hin. apply Hnot, list_elem_of_In. exact Hin.
    + apply IH; assumption.
  - intros key Hnot. apply fold_target_set_other_key. exact Hnot.
  - intros l Hne. apply fold_target_set_other_loc. exact Hne.
Qed.

(** The start values of a tween are those the target has when [to] is
    called. *)
Lemma makeTween_startValues ts0 l props duration options key :
  In key (map fst props) ->
  prop (startValues (makeTween ts0 l props duration options)) key = prop (ts0 l) key.
Proof.
  unfold makeTween. simpl.
  assert (H : forall (m : gmap string float),
             In key (map fst props) \/ prop m key = prop (ts0 l) key ->
             prop (fold_left (fun m kv => <[fst kv := prop (ts0 l) (fst kv)]> m) props m) key
             = prop (ts0 l) key).
  { induction props as [| kv props IH]; intros m Hm; simpl in *.
    - destruct Hm as [[] | Hm]. exact Hm.
    - apply IH. destruct (decide (fst kv = key)) as [<- | Hne].
      + right. unfold prop at 1. rewrite lookup_insert_eq. reflexivity.
      + destruct Hm as [[Heq | Hin] | Hm]; [contradiction | left; exact Hin |].
        right. unfold prop at 1. rewrite lookup_insert_ne by exact Hne. exact Hm. }
  intros Hin. apply H. left. exact Hin.
Qed.

(** X10: the first step of a tween made by [to] without a pending
    delay.  Each animated property is written with
    [start + (end - start) * easedT], where [start] is what the target
    held when [to] was called: what the target holds at the time of the
    step does not enter.  Properties that are not animated, and other
    objects, are left as they are. *)
Theorem tween_writes_from_snapshot (ts0 : Targets) (l : loc) (props : list (string * float))
  (duration dt : float) (options : Options) (st : Targets * list Call) :
  NoDup (map fst props) ->
  (0 <? JS.or_undef (opt_delay options) 0) = false ->
  let tw := makeTween ts0 l props duration options in
  let easedT := easing tw (JS.Math_min ((0 + dt) / duration) 1) in
  let ts' := fst (snd (step dt tw st)) in
  (forall key end_, In (key, end_) props ->
     prop (ts' l) key = prop (ts0 l) key + (end_ - prop (ts0 l) key) * easedT)
  /\ (forall key, ~ In key (map fst props) -> prop (ts' l) key = prop (fst st l) key)
  /\ (forall l', l' <> l -> ts' l' = fst st l').
Proof.
  intros Hnd Hdelay. cbv zeta.
  set (tw := makeTween ts0 l props duration options).
  assert (Hstep : fst (snd (step dt tw st))
                  = applyValues tw (easing tw (JS.Math_min ((0 + dt) / duration) 1)) (fst st)).
  { unfold step. change (active tw) with true. change (delay tw)
      with (JS.or_undef (opt_delay options) 0). rewrite Hdelay.
    simpl negb. cbv iota zeta.
    change (elapsed tw) with 0. change (TweenSystem.duration tw) with duration.
    destruct (1 <=? JS.Math_min ((0 + dt) / duration) 1); reflexivity. }
  rewrite Hstep.
  destruct (applyValues_spec tw (easing tw (JS.Math_min ((0 + dt) / duration) 1)) (fst st) Hnd)
    as (Hw & Hk & Hl).
  split; [| split].
  - intros key end_ Hin. change l with (target tw) at 1. rewrite (Hw key end_ Hin). unfold tw.
    rewrite (makeTween_startValues ts0 l props duration options key); [reflexivity |].
    apply List.in_map_iff. exists (key, end_). split; [reflexivity | exact Hin].
  - intros key Hnot. apply (Hk key Hnot).
  - intros l' Hne. apply (Hl l' Hne).
Qed.

End TweenMore.

(** ** EventEmitter: further properties *)

Module EventMore.
Import EventEmitter.

Section Facts.
Context {Data : Type}.
Variable body : nat -> list Action.

Lemma listeners_on_same event callback (e : t Data) :
  listeners event (on event callback e) = listeners event e ++ [callback].
Proof.
  unfold listeners, on. simpl. rewrite lookup_insert_eq. simpl.
  destruct (events e !! event) eqn:He; simpl.
  - rewrite He. reflexivity.
  - rewrite lookup_insert_eq. reflexivity.
Qed.

Lemma listeners_on_other event event' callback (e : t Data) :
  event' <> event -> listeners event' (on event callback e) = listeners event' e.
Proof.
  intros Hne. unfold listeners, on. simpl.
  rewrite lookup_insert_ne by congruence.
  destruct (events e !! event); [reflexivity |].
  rewrite lookup_insert_ne by congruence. reflexivity.
Qed.

Lemma indexOf_app_fresh {A} `{EqDecision A} (v : A) (a : list A) :
  ~ In v a -> JS.indexOf v (a ++ [v]) = Some (length a).
Proof.
  induction a as [| w a IH]; simpl; intros Hnot.
  - destruct (decide (v = v)); [reflexivity | congruence].
  - destruct (decide (w = v)) as [-> | Hne]; [exfalso; apply Hnot; left; reflexivity |].
    rewrite IH; [reflexivity |]. intros Hin. apply Hnot. right. exact Hin.
Qed.

Lemma splice1_last {A} (v : A) (a : list A) : JS.splice1 (length a) (a ++ [v]) = a.
Proof.
  unfold JS.splice1. rewrite take_app_length.
  rewrite drop_ge by (rewrite length_app; simpl; lia). apply app_nil_r.
Qed.

(** X11: [off] right after [on] gives back the listeners of every
    event, for a callback that was not subscribed to the event
    before. *)
Theorem off_on (event : string) (callback : Listener) (e : t Data) :
  ~ In callback (listeners event e) ->
  forall event', listeners event' (off event callback (on event callback e))
                 = listeners event' e.
Proof.
  intros Hfresh event'.
  pose proof (listeners_on_same event callback e) as Hon.
  unfold off.
  destruct (events (on event callback e) !! event) as [callbacks |] eqn:Hl.
  - assert (Hc : callbacks = listeners event e ++ [callback]).
    { unfold listeners in Hon at 1. rewrite Hl in Hon. exact Hon. }
    subst callbacks. rewrite (indexOf_app_fresh callback _ Hfresh), splice1_last.
    unfold listeners at 1. simpl.
    destruct (decide (event' = event)) as [-> | Hne].
    + rewrite lookup_insert_eq. reflexivity.
    + rewrite lookup_insert_ne by congruence.
      apply (listeners_on_other event event' callback e Hne).
  - unfold listeners in Hon at 1. rewrite Hl in Hon. simpl in Hon.
    destruct (listeners event e); discriminate Hon.
Qed.

(** X12: a function given to [once] on an event without listeners is
    called by the first [emit] of the event and by no later one: the
    wrapper removes itself. *)
Theorem once_called_once (event : string) (f : nat) (data data' : Data) (e : t Data) :
  listeners event e = [] -> body f = [] ->
  let e1 := once event (Fn f) e in
  let e2 := emit body event data e1 in
  let e3 := emit body event data' e2 in
  calls e2 = calls e ++ [(f, data)]
  /\ listeners event e2 = []
  /\ calls e3 = calls e2.
Proof.
  intros Hnone Hquiet. cbv zeta.
  set (w := OnceWrapper (closures e) event (Fn f)).
  set (e0 := mk (events e) (calls e) (S (closures e))).
  assert (H1 : listeners event (once event (Fn f) e) = [w]).
  { unfold once. fold w. fold e0. rewrite listeners_on_same.
    change (listeners event e0) with (listeners event e). rewrite Hnone. reflexivity. }
  assert (Hev : events (once event (Fn f) e) !! event = Some [w]).
  { unfold listeners in H1. destruct (events (once event (Fn f) e) !! event) eqn:Hl.
    - simpl in H1. congruence.
    - discriminate H1. }
  assert (Hcalls : calls (once event (Fn f) e) = calls e) by reflexivity.
  assert (Hclo : closures (once event (Fn f) e) = S (closures e)) by reflexivity.
  remember (once event (Fn f) e) as e1 eqn:He1. clear He1.
  assert (H2 : emit body event data e1
               = mk (<[event := []]> (events e1)) (calls e ++ [(f, data)]) (S (closures e))).
  { unfold emit. rewrite Hev. cbn [length forEach]. rewrite H1. cbn [lookup list_lookup].
    unfold w at 1. cbn [invoke]. fold w. rewrite Hquiet. cbn [fold_left].
    unfold off. cbn [record events calls closures]. rewrite Hev.
    cbn [JS.indexOf]. destruct (decide (w = w)); [| congruence].
    rewrite Hcalls, Hclo. reflexivity. }
  rewrite H2. split; [reflexivity |]. split.
  - unfold listeners. simpl. rewrite lookup_insert_eq. reflexivity.
  - unfold emit. simpl. rewrite lookup_insert_eq. reflexivity.
Qed.

(** X13: while the listeners of an event leave the emitter alone,
    [emit] calls each of them once with the data, in the order of
    their subscription, and the subscriptions stay as they are; an
    event without listeners calls nothing. *)
Theorem emit_calls_in_order (event : string) (data : Data) (e : t Data) :
  Forall (EventFacts.quiet body) (listeners event e) ->
  calls (emit body event data e)
  = calls e ++ map (fun f => (f, data)) (flat_map EventFacts.fn (listeners event e))
  /\ events (emit body event data e) = events e
  /\ (listeners event e = [] -> calls (emit body event data e) = calls e).
Proof.
  intros Hq.
  assert (H : calls (emit body event data e)
              = calls e ++ map (fun f => (f, data)) (flat_map EventFacts.fn (listeners event e))
              /\ events (emit body event data e) = events e).
  { unfold emit. destruct (events e !! event) as [callbacks |] eqn:He.
    - assert (Hl : listeners event e = callbacks)
        by (unfold listeners; rewrite He; reflexivity).
      rewrite (EventFacts.forEach_quiet body _ 0 event data e Hq).
      rewrite Hl, drop_0, firstn_all. split; reflexivity.
    - unfold listeners. rewrite He. simpl. rewrite app_nil_r. split; reflexivity. }
  destruct H as [Hc He]. split; [exact Hc |]. split; [exact He |].
  intros Hnone. rewrite Hc, Hnone. simpl. apply app_nil_r.
Qed.

End Facts.
End EventMore.

(** ** The entity registry: further properties *)

Module JSMapMore.
Section Facts.
Context {V : Type}.
Implicit Types (m : list (string * V)) (k : string) (v : V).

Lemma get_None_keys k m : JSMap.get k m = None <-> ~ In k (JSMap.keys m).
Proof.
  unfold JSMap.keys. induction m as [| [k' v'] m IH]; simpl.
  - tauto.
  - destruct (decide (k' = k)) as [-> | Hne].
    + split; [discriminate | intros H; exfalso; apply H; left; reflexivity].
    + rewrite IH. split; [intros H [Heq | Hin]; [congruence | tauto] | tauto].
Qed.

Lemma keys_set k v m :
  JSMap.keys (JSMap.set k v m)
  = if JSMap.has k m then JSMap.keys m else JSMap.keys m ++ [k].
Proof.
  unfold JSMap.has. destruct (JSMap.get k m) as [v0 |] eqn:Hg.
  - apply (JSMapFacts.keys_set_present k v v0 m Hg).
  - rewrite (JSMapFacts.set_absent k v m Hg). unfold JSMap.keys. rewrite map_app. reflexivity.
Qed.

Lemma delete_keys_subset k k' m : In k' (JSMap.keys (JSMap.delete k m)) -> In k' (JSMap.keys m).
Proof.
  unfold JSMap.keys. induction m as [| [k0 v0] m IH]; simpl; [tauto |].
  destruct (decide (k0 = k)); simpl; [tauto |]. intros [H | H]; [left; exact H | right; apply IH, H].
Qed.

(** [set] and [delete] keep the keys distinct. *)
Lemma NoDup_set k v m : List.NoDup (JSMap.keys m) -> List.NoDup (JSMap.keys (JSMap.set k v m)).
Proof.
  intros H. rewrite keys_set. unfold JSMap.has.
  destruct (JSMap.get k m) eqn:Hg; [exact H |].
  apply get_None_keys in Hg.
  revert Hg H. generalize (JSMap.keys m). intros ks Hnot Hks.
  induction Hks as [| k0 ks Hk0 Hks IH]; simpl.
  - constructor; [simpl; tauto | constructor].
  - constructor.
    + rewrite List.in_app_iff. simpl. intros [Hin | [-> | []]]; [contradiction |].
      apply Hnot. left. reflexivity.
    + apply IH. intros Hin. apply Hnot. right. exact Hin.
Qed.

Lemma NoDup_delete k m : List.NoDup (JSMap.keys m) -> List.NoDup (JSMap.keys (JSMap.delete k m)).
Proof.
  unfold JSMap.keys. induction m as [| [k0 v0] m IH]; simpl; intros H; [constructor |].
  apply List.NoDup_cons_iff in H as [Hnot H].
  destruct (decide (k0 = k)); simpl; [exact H |].
  constructor; [| apply IH, H].
  intros Hin. apply Hnot. apply (delete_keys_subset k k0 m Hin).
Qed.

Lemma get_delete k m : List.NoDup (JSMap.keys m) -> JSMap.get k (JSMap.delete k m) = None.
Proof.
  unfold JSMap.keys. induction m as [| [k0 v0] m IH]; simpl; intros H; [reflexivity |].
  apply List.NoDup_cons_iff in H as [Hnot H].
  destruct (decide (k0 = k)) as [-> | Hne]; simpl.
  - apply get_None_keys. exact Hnot.
  - destruct (decide (k0 = k)); [contradiction | apply IH, H].
Qed.

Lemma delete_set_absent k v m : JSMap.get k m = None -> JSMap.delete k (JSMap.set k v m) = m.
Proof.
  induction m as [| [k0 v0] m IH]; simpl; intros H.
  - destruct (decide (k = k)); [reflexivity | congruence].
  - destruct (decide (k0 = k)) as [-> | Hne]; [discriminate |]. simpl.
    destruct (decide (k0 = k)); [contradiction |]. rewrite IH by exact H. reflexivity.
Qed.

End Facts.
End JSMapMore.

Module RegistryMore.
Import Cubie Cubie.entity.

Section Facts.
Variable body : nat -> list EventEmitter.Action.

(** X14: [get] after [create] finds the entity just made, which
    carries the name asked for. *)
Theorem get_create (name : string) (config : Entity.Config) (c : Cubie.t) :
  let c' := snd (create body name config c) in
  exists l, fst (create body name config c) = Returned l
            /\ get name c' = Some l
            /\ Entity.name (store c' l) = name.
Proof.
  cbv zeta. exists (next c).
  split; [apply RegistryFacts.create_returns |].
  unfold get. rewrite RegistryFacts.create_entities, RegistryFacts.create_store.
  split; [apply JSMapFacts.get_set_eq |].
  unfold store_set. rewrite Nat.eqb_refl. reflexivity.
Qed.

Lemma remove_entities name c :
  entities (remove body name c) = JSMap.delete name (entities c).
Proof.
  unfold remove. destruct (JSMap.get name (entities c)) as [l |] eqn:Hg.
  - destruct (mode c), (Entity.mesh (store c l)); reflexivity.
  - symmetry. clear body.
    induction (entities c) as [| [k v] m IH]; simpl in *; [reflexivity |].
    destruct (decide (k = name)); [discriminate |]. rewrite IH by exact Hg. reflexivity.
Qed.

(** X15: names stay unique.  [create] and [remove] keep the keys of the
    registry distinct, and after [remove] the name is absent. *)
Theorem registry_names_unique (name : string) (config : Entity.Config) (c : Cubie.t) :
  List.NoDup (JSMap.keys (entities c)) ->
  List.NoDup (JSMap.keys (entities (snd (create body name config c))))
  /\ List.NoDup (JSMap.keys (entities (remove body name c)))
  /\ get name (remove body name c) = None.
Proof.
  intros H. unfold get. rewrite RegistryFacts.create_entities, remove_entities.
  split; [apply JSMapMore.NoDup_set, H |].
  split; [apply JSMapMore.NoDup_delete, H | apply JSMapMore.get_delete, H].
Qed.

Lemma removeFirst_app_fresh (l : loc) (a : list loc) :
  ~ In l a -> removeFirst l (a ++ [l]) = a.
Proof.
  intros H. unfold removeFirst.
  rewrite (EventMore.indexOf_app_fresh l a H). apply EventMore.splice1_last.
Qed.

(** X16: [remove] right after [create] of a new name gives back the
    registry of names; in 3D mode it also gives back the scene and the
    layers. *)
Theorem remove_create (name : string) (config : Entity.Config) (c : Cubie.t) :
  get name c = None ->
  let c' := remove body name (snd (create body name config c)) in
  entities c' = entities c
  /\ (mode c = Mode3D -> ~ In (next c) (scene c) ->
      scene c' = scene c /\ layers c' = layers c).
Proof.
  intros Hnone. cbv zeta. unfold get in Hnone.
  split.
  - rewrite remove_entities, RegistryFacts.create_entities.
    apply JSMapMore.delete_set_absent, Hnone.
  - intros Hmode Hfresh.
    unfold remove, create. rewrite Hmode. unfold Entity.new. cbn [Entity.mesh].
    destruct (Entity.cfg_mesh config) as [p |];
      cbn [snd entities mode store scene layers with_registry];
      rewrite JSMapFacts.get_set_eq; unfold store_set; rewrite Nat.eqb_refl;
      cbn [Entity.mesh]; rewrite Hmode; cbn [scene layers with_registry].
    + split; [apply removeFirst_app_fresh, Hfresh | reflexivity].
    + split; reflexivity.
Qed.

End Facts.
End RegistryMore.

(** ** Systems and the lifecycle of the loop *)

Module SchedulerFacts.
Import Cubie FrameFacts.

Section Facts.
Variable World : Type.
Variable effect : Call -> World -> World.

Local Abbreviation Frame := (Frame World).
Local Abbreviation loop := (loop World effect).
Local Abbreviation mkFrame := (mkFrame World).
Local Abbreviation trace := (trace World).
Local Abbreviation engine := (engine World).
Local Abbreviation world := (world World).

Section Events.
Variable body : nat -> list EventEmitter.Action.



End Events.

End Facts.
End SchedulerFacts.

(** ** Logger *)

Module LoggerFacts.
Import Logger.

Section Facts.
Context {Data : Type}.
Implicit Types (l : Logger.t Data).

(** X21: the log never holds more than [maxLogs] entries. *)
Theorem log_bounded now frame level message (data : option Data) l :
  (length (logs l) <= maxLogs l)%nat ->
  (length (logs (log now frame level message data l)) <= maxLogs l)%nat
  /\ maxLogs (log now frame level message data l) = maxLogs l.
Proof.
  intros H. unfold log. destruct (belowLevel level (logLevel l)); [split; [exact H | reflexivity] |].
  simpl. split; [| reflexivity].
  destruct (maxLogs l <? length (logs l ++ [_]))%nat eqn:Hfull.
  - rewrite length_tl, length_app. simpl. lia.
  - apply Nat.ltb_ge in Hfull. exact Hfull.
Qed.

(** The rank of the four levels. *)
Definition rank (level : string) : nat := default 0%nat (levels level).

Definition known (level : string) : Prop := levels level <> None.

Lemma belowLevel_rank level logLevel :
  known level -> known logLevel ->
  belowLevel level logLevel = (rank level <? rank logLevel)%nat.
Proof.
  unfold known, belowLevel, rank.
  destruct (levels level), (levels logLevel); simpl; congruence.
Qed.

(** The console has a method for each of the four levels. *)
Lemma known_returns level : known level -> consoleThrows level = false.
Proof.
  unfold known, levels. intros H.
  repeat (destruct (decide _) as [-> | _]; [reflexivity |]). congruence.
Qed.

(** For any logger level, a message at the level [__proto__] is
    recorded, the call throws, and no callback hears of it. *)
Lemma log_proto_throws now frame message (data : option Data) l :
  let entry := mkEntry "__proto__" message data now frame in
  let l' := log now frame "__proto__" message data l in
  log_throws "__proto__" l = true
  /\ logs l' = (if (maxLogs l <? length (logs l ++ [entry]))%nat
                then tail (logs l ++ [entry]) else logs l ++ [entry])
  /\ calls l' = calls l.
Proof. cbv zeta. repeat split; reflexivity. Qed.

(** X22: a message is recorded exactly when its level is not below the
    logger's level.  If it is below, nothing at all happens.  Otherwise
    the new entry becomes the last one (the oldest entry is dropped
    when the log is full), and every callback is called once with it, in
    the order of their registration. *)
Theorem log_threshold now frame level message (data : option Data) l :
  known level -> known (logLevel l) -> (1 <= maxLogs l)%nat ->
  (length (logs l) <= maxLogs l)%nat ->
  let entry := mkEntry level message data now frame in
  let l' := log now frame level message data l in
  ((rank level < rank (logLevel l))%nat -> l' = l)
  /\ ((rank (logLevel l) <= rank level)%nat ->
      last (logs l') = Some entry
      /\ logs l' = (if (length (logs l) <? maxLogs l)%nat then logs l else tail (logs l))
                   ++ [entry]
      /\ calls l' = calls l ++ map (fun cb => (cb, entry)) (callbacks l)).
Proof.
  intros Hk1 Hk2 Hmax Hlen. cbv zeta. unfold log.
  rewrite (belowLevel_rank level (logLevel l) Hk1 Hk2).
  split.
  - intros Hlt. apply Nat.ltb_lt in Hlt. rewrite Hlt. reflexivity.
  - intros Hge. apply Nat.ltb_ge in Hge. rewrite Hge. simpl.
    assert (Hlogs :
      (if (maxLogs l <? length (logs l ++ [mkEntry level message data now frame]))%nat
       then tail (logs l ++ [mkEntry level message data now frame])
       else logs l ++ [mkEntry level message data now frame])
      = (if (length (logs l) <? maxLogs l)%nat then logs l else tail (logs l))
        ++ [mkEntry level message data now frame]).
    { rewrite length_app. simpl.
      destruct (length (logs l) <? maxLogs l)%nat eqn:Hroom.
      - apply Nat.ltb_lt in Hroom.
        replace (maxLogs l <? length (logs l) + 1)%nat with false; [reflexivity |].
        symmetry. apply Nat.ltb_ge. lia.
      - apply Nat.ltb_ge in Hroom.
        replace (maxLogs l <? length (logs l) + 1)%nat with true
          by (symmetry; apply Nat.ltb_lt; lia).
        destruct (logs l) as [| e0 es]; [simpl in *; lia | reflexivity]. }
    rewrite Hlogs. split; [apply last_snoc |]. split; [reflexivity |].
    rewrite (known_returns level Hk1). reflexivity.
Qed.

End Facts.
End LoggerFacts.

(** ** InputSystem *)

Module InputFacts.
Import InputSystem.

Lemma inherited_proto (k : string) : inherited k = false -> k <> "__proto__"%string.
Proof. intros H ->. vm_compute in H. discriminate H. Qed.

Lemma truthyKey_assign_eq (o : gmap string bool) (k : string) (b : bool) :
  k <> "__proto__"%string -> truthyKey (assignKey k b o) k = b.
Proof.
  intros Hk. unfold truthyKey, assignKey.
  destruct (decide (k = "__proto__"%string)); [contradiction |].
  rewrite lookup_insert_eq. reflexivity.
Qed.

Lemma truthyKey_assign_ne (o : gmap string bool) (k k' : string) (b : bool) :
  k <> k' -> truthyKey (assignKey k b o) k' = truthyKey o k'.
Proof.
  intros Hne. unfold truthyKey, assignKey.
  destruct (decide (k = "__proto__"%string)); [reflexivity |].
  rewrite lookup_insert_ne by exact Hne. reflexivity.
Qed.

Lemma truthyKey_empty (k : string) : inherited k = false -> truthyKey ∅ k = false.
Proof.
  intros H. unfold truthyKey.
  destruct (decide (k = "__proto__"%string)) as [-> | _]; [discriminate H |].
  rewrite lookup_empty. exact H.
Qed.

Section Facts.
Variable toLowerCase : string -> string.

Local Abbreviation keydown := (keydown toLowerCase).
Local Abbreviation keyup := (keyup toLowerCase).
Local Abbreviation isKeyDown := (isKeyDown toLowerCase).
Local Abbreviation isKeyPressed := (isKeyPressed toLowerCase).
Local Abbreviation isKeyReleased := (isKeyReleased toLowerCase).

(** X23: "pressed" is the edge of "down".  For a key whose lower-case
    form is no property name of [Object.prototype]: the key is reported
    as pressed from the [keydown] that finds it up until the next
    [update]; the repeated [keydown] events of a held key do not report
    it again; the key stays down across [update]s until its [keyup],
    which reports it as released until the next [update]. *)
Theorem key_pressed_is_edge (key : string) (gamepads gamepads' : list (option Gamepad))
  (i : t) :
  inherited (toLowerCase key) = false ->
  isKeyDown key i = false ->
  let held := keydown key i in
  let next := update gamepads held in
  let repeated := keydown key next in
  let released := keyup key repeated in
  isKeyDown key held = true /\ isKeyPressed key held = true
  /\ isKeyDown key next = true /\ isKeyPressed key next = false
  /\ isKeyDown key repeated = true /\ isKeyPressed key repeated = false
  /\ isKeyDown key released = false /\ isKeyReleased key released = true
  /\ isKeyDown key (update gamepads' released) = false
  /\ isKeyReleased key (update gamepads' released) = false.
Proof.
  intros Hown Hup. cbv zeta.
  pose proof (inherited_proto _ Hown) as Hk.
  unfold InputSystem.isKeyDown, InputSystem.isKeyPressed, InputSystem.isKeyReleased in *.
  unfold InputSystem.keydown, InputSystem.keyup, update.
  cbn [keys keysPressed keysReleased].
  rewrite Hup. rewrite !truthyKey_assign_eq by exact Hk.
  cbn [keys keysPressed keysReleased].
  rewrite ?truthyKey_assign_eq by exact Hk.
  rewrite ?truthyKey_empty by exact Hown.
  repeat split; reflexivity.
Qed.

(** X24: keys do not interfere.  A [keydown] or [keyup] of one key
    changes no answer about a key with another lower-case form. *)
Theorem keys_independent (key other : string) (i : t) :
  toLowerCase key <> toLowerCase other ->
  isKeyDown other (keydown key i) = isKeyDown other i
  /\ isKeyPressed other (keydown key i) = isKeyPressed other i
  /\ isKeyReleased other (keydown key i) = isKeyReleased other i
  /\ isKeyDown other (keyup key i) = isKeyDown other i
  /\ isKeyPressed other (keyup key i) = isKeyPressed other i
  /\ isKeyReleased other (keyup key i) = isKeyReleased other i.
Proof.
  intros Hne. unfold InputSystem.keydown, InputSystem.keyup, InputSystem.isKeyDown,
    InputSystem.isKeyPressed, InputSystem.isKeyReleased. cbn [keys keysPressed keysReleased].
  rewrite !truthyKey_assign_ne by exact Hne.
  destruct (truthyKey (keys i) (toLowerCase key));
    rewrite ?truthyKey_assign_ne by exact Hne; repeat split; reflexivity.
Qed.

End Facts.
End InputFacts.

(** ** [utils.clamp] and the audio volumes *)

Module ClampFacts.
Import FloatFacts.

Lemma ltb_leb (a b : float) : (a <? b) = true -> (a <=? b) = true.
Proof.
  rewrite ltb_spec, leb_spec. unfold SFltb, SFleb.
  destruct (SFcompare (Prim2SF a) (Prim2SF b)) as [[| |] |]; intros H;
    try reflexivity; discriminate.
Qed.

Lemma ltb_not_nan (a b : float) :
  (a <? b) = true -> JS.isNaN a = false /\ JS.isNaN b = false.
Proof. intros H. apply leb_not_nan, ltb_leb, H. Qed.

(** [Math.min] of two numbers is one of them and exceeds neither. *)
Lemma Math_min_spec (a b : float) :
  JS.isNaN a = false -> JS.isNaN b = false ->
  (JS.Math_min a b = a \/ JS.Math_min a b = b)
  /\ (JS.Math_min a b <=? a) = true /\ (JS.Math_min a b <=? b) = true.
Proof.
  intros Ha Hb. unfold JS.Math_min. rewrite Ha, Hb. simpl.
  destruct (a <? b) eqn:H1.
  - split; [left; reflexivity |]. split; [apply leb_refl, Ha | apply ltb_leb, H1].
  - destruct (b <? a) eqn:H2.
    + split; [right; reflexivity |]. split; [apply ltb_leb, H2 | apply leb_refl, Hb].
    + destruct (is_zero a && get_sign a).
      * split; [left; reflexivity |].
        split; [apply leb_refl, Ha | apply ltb_false_leb; assumption].
      * split; [right; reflexivity |].
        split; [apply ltb_false_leb; assumption | apply leb_refl, Hb].
Qed.

(** [Math.max] of two numbers is one of them and is below neither. *)
Lemma Math_max_spec (a b : float) :
  JS.isNaN a = false -> JS.isNaN b = false ->
  (JS.Math_max a b = a \/ JS.Math_max a b = b)
  /\ (a <=? JS.Math_max a b) = true /\ (b <=? JS.Math_max a b) = true.
Proof.
  intros Ha Hb. unfold JS.Math_max. rewrite Ha, Hb. simpl.
  destruct (a <? b) eqn:H1.
  - split; [right; reflexivity |]. split; [apply ltb_leb, H1 | apply leb_refl, Hb].
  - destruct (b <? a) eqn:H2.
    + split; [left; reflexivity |]. split; [apply leb_refl, Ha | apply ltb_leb, H2].
    + destruct (is_zero a && get_sign a).
      * split; [right; reflexivity |].
        split; [apply ltb_false_leb; assumption | apply leb_refl, Hb].
      * split; [left; reflexivity |].
        split; [apply leb_refl, Ha | apply ltb_false_leb; assumption].
Qed.

Lemma isNaN_either (x a b : float) :
  x = a \/ x = b -> JS.isNaN a = false -> JS.isNaN b = false -> JS.isNaN x = false.
Proof. intros [-> | ->]; auto. Qed.

Lemma clamp_number (value min max : float) :
  (min <=? max) = true -> JS.isNaN value = false ->
  (min <=? Cubie.utils.clamp value min max) = true
  /\ (Cubie.utils.clamp value min max <=? max) = true
  /\ (Cubie.utils.clamp value min max = value
      \/ Cubie.utils.clamp value min max = min
      \/ Cubie.utils.clamp value min max = max).
Proof.
  intros Hle Hv. destruct (leb_not_nan min max Hle) as [Hmin Hmax].
  unfold Cubie.utils.clamp.
  destruct (Math_min_spec max value Hmax Hv) as (Hm & Hm1 & Hm2).
  assert (Hmn : JS.isNaN (JS.Math_min max value) = false)
    by (apply (isNaN_either _ max value); assumption).
  destruct (Math_max_spec min (JS.Math_min max value) Hmin Hmn) as (Hr & Hr1 & Hr2).
  split; [exact Hr1 |]. split.
  - destruct Hr as [-> | ->]; [exact Hle | exact Hm1].
  - destruct Hr as [-> | ->]; [right; left; reflexivity |].
    destruct Hm as [-> | ->]; [right; right; reflexivity | left; reflexivity].
Qed.

(** Two numbers that compare as equal are the same number or two
    zeros. *)
Lemma SFcompare_Eq (x y : spec_float) :
  SFcompare x y = Some Eq ->
  x = y \/ exists s s', x = S754_zero s /\ y = S754_zero s'.
Proof.
  destruct x as [sx | sx | | sx mx ex], y as [sy | sy | | sy my ey]; simpl;
    try discriminate;
    try (destruct sx; discriminate);
    try (destruct sy; discriminate).
  - intros _. right. eauto.
  - destruct sx, sy; try discriminate; intros _; left; reflexivity.
  - destruct sx, sy; try discriminate;
      destruct (ex ?= ey)%Z eqn:He; try discriminate;
      apply Z.compare_eq in He; subst ey;
      destruct (Pos.compare_cont Eq mx my) eqn:Hm; try discriminate;
      apply Pos.compare_eq in Hm; subst my; intros _; left; reflexivity.
Qed.

Lemma SFcompare_Eq_r (x y z : spec_float) :
  SFcompare x y = Some Eq -> SFcompare z x = SFcompare z y.
Proof.
  intros H. destruct (SFcompare_Eq x y H) as [-> | (s & s' & -> & ->)]; [reflexivity |].
  destruct z as [sz | sz | | sz mz ez]; reflexivity.
Qed.

Lemma eqb_refl (a : float) : JS.isNaN a = false -> (a =? a) = true.
Proof. unfold JS.isNaN. intros H. apply negb_false_iff in H. exact H. Qed.

Lemma eqb_trans (a b c : float) : (a =? b) = true -> (b =? c) = true -> (a =? c) = true.
Proof.
  rewrite !FloatAxioms.eqb_spec. unfold SFeqb.
  destruct (SFcompare (Prim2SF b) (Prim2SF c)) as [[| |] |] eqn:Hbc; try discriminate.
  rewrite <- (SFcompare_Eq_r _ _ (Prim2SF a) Hbc). intros H _. exact H.
Qed.

Lemma eqb_leb_r (a b c : float) : (a =? b) = true -> (c <=? a) = (c <=? b).
Proof.
  rewrite FloatAxioms.eqb_spec, !leb_spec. unfold SFeqb, SFleb.
  destruct (SFcompare (Prim2SF a) (Prim2SF b)) as [[| |] |] eqn:Hab; try discriminate.
  rewrite (SFcompare_Eq_r _ _ (Prim2SF c) Hab). reflexivity.
Qed.

(** Neither below the other: equal as numbers. *)
Lemma not_ltb_eqb (a b : float) :
  JS.isNaN a = false -> JS.isNaN b = false ->
  (a <? b) = false -> (b <? a) = false -> (a =? b) = true.
Proof.
  intros Ha Hb. destruct (compare_not_nan a b Ha Hb) as [c Hc].
  rewrite !ltb_spec, FloatAxioms.eqb_spec. unfold SFltb, SFeqb.
  rewrite (SFcompare_swap (Prim2SF a) (Prim2SF b)), Hc.
  destruct c; simpl; intros H1 H2; try reflexivity; discriminate.
Qed.

Lemma eqb_sym (a b : float) : (a =? b) = true -> (b =? a) = true.
Proof.
  rewrite !FloatAxioms.eqb_spec. unfold SFeqb.
  rewrite (SFcompare_swap (Prim2SF a) (Prim2SF b)).
  destruct (SFcompare (Prim2SF a) (Prim2SF b)) as [[| |] |]; simpl; intros H;
    try reflexivity; discriminate.
Qed.

(** [Math.min(a, b)] is [b], as a number, when [b <= a]. *)
Lemma Math_min_leb (a b : float) : (b <=? a) = true -> (JS.Math_min a b =? b) = true.
Proof.
  intros Hle. destruct (leb_not_nan b a Hle) as [Hb Ha].
  unfold JS.Math_min. rewrite Ha, Hb. simpl.
  rewrite (leb_ltb_false b a Hle).
  destruct (b <? a) eqn:Hlt; [apply eqb_refl, Hb |].
  destruct (is_zero a && get_sign a); [| apply eqb_refl, Hb].
  apply not_ltb_eqb; try assumption. apply leb_ltb_false, Hle.
Qed.

(** [Math.max(a, b)] is [b], as a number, when [a <= b]. *)
Lemma Math_max_leb (a b : float) : (a <=? b) = true -> (JS.Math_max a b =? b) = true.
Proof.
  intros Hle. destruct (leb_not_nan a b Hle) as [Ha Hb].
  unfold JS.Math_max. rewrite Ha, Hb. simpl.
  rewrite (leb_ltb_false a b Hle).
  destruct (a <? b) eqn:Hlt; [apply eqb_refl, Hb |].
  destruct (is_zero a && get_sign a); [apply eqb_refl, Hb |].
  apply not_ltb_eqb; try assumption. apply leb_ltb_false, Hle.
Qed.

(** A value inside the range passes through [utils.clamp]: the result
    is the same number. *)
Lemma clamp_inside (value min max : float) :
  (min <=? value) = true -> (value <=? max) = true ->
  (Cubie.utils.clamp value min max =? value) = true.
Proof.
  intros Hlo Hhi. unfold Cubie.utils.clamp.
  pose proof (Math_min_leb max value Hhi) as Hm.
  apply (eqb_trans _ (JS.Math_min max value)); [| exact Hm].
  apply Math_max_leb. rewrite (eqb_leb_r _ _ min Hm). exact Hlo.
Qed.

(** X25: [utils.clamp(value, min, max)] with [min <= max].  A number
    comes out inside [[min, max]], and is [value] itself, [min] or
    [max]; a value inside the range comes out as the same number; NaN
    comes out as NaN. *)
Theorem clamp_range (value min max : float) :
  (min <=? max) = true ->
  (JS.isNaN value = false ->
     (min <=? Cubie.utils.clamp value min max) = true
     /\ (Cubie.utils.clamp value min max <=? max) = true
     /\ (Cubie.utils.clamp value min max = value
         \/ Cubie.utils.clamp value min max = min
         \/ Cubie.utils.clamp value min max = max))
  /\ ((min <=? value) = true -> (value <=? max) = true ->
      (Cubie.utils.clamp value min max =? value) = true)
  /\ (JS.isNaN value = true -> Cubie.utils.clamp value min max = nan).
Proof.
  intros Hle. split; [| split].
  - intros Hv. apply clamp_number; assumption.
  - apply clamp_inside.
  - intros Hv. unfold Cubie.utils.clamp, JS.Math_min. rewrite Hv, orb_true_r.
    unfold JS.Math_max. rewrite orb_true_r. reflexivity.
Qed.

(** The three volumes are numbers in [[0, 1]]. *)
Definition volumesInRange (a : AudioSystem.t) : Prop :=
  ((0 <=? AudioSystem.masterVolume a) = true /\ (AudioSystem.masterVolume a <=? 1) = true)
  /\ ((0 <=? AudioSystem.soundVolume a) = true /\ (AudioSystem.soundVolume a <=? 1) = true)
  /\ ((0 <=? AudioSystem.musicVolume a) = true /\ (AudioSystem.musicVolume a <=? 1) = true).

Lemma unit_clamp (volume : float) :
  JS.isNaN volume = false ->
  (0 <=? JS.Math_max 0 (JS.Math_min 1 volume)) = true
  /\ (JS.Math_max 0 (JS.Math_min 1 volume) <=? 1) = true.
Proof.
  intros Hv.
  destruct (clamp_number volume 0 1 eq_refl Hv) as (H1 & H2 & _). split; assumption.
Qed.

(** X26: the three volumes start in [[0, 1]] and stay there under every
    setter called with a number, whatever the number. *)
Theorem volumes_stay_in_range (volume : float) (a : AudioSystem.t) :
  JS.isNaN volume = false -> volumesInRange a ->
  volumesInRange AudioSystem.new
  /\ volumesInRange (AudioSystem.setMasterVolume volume a)
  /\ volumesInRange (AudioSystem.setSoundVolume volume a)
  /\ volumesInRange (AudioSystem.setMusicVolume volume a).
Proof.
  intros Hv (Hm & Hs & Hmu). pose proof (unit_clamp volume Hv) as Hc.
  unfold volumesInRange. simpl. repeat split; try reflexivity; tauto.
Qed.

End ClampFacts.

(** ** StorageSystem *)

Module StorageFacts.
Import StorageSystem.

Lemma prefix_inj (key key' : string) : (prefix ++ key = prefix ++ key')%string -> key = key'.
Proof. unfold prefix. cbn. intros H. injection H as H. exact H. Qed.

Lemma clear_fold (keys : list string) (ls : gmap string string) (k : string) :
  fold_left (fun ls' key => if String.prefix prefix key then delete key ls' else ls') keys ls
    !! k
  = if String.prefix prefix k && bool_decide (k ∈ keys) then None else ls !! k.
Proof.
  revert ls. induction keys as [| k0 keys IH]; intros ls; simpl.
  - rewrite andb_false_r. reflexivity.
  - rewrite IH.
    assert (Hcons : bool_decide (k ∈ k0 :: keys)
                    = bool_decide (k = k0) || bool_decide (k ∈ keys)).
    { repeat case_bool_decide; try reflexivity; exfalso;
        rewrite elem_of_cons in *; tauto. }
    rewrite Hcons. clear Hcons.
    destruct (String.prefix prefix k) eqn:Hp; simpl.
    + destruct (bool_decide (k ∈ keys)); [rewrite orb_true_r; reflexivity |].
      rewrite orb_false_r. case_bool_decide as Heq.
      * subst k0. rewrite Hp. apply lookup_delete_eq.
      * destruct (String.prefix prefix k0); [| reflexivity].
        apply lookup_delete_ne. congruence.
    + destruct (String.prefix prefix k0) eqn:Hp0; [| reflexivity].
      apply lookup_delete_ne. intros ->. congruence.
Qed.

Lemma clear_lookup (ls : gmap string string) (k : string) :
  clear ls !! k = if String.prefix prefix k then None else ls !! k.
Proof.
  unfold clear. rewrite clear_fold.
  destruct (String.prefix prefix k); simpl; [| reflexivity].
  destruct (bool_decide (k ∈ map fst (map_to_list ls))) eqn:Hin; [reflexivity |].
  apply bool_decide_eq_false_1 in Hin.
  destruct (ls !! k) as [v |] eqn:Hk; [| reflexivity].
  exfalso. apply Hin. apply list_elem_of_fmap. exists (k, v). split; [reflexivity |].
  apply elem_of_map_to_list. exact Hk.
Qed.

Lemma prefix_prefix (key : string) : String.prefix prefix (prefix ++ key) = true.
Proof. destruct key; reflexivity. Qed.

Section Json.
Context {Data : Type}.
Variable stringify : Data -> Cubie.Completion (option string).
Variable parse : string -> Cubie.Completion Data.
Variable accepts : gmap string string -> string -> string -> bool.

Local Abbreviation save := (save stringify accepts).
Local Abbreviation load := (load parse).

(** X27: [clear] removes exactly the entries whose key starts with the
    prefix: every other entry of [localStorage] keeps its value, and
    after it [load] returns [null] for every key. *)
Theorem clear_only_prefixed (ls : gmap string string) :
  (forall k, String.prefix prefix k = true -> clear ls !! k = None)
  /\ (forall k, String.prefix prefix k = false -> clear ls !! k = ls !! k)
  /\ (forall key, load key (clear ls) = None).
Proof.
  split; [| split].
  - intros k Hk. rewrite clear_lookup, Hk. reflexivity.
  - intros k Hk. rewrite clear_lookup, Hk. reflexivity.
  - intros key. unfold StorageSystem.load.
    rewrite clear_lookup, prefix_prefix. reflexivity.
Qed.

(** X28: [save] and [load].  A [save] that returns [false] has changed
    nothing.  After a [save] that returns [true], [load] of the key
    returns what [JSON.parse] makes of the text [JSON.stringify] gave
    ([null] when it throws), so data that survives the JSON round trip
    is read back as it was saved.  A [save] touches no other key, and
    after [remove] the key loads as [null]. *)
Theorem save_load (key : string) (data : Data) (ls : gmap string string) :
  let ok := fst (save key data ls) in
  let ls' := snd (save key data ls) in
  (ok = false -> ls' = ls)
  /\ (forall serialized,
        ok = true -> stringify data = Cubie.Returned (Some serialized) ->
        serialized <> EmptyString ->
        load key ls' = match parse serialized with
                       | Cubie.Returned value => Some value
                       | Cubie.Thrown _ => None
                       end)
  /\ (forall serialized,
        ok = true -> stringify data = Cubie.Returned (Some serialized) ->
        serialized <> EmptyString -> parse serialized = Cubie.Returned data ->
        load key ls' = Some data)
  /\ (forall other, other <> key -> load other ls' = load other ls)
  /\ load key (remove key ls') = None.
Proof.
  cbv zeta.
  assert (Hload : forall serialized,
            fst (save key data ls) = true ->
            stringify data = Cubie.Returned (Some serialized) ->
            serialized <> EmptyString ->
            load key (snd (save key data ls))
            = match parse serialized with
              | Cubie.Returned value => Some value
              | Cubie.Thrown _ => None
              end).
  { intros serialized Hok Hs Hne. revert Hok. unfold StorageSystem.save, setItem.
    rewrite Hs. cbn [default from_option id].
    destruct (accepts ls (prefix ++ key) serialized); cbn [fst snd];
      [| intros H; discriminate H].
    intros _. unfold StorageSystem.load. rewrite lookup_insert_eq.
    destruct serialized; [contradiction | reflexivity]. }
  split; [| split; [| split; [| split]]].
  - unfold StorageSystem.save, setItem.
    destruct (stringify data) as [serialized | error]; [| reflexivity].
    destruct (accepts ls _ _); cbn [fst snd]; [intros H; discriminate H | reflexivity].
  - exact Hload.
  - intros serialized Hok Hs Hne Hparse.
    rewrite (Hload serialized Hok Hs Hne), Hparse. reflexivity.
  - intros other Hne. unfold StorageSystem.save, setItem.
    destruct (stringify data) as [serialized | error]; [| reflexivity].
    destruct (accepts ls _ _); cbn [fst snd]; [| reflexivity].
    unfold StorageSystem.load. rewrite lookup_insert_ne; [reflexivity |].
    intros H. apply prefix_inj in H. congruence.
  - unfold StorageSystem.load, remove. rewrite lookup_delete_eq. reflexivity.
Qed.

End Json.
End StorageFacts.

(** ** Entity positions *)

Module EntityFacts.

(** X29: [position.get()] after [position.set(pos)].  Every coordinate that
    is zero or NaN reads back as [+0], the others unchanged; without a
    mesh there is no [z] to read.  With a mesh and three coordinates
    that are neither zero nor NaN, [get] returns [pos]. *)
Theorem position_get_set (pos : Vec3.t) (e : Entity.t) :
  let pos' := Entity.position_get (Entity.position_set pos e) in
  Vec3.x pos' = JS.or (Vec3.x pos) 0
  /\ Vec3.y pos' = JS.or (Vec3.y pos) 0
  /\ (Entity.mesh e <> None -> Vec3.z pos' = JS.or (Vec3.z pos) 0)
  /\ (Entity.mesh e = None -> JS.isNaN (Vec3.z pos') = true)
  /\ (Entity.mesh e <> None ->
      JS.ToBoolean (Vec3.x pos) = true -> JS.ToBoolean (Vec3.y pos) = true ->
      JS.ToBoolean (Vec3.z pos) = true -> pos' = pos).
Proof.
  cbv zeta. unfold Entity.position_get, Entity.position_set.
  destruct (Entity.mesh e) as [m |]; simpl.
  - repeat split; try reflexivity; try congruence.
    intros _ Hx Hy Hz. unfold JS.or. rewrite Hx, Hy, Hz. destruct pos; reflexivity.
  - repeat split; try reflexivity; congruence.
Qed.

End EntityFacts.

(** ** Concrete instances of the further properties *)

(** A physics system with one default body on entity 3. *)
Definition onePhysicsBody : PhysicsSystem.t :=
  PhysicsSystem.addBody 3%nat PhysicsFacts.noConfig PhysicsSystem.new.

Lemma removeBody_addBody_witness :
  PhysicsSystem.removeBody 7%nat
    (PhysicsSystem.addBody 7%nat PhysicsFacts.noConfig onePhysicsBody)
  = onePhysicsBody.
Proof.
  apply (PhysicsMore.removeBody_addBody 7%nat PhysicsFacts.noConfig onePhysicsBody).
  intros b [<- | []]. simpl. intros H. discriminate H.
Defined.

(** A default body, one unit above the ground, after one second of
    gravity. *)
Lemma integrate_above_ground_witness :
  (Vec3.y (position_get
             (snd (PhysicsSystem.integrate (PhysicsSystem.gravity PhysicsSystem.new) 1
                     (sampleBody 0%nat) (PhysicsFacts.storeAt 1)))
             0%nat) <? 0) = false.
Proof.
  apply (PhysicsMore.integrate_above_ground (PhysicsSystem.gravity PhysicsSystem.new) 1
           (sampleBody 0%nat) (PhysicsFacts.storeAt 1)).
  reflexivity.
Defined.

Lemma update_moves_only_dynamic_witness :
  fst (snd (PhysicsSystem.update (fun _ => []) 1 onePhysicsBody
              (sampleStore, EventEmitter.new))) 1%nat
  = sampleStore 1%nat.
Proof.
  apply (PhysicsMore.update_moves_only_dynamic (fun _ => []) 1 onePhysicsBody
           (sampleStore, EventEmitter.new) 1%nat).
  intros b [<- | []] _. simpl. intros H. discriminate H.
Defined.

(** The default emitter when the loop is reached in a step with
    [dt = 1]: the loop makes ten rounds. *)
Definition dueEmitter : ParticleSystem.Emitter :=
  ParticleSystem.with_particles [] 1 defaultEmitter.

Lemma spawnLoop_terminates_witness :
  ParticleSystem.spawnLoop (fun _ => 0.5) 2000 0 dueEmitter
  = ParticleSystem.spawn (fun _ => 0.5) 0 dueEmitter
  /\ ParticleSystem.spawning (fst (ParticleSystem.spawn (fun _ => 0.5) 0 dueEmitter))
     = false
  /\ JS.length_ltb (JS.lengthsBelow (ParticleSystem.maxParticles dueEmitter))
       (ParticleSystem.maxParticles dueEmitter) = false.
Proof.
  apply (ParticleMore.spawnLoop_terminates (fun _ => 0.5) 2000 0 dueEmitter).
  - reflexivity.
  - apply Nat.leb_le. reflexivity.
Defined.

Lemma updateEmitter_alive_witness :
  Forall (fun p => (Particle.life p <=? 0) = false)
    (ParticleSystem.particles
       (fst (ParticleSystem.updateEmitter (fun _ => 0.5) Mode3D 1 0 defaultEmitter))).
Proof.
  apply (ParticleMore.updateEmitter_alive (fun _ => 0.5) Mode3D 1 0 defaultEmitter).
  reflexivity.
Defined.

Lemma updateEmitter_buffer_witness :
  ParticleSystem.system
    (fst (ParticleSystem.updateEmitter (fun _ => 0.5) Mode3D 1 0 defaultEmitter))
  = Some (ParticleSystem.positions
            (ParticleSystem.particles
               (fst (ParticleSystem.updateEmitter (fun _ => 0.5) Mode3D 1 0 defaultEmitter)))).
Proof.
  apply (ParticleMore.updateEmitter_buffer (fun _ => 0.5) 1 0 defaultEmitter []);
    reflexivity.
Defined.

(** The tween of [x] to 10 over 2 seconds is made while [x] is 0; by the
    time of its first step, one second later, [x] has been set to 99.
    The step writes 5. *)
Lemma tween_writes_from_snapshot_witness :
  TweenSystem.prop
    (fst (snd (TweenSystem.step 1
                 (TweenSystem.makeTween sampleTargets 0%nat [("x"%string, 10)] 2
                    TweenSystem.noOptions)
                 (fun _ => {["x"%string := 99]}, []))) 0%nat) "x"
  = 5.
Proof.
  destruct (TweenMore.tween_writes_from_snapshot sampleTargets 0%nat [("x"%string, 10)] 2 1
              TweenSystem.noOptions (fun _ => {["x"%string := 99]}, [])) as [H _].
  - apply NoDup_singleton.
  - reflexivity.
  - rewrite (H "x"%string 10 (or_introl eq_refl)). reflexivity.
Defined.

(** An emitter with function 1 subscribed to ["foo"]. *)
Definition oneListener : EventEmitter.t unit :=
  EventEmitter.on "foo" (EventEmitter.Fn 1) EventEmitter.new.

Lemma off_on_witness :
  EventEmitter.listeners "foo"
    (EventEmitter.off "foo" (EventEmitter.Fn 2)
       (EventEmitter.on "foo" (EventEmitter.Fn 2) oneListener))
  = EventEmitter.listeners "foo" oneListener.
Proof.
  apply (EventMore.off_on "foo" (EventEmitter.Fn 2) oneListener).
  vm_compute. intros [H | []]. discriminate H.
Defined.

Lemma once_called_once_witness :
  let e1 := EventEmitter.once "foo" (EventEmitter.Fn 1) (@EventEmitter.new unit) in
  let e2 := EventEmitter.emit (fun _ => []) "foo" tt e1 in
  let e3 := EventEmitter.emit (fun _ => []) "foo" tt e2 in
  EventEmitter.calls e2 = EventEmitter.calls (@EventEmitter.new unit) ++ [(1%nat, tt)]
  /\ EventEmitter.listeners "foo" e2 = []
  /\ EventEmitter.calls e3 = EventEmitter.calls e2.
Proof.
  apply (EventMore.once_called_once (fun _ => []) "foo" 1 tt tt EventEmitter.new);
    reflexivity.
Defined.

Lemma emit_calls_in_order_witness :
  EventEmitter.calls
    (EventEmitter.emit (fun _ => []) "foo" tt
       (EventEmitter.on "foo" (EventEmitter.Fn 2) oneListener))
  = [(1%nat, tt); (2%nat, tt)].
Proof.
  destruct (EventMore.emit_calls_in_order (fun _ => []) "foo" tt
              (EventEmitter.on "foo" (EventEmitter.Fn 2) oneListener)) as [H _].
  - vm_compute. repeat constructor.
  - rewrite H. reflexivity.
Defined.

Lemma registry_names_unique_witness :
  List.NoDup (JSMap.keys (Cubie.entities
     (snd (Cubie.entity.create (fun _ => []) "hero" Entity.emptyConfig sampleEngine))))
  /\ List.NoDup (JSMap.keys (Cubie.entities
       (Cubie.entity.remove (fun _ => []) "hero" sampleEngine)))
  /\ Cubie.entity.get "hero" (Cubie.entity.remove (fun _ => []) "hero" sampleEngine) = None.
Proof.
  apply (RegistryMore.registry_names_unique (fun _ => []) "hero" Entity.emptyConfig
           sampleEngine).
  simpl. constructor; [| constructor; [intros [] | constructor]].
  intros [H | []]. discriminate H.
Defined.

Lemma remove_create_witness :
  let c' := Cubie.entity.remove (fun _ => []) "hero"
              (snd (Cubie.entity.create (fun _ => []) "hero" Entity.emptyConfig
                      (Cubie.new Mode3D))) in
  Cubie.entities c' = [] /\ Cubie.scene c' = [] /\ Cubie.layers c' = ∅.
Proof.
  destruct (RegistryMore.remove_create (fun _ => []) "hero" Entity.emptyConfig
              (Cubie.new Mode3D) eq_refl) as [H1 H2].
  split; [exact H1 |]. apply H2; [reflexivity | intros []].
Defined.


Lemma system_add_runs_witness :
  let added :=
    Live.system_add nat LiveExamples.counting "late" 2%nat
      (Live.with_reg nat LiveExamples.withInit LiveExamples.sampleFrame) in
  map snd (Live.trace nat added)
  = [Cubie.LoggerDebug "System added: late"; Cubie.SystemInit "late" 7]
  /\ In (Cubie.SystemUpdate "late" 12 1)
       (map snd (Live.trace nat (Live.loop nat LiveExamples.counting 10 1 added))).
Proof.
  cbv zeta.
  destruct (LiveFacts.system_add_runs nat LiveExamples.counting 1 10 "late" 2%nat
              (Live.with_reg nat LiveExamples.withInit LiveExamples.sampleFrame) eq_refl)
    as [_ H].
  destruct (H LiveExamples.counting_quiet) as (Htr & _ & _ & _ & Hnext).
  split; [rewrite Htr; vm_compute; reflexivity |].
  assert (Hfuel : (LiveFacts.entries
                     (LiveFacts.registered "late" 2%nat
                        (Live.reg nat (Live.with_reg nat LiveExamples.withInit
                                         LiveExamples.sampleFrame))) <= 10)%nat)
    by (vm_compute; lia).
  destruct (Hnext 12%nat eq_refl ltac:(discriminate) eq_refl eq_refl Hfuel)
    as [Hloop (index & Hin)].
  rewrite Hloop, map_app. apply in_app_iff. right.
  apply (in_map snd) in Hin. exact Hin.
Defined.



(** A logger that records warnings and errors only. *)
Definition warnLogger : Logger.t unit := Logger.setLevel "warn" Logger.new.

Lemma log_bounded_witness :
  (length (Logger.logs (Logger.log "t0" 3 "error" "boom" None warnLogger))
   <= Logger.maxLogs warnLogger)%nat
  /\ Logger.maxLogs (Logger.log "t0" 3 "error" "boom" None warnLogger)
     = Logger.maxLogs warnLogger.
Proof.
  apply (LoggerFacts.log_bounded "t0" 3 "error" "boom" None warnLogger).
  apply Nat.leb_le. reflexivity.
Defined.

Lemma log_threshold_witness :
  Logger.log "t0" 3 "info" "tick" None warnLogger = warnLogger
  /\ last (Logger.logs (Logger.log "t0" 3 "error" "boom" None warnLogger))
     = Some (Logger.mkEntry "error" "boom" None "t0" 3).
Proof.
  assert (Hwarn : LoggerFacts.known (Logger.logLevel warnLogger))
    by (intros H; discriminate H).
  assert (Hmax : (1 <= Logger.maxLogs warnLogger)%nat) by (apply Nat.leb_le; reflexivity).
  assert (Hlen : (length (Logger.logs warnLogger) <= Logger.maxLogs warnLogger)%nat)
    by (apply Nat.leb_le; reflexivity).
  split.
  - destruct (LoggerFacts.log_threshold "t0" 3 "info" "tick" None warnLogger) as [H _];
      try assumption.
    + intros H. discriminate H.
    + apply H. apply Nat.ltb_lt. reflexivity.
  - destruct (LoggerFacts.log_threshold "t0" 3 "error" "boom" None warnLogger) as [_ H];
      try assumption.
    + intros H. discriminate H.
    + apply H. apply Nat.leb_le. reflexivity.
Defined.

Lemma key_pressed_is_edge_witness :
  let held := InputSystem.keydown (fun key => key) "a" InputSystem.new in
  let next := InputSystem.update [] held in
  InputSystem.isKeyPressed (fun key => key) "a" held = true
  /\ InputSystem.isKeyDown (fun key => key) "a" next = true
  /\ InputSystem.isKeyPressed (fun key => key) "a" next = false.
Proof.
  destruct (InputFacts.key_pressed_is_edge (fun key => key) "a" [] [] InputSystem.new
              eq_refl eq_refl) as (_ & H1 & H2 & H3 & _).
  split; [exact H1 |]. split; [exact H2 | exact H3].
Defined.

Lemma keys_independent_witness :
  InputSystem.isKeyDown (fun key => key) "b"
    (InputSystem.keydown (fun key => key) "a" InputSystem.new)
  = InputSystem.isKeyDown (fun key => key) "b" InputSystem.new.
Proof.
  destruct (InputFacts.keys_independent (fun key => key) "a" "b" InputSystem.new) as [H _].
  - intros H. discriminate H.
  - exact H.
Defined.

Lemma clamp_range_witness :
  (0 <=? Cubie.utils.clamp 7 0 5) = true
  /\ (Cubie.utils.clamp 7 0 5 <=? 5) = true
  /\ (Cubie.utils.clamp 7 0 5 = 7 \/ Cubie.utils.clamp 7 0 5 = 0
      \/ Cubie.utils.clamp 7 0 5 = 5).
Proof.
  destruct (ClampFacts.clamp_range 7 0 5 eq_refl) as [H _].
  exact (H eq_refl).
Defined.

Lemma volumes_stay_in_range_witness :
  ClampFacts.volumesInRange (AudioSystem.setMasterVolume 7 AudioSystem.new).
Proof.
  destruct (ClampFacts.volumes_stay_in_range 7 AudioSystem.new eq_refl) as (_ & H & _).
  - repeat split; reflexivity.
  - exact H.
Defined.

(** Text is saved as it is and read back as it is; every write is
    accepted. *)
Lemma save_load_witness :
  StorageSystem.load (fun text => Cubie.Returned text) "slot"
    (snd (StorageSystem.save (fun data => Cubie.Returned (Some data)) (fun _ _ _ => true)
            "slot" "level 3"%string ∅))
  = Some "level 3"%string.
Proof.
  destruct (StorageFacts.save_load (fun data => Cubie.Returned (Some data))
              (fun text => Cubie.Returned text) (fun _ _ _ => true)
              "slot" "level 3"%string ∅) as (_ & _ & H & _).
  apply (H "level 3"%string); try reflexivity.
  intros H'. discriminate H'.
Defined.
